(** * Notesnook sync core: a shallow embedding of [api/sync/index.ts]

    The file embeds [SyncManager], [Sync], [promiseTimeout] and
    [deserializeItem] as functions in a small trace/exception monad.
    Everything the sync core consumes through an interface (the SignalR
    connection, the collector, the merger, the migration service, the
    encrypted store, the token manager ...) is an oracle of the class
    [Env]: a deterministic function of the interaction history so far.
    Every call to such a collaborator is recorded as an [Event]. *)

From Stdlib Require Import Floats.PrimFloat Strings.Ascii.
From stdpp Require Import base gmap strings list pretty.

Set Default Proof Using "Type".
#[local] Set Warnings "-register-all".

(** ** JavaScript values

    The result of [JSON.parse] and everything reachable from it. Numbers
    are IEEE-754 doubles. Arrays are objects keyed by their indices, as
    they are in JavaScript; the sync core never looks inside one. *)

Inductive JsValue :=
| JUndefined
| JNull
| JBool (b : bool)
| JNum (n : float)
| JStr (s : string)
| JObj (fields : gmap string JsValue).

(** An item is the property bag of a parsed object. *)
Abbreviation Item := (gmap string JsValue).

(** [ToBoolean] *)
Definition truthy (v : JsValue) : bool :=
  match v with
  | JUndefined | JNull => false
  | JBool b => b
  | JNum n => negb (PrimFloat.is_zero n || PrimFloat.is_nan n)
  | JStr s => negb (bool_decide (s = ""))
  | JObj _ => true
  end.

(** [item.k]: a missing property reads as [undefined]. None of the
    properties read by the sync core lives on [Object.prototype]. *)
Definition get (item : Item) (k : string) : JsValue :=
  default JUndefined (item !! k).

(** ["k" in item] *)
Definition has (item : Item) (k : string) : bool :=
  bool_decide (is_Some (item !! k)).

(** [v === "s"] for a string literal [s] *)
Definition is_string (v : JsValue) (s : string) : bool :=
  match v with
  | JStr s' => bool_decide (s' = s)
  | _ => false
  end.

(** [v === 1] *)
Definition is_one (v : JsValue) : bool :=
  match v with
  | JNum n => PrimFloat.eqb n 1%float
  | _ => false
  end.

(** ** Strings *)

(** [hay.includes(needle)] *)
Definition includes (needle hay : string) : bool :=
  bool_decide (is_Some (String.index 0 needle hay)).

(** [array.includes(s)] on an array of strings *)
Definition array_includes (array : list string) (s : string) : bool :=
  bool_decide (s ∈ array).

(** Line terminators, which [.] does not match without the [s] flag:
    LF, CR and (in UTF-8) U+2028, U+2029. *)
Definition LF : string := String "010"%char "".
Definition CR : string := String "013"%char "".
Definition LS : string :=
  String "226"%char (String "128"%char (String "168"%char "")).
Definition PS : string :=
  String "226"%char (String "128"%char (String "169"%char "")).

Definition at_line_terminator (s : string) : bool :=
  String.prefix LF s || String.prefix CR s
  || String.prefix LS s || String.prefix PS s.

(** The greedy capture group (any characters but line terminators) from
    the start of [s] *)
Fixpoint dot_star (s : string) : string :=
  match s with
  | EmptyString => EmptyString
  | String c rest =>
      if at_line_terminator s then EmptyString else String c (dot_star rest)
  end.

(** [exec] of the regular expression of [SyncManager.start] (the text
    "HubException: " followed by a greedy capture group, flags [gm]) on
    [message]: [None] for [null], otherwise the first capture group of
    the leftmost match. The regular expression is a fresh literal, so
    [lastIndex] is 0. *)
Definition HubException_exec (message : string) : option string :=
  let prefix := "HubException: " in
  i ← String.index 0 prefix message;
  Some (dot_star (String.substring (i + String.length prefix)
                    (String.length message - (i + String.length prefix))
                    message)).

(** ** Exceptions and outcomes *)

(** A thrown value: an instance of [Error] with its message, or any
    other value (one that has no string [message] property). *)
Inductive Exn :=
| ErrorObj (message : string)
| NonError.

(** What the engine throws on a property access on [undefined]/[null],
    on a call of a non-function, and on a property write to a primitive
    in strict mode. The message text is the engine's. *)
Definition TypeError : Exn := ErrorObj "TypeError".

Inductive Outcome (A : Type) :=
| Returned (a : A)
| Raised (e : Exn).
Arguments Returned {A} a.
Arguments Raised {A} e.

(** A promise as seen by [Promise.race] against a timer: it settles at
    some time (milliseconds after the race starts) or never. *)
Inductive Promise (A : Type) :=
| Settles (at_ms : Z) (o : Outcome A)
| Never.
Arguments Settles {A} at_ms o.
Arguments Never {A}.

(** ** Typed data of the wire protocol and of the store *)

(** [Cipher<"base64">]; the fields the sync core compares with [null]
    are optional. *)
Record Cipher := {
  cipher : option string;
  iv : option string;
  salt : option string;
  cipher_length : float
}.

(** [SyncItem = { id; v } & Cipher] *)
Record SyncItem := {
  item_id : string;
  item_v : float;
  item_cipher : Cipher
}.

(** [SyncTransferItem]: a batch of one declared type *)
Record SyncTransferItem := {
  items : list SyncItem;
  type : string
}.

(** [SerializedKey] *)
Record SerializedKey := {
  serialized_key : option string;
  serialized_salt : option string
}.

Record User := { isEmailConfirmed : bool }.

Record Attachment := { hash : string; chunkSize : float }.
Record DownloadableFile := { filename : string; file_chunkSize : float }.

Inductive SyncType := type_full | type_fetch | type_send.
Record SyncOptions := { sync_type : SyncType; force : option bool }.

Inductive HubConnectionState :=
| Disconnected | Connecting | Connected | Disconnecting | Reconnecting.

#[global] Instance HubConnectionState_eq_dec : EqDecision HubConnectionState.
Proof. solve_decision. Defined.

Inductive SYNC_CHECK_IDS := sync | autoSync.

Inductive EVENTS :=
| syncAborted | syncCompleted | syncItemMerged
| userSessionExpired | databaseSyncRequested.

Inductive MigrationType := sync_migration | backup_migration.

(** The result of [migrateItem]: ["skip"] or a boolean. *)
Inductive MigrationResult :=
| skip
| changed (b : bool).

Inductive LogLevel := Info | Warn | Error.

(** An argument of a hub method *)
Inductive HubArg :=
| ArgString (s : string)
| ArgBatch (b : SyncTransferItem)
| ArgInitializePush (vaultKey : option Cipher) (synced : bool).

(** ** Events: the calls the sync core makes on its collaborators *)

Inductive Event :=
| EvAutoSyncStart
| EvAutoSyncStop
| EvCheckSyncStatus (check : SYNC_CHECK_IDS)
| EvGetUser
| EvGetEncryptionKey
| EvRefreshToken (forced : bool)
| EvConnectionStart
| EvConnectionStop
| EvConnectionOn (method : string)
| EvConnectionOff (method : string)
| EvConnectionOnClose
| EvConnectionSend (method : string) (args : list HubArg)
| EvConnectionInvoke (method : string) (args : list HubArg)
| EvDevicesGet
| EvDevicesRegister
| EvDevicesUnregister
| EvVaultGetKey
| EvVaultSetKey (vaultKey : Cipher)
| EvPendingAttachments
| EvQueueUploads (files : list DownloadableFile) (group : string)
| EvCollect (chunkSize : nat) (isForceSync : option bool)
| EvDecryptMulti (key : SerializedKey) (ciphers : list SyncItem)
| EvMigrateItem (item : Item) (version : float) (declared : JsValue)
    (migrationType : MigrationType)
| EvMergeContent (remote : Item) (local : JsValue)
| EvMergeItemAsync (remote : Item) (local : JsValue) (itemType : string)
| EvMergeItemSync (remote : Item) (local : JsValue) (itemType : string)
| EvRecords (collection : string) (ids : list string)
| EvPut (collection : string) (merged : list JsValue)
| EvPublish (event : EVENTS) (args : list JsValue)
| EvSyncProgress (direction : string) (count : nat)
| EvMonographsRefresh
| EvStorageWrite (name : string) (value : float)
| EvLog (level : LogLevel) (message : string)
| EvConsoleError (e : Exn).

Abbreviation History := (list Event).

(** ** The trace/exception monad

    A computation reads the history so far and gives its outcome and the
    events it appended. *)

Definition M (A : Type) : Type := History → Outcome A * list Event.

Definition ret {A} (a : A) : M A := λ _, (Returned a, []).

Definition throw {A} (e : Exn) : M A := λ _, (Raised e, []).

Definition bind {A B} (m : M A) (f : A → M B) : M B := λ h,
  match m h with
  | (Returned a, t1) => let '(r, t2) := f a (h ++ t1) in (r, t1 ++ t2)
  | (Raised e, t1) => (Raised e, t1)
  end.

(** [try { m } catch (e) { handler e }] *)
Definition try_catch {A} (m : M A) (handler : Exn → M A) : M A := λ h,
  match m h with
  | (Returned a, t1) => (Returned a, t1)
  | (Raised e, t1) => let '(r, t2) := handler e (h ++ t1) in (r, t1 ++ t2)
  end.

(** [try { m } finally { cleanup }] *)
Definition try_finally {A} (m : M A) (cleanup : M unit) : M A := λ h,
  let '(r, t1) := m h in
  match cleanup (h ++ t1) with
  | (Returned _, t2) => (r, t1 ++ t2)
  | (Raised e, t2) => (Raised e, t1 ++ t2)
  end.

(** A call with no result that cannot fail *)
Definition emit (ev : Event) : M unit := λ _, (Returned tt, [ev]).

(** A call answered by an oracle *)
Definition call {A} (ev : Event) (reply : History → Outcome A) : M A :=
  λ h, (reply h, [ev]).

(** A read of external state, not recorded *)
Definition read {A} (f : History → A) : M A := λ h, (Returned (f h), []).

(** The outcome of a pure step *)
Definition lift {A} (o : Outcome A) : M A := λ _, (o, []).

Notation "'do' x <- m ; k" := (bind m (λ x, k))
  (at level 10, x pattern, m at level 100, k at level 200,
   format "'[v' 'do'  x  <-  m ; '/' k ']'").
Notation "m ;; k" := (bind m (λ _, k))
  (at level 100, k at level 200, right associativity).

(** [Promise.all(xs.map(f))], sequenced left to right. The first
    rejection ends the whole; what the later elements would still do
    after it is not represented. *)
Fixpoint mapM {A B} (f : nat → A → M B) (index : nat) (xs : list A)
  : M (list B) :=
  match xs with
  | [] => ret []
  | x :: xs' =>
      do y <- f index x;
      do ys <- mapM f (S index) xs';
      ret (y :: ys)
  end.

(** [xs.forEach(f)] *)
Fixpoint forEach {A} (f : A → M unit) (xs : list A) : M unit :=
  match xs with
  | [] => ret tt
  | x :: xs' => f x;; forEach f xs'
  end.

(** ** The collaborators *)

(** The async generator returned by [collector.collect]: finite, lazy;
    what it yields next may depend on what happened meanwhile. *)
Inductive Generator :=
| GenDone
| GenThrow (e : Exn)
| GenYield (item : SyncTransferItem) (next : History → Generator).

(** The answer to [RequestFetch]: the server streams [SendItems]
    batches, each acknowledged by the handler, and then completes the
    invocation. *)
Record ServerResponse := { vaultKey : option Cipher }.

Inductive FetchStream :=
| FetchCompleted (serverResponse : Outcome ServerResponse)
| FetchSendItems (chunk : SyncTransferItem)
    (next : Outcome bool → FetchStream).

Class Env := {
  autoSync_start : History → Outcome unit;
  checkSyncStatus : History → SYNC_CHECK_IDS → Outcome bool;
  user_getUser : History → Outcome (option User);
  user_getEncryptionKey : History → Outcome (option SerializedKey);
  tokenManager_refreshToken : History → bool → Outcome unit;
  connection_state : History → HubConnectionState;
  connection_start : History → Promise unit;
  connection_stop : History → Outcome unit;
  connection_send : History → string → list HubArg → Outcome unit;
  connection_invoke_PushItems :
    History → string → SyncTransferItem → Outcome JsValue;
  connection_invoke_RequestFetch : History → string → FetchStream;
  devices_get : History → Outcome (option string);
  devices_register : History → Outcome unit;
  devices_unregister : History → Outcome unit;
  vault_getKey : History → Outcome (option Cipher);
  vault_setKey : History → Cipher → Outcome unit;
  attachments_pending_items : History → Outcome (list Attachment);
  fs_queueUploads : History → list DownloadableFile → string → Outcome unit;
  collector_collect : History → nat → option bool → Generator;
  storage_decryptMulti :
    History → SerializedKey → list SyncItem → Outcome (list string);
  storage_write : History → string → float → Outcome unit;
  Date_now : History → float;
  migrateItem :
    History → Item → float → float → JsValue → MigrationType →
    Outcome (MigrationResult * Item);
  merger_mergeContent : History → Item → JsValue → Outcome JsValue;
  merger_mergeItemAsync : History → Item → JsValue → string → Outcome JsValue;
  merger_mergeItemSync : History → Item → JsValue → string → Outcome JsValue;
  collection_records :
    History → string → list string → Outcome (JsValue → JsValue);
  collection_put : History → string → list JsValue → Outcome unit;
  monographs_refresh : History → Outcome unit
}.

(** Built-ins of the platform, and the constants and tables the file
    imports from modules outside it *)
Class Platform := {
  JSON_parse : string → Outcome JsValue;
  toLowerCase : string → string;
  COLORS : list string;
  CURRENT_DATABASE_VERSION : float;
  SYNC_COLLECTIONS_MAP : gmap string string
}.

(** ** The program *)

Section Sync.

Context `{!Platform, !Env}.

(** *** [deserializeItem] *)

(** [item.remote = true] on the value [JSON.parse] returned: a write to
    a property of [null] or (the module being strict code) of a
    primitive throws. *)
Definition assign (target : JsValue) (k : string) (x : JsValue)
  : Outcome Item :=
  match target with
  | JObj item => Returned (<[k := x]> item)
  | _ => Raised TypeError
  end.

(** [title.toLowerCase()] *)
Definition title_toLowerCase (title : JsValue) : Outcome string :=
  match title with
  | JStr s => Returned (toLowerCase s)
  | _ => Raised TypeError
  end.

(** The expression bound to [const itemType] *)
Definition itemType_of (item : Item) : Outcome JsValue :=
  let otherwise :=
    if is_string (get item "type") "trash" && has item "itemType"
       && truthy (get item "itemType")
    then get item "itemType"
    else get item "type" in
  if is_string (get item "type") "tag" then
    match title_toLowerCase (get item "title") with
    | Returned title =>
        Returned (if array_includes COLORS title then JStr "color"
                  else otherwise)
    | Raised e => Raised e
    end
  else Returned otherwise.

(** [!itemType || itemType === "topic" || itemType === "settings"] *)
Definition is_dropped_type (itemType : JsValue) : bool :=
  negb (truthy itemType) || is_string itemType "topic"
  || is_string itemType "settings".

(** [if (migrationResult)] *)
Definition migrationResult_truthy (migrationResult : MigrationResult) : bool :=
  match migrationResult with
  | skip => true
  | changed b => b
  end.

(** The tail of the plaintext branch, from [const itemType] on *)
Definition resolve_and_stamp (migrationResult : MigrationResult)
    (item : Item) : M (option Item) :=
  do itemType <- lift (itemType_of item);
  if is_dropped_type itemType then ret None
  else
    let item :=
      if migrationResult_truthy migrationResult
      then <["synced" := JBool false]> item else item in
    ret (Some item).

(** [await migrateItem(item, version, CURRENT_DATABASE_VERSION, type,
    database, migrationType)]; the service mutates [item] in place. *)
Definition call_migrateItem (item : Item) (version : float)
    (declared : JsValue) (migrationType : MigrationType)
  : M (MigrationResult * Item) :=
  call (EvMigrateItem item version declared migrationType)
    (λ h, migrateItem h item version CURRENT_DATABASE_VERSION declared
            migrationType).

Definition deserializeItem (decryptedItem : string) (version : float)
  : M (option Item) :=
  do parsed <- lift (JSON_parse decryptedItem);
  do item <- lift (assign parsed "remote" (JBool true));
  let item := <["synced" := JBool true]> item in
  if negb (truthy (get item "cipher")) then
    do (migrationResult, item) <-
      call_migrateItem item version (get item "type") sync_migration;
    match migrationResult with
    | skip => ret None
    | _ =>
        if is_string (get item "type") "trash" && truthy (get item "itemType")
        then
          do (migrationResult, item) <-
            call_migrateItem item version (get item "itemType")
              backup_migration;
          match migrationResult with
          | skip => ret None
          | _ => resolve_and_stamp migrationResult item
          end
        else resolve_and_stamp migrationResult item
    end
  else ret (Some item).

(** *** [Sync.processChunk] *)

(** [chunk.items[index].v] *)
Definition version_at (chunk : SyncTransferItem) (index : nat)
  : Outcome float :=
  match items chunk !! index with
  | Some i => Returned (item_v i)
  | None => Raised TypeError
  end.

(** [.filter(Boolean)]: a deserialized item is an object, hence truthy;
    only [undefined] is removed. *)
Definition filter_Boolean (xs : list (option Item)) : list Item :=
  omap (λ x, x) xs.

(** [this.db[SYNC_COLLECTIONS_MAP[itemType]].collection] *)
Definition collection_of (itemType : string) : Outcome string :=
  match SYNC_COLLECTIONS_MAP !! itemType with
  | Some collectionType => Returned collectionType
  | None => Raised TypeError
  end.

Definition processChunk (chunk : SyncTransferItem) (key : SerializedKey)
  : M unit :=
  let itemType := type chunk in
  if bool_decide (itemType = "settings") then ret tt
  else
    do decrypted <-
      call (EvDecryptMulti key (items chunk))
        (λ h, storage_decryptMulti h key (items chunk));
    do deserialized <-
      mapM (λ index item,
              do version <- lift (version_at chunk index);
              deserializeItem item version) 0 decrypted;
    let deserialized := filter_Boolean deserialized in
    do collection <- lift (collection_of itemType);
    let ids := item_id <$> items chunk in
    do localItems <-
      call (EvRecords collection ids)
        (λ h, collection_records h collection ids);
    do merged <-
      (if bool_decide (itemType = "content") then
         mapM (λ _ item,
                 let local := localItems (get item "id") in
                 call (EvMergeContent item local)
                   (λ h, merger_mergeContent h item local))
           0 deserialized
       else if bool_decide (itemType = "attachment") then
         mapM (λ _ item,
                 let local := localItems (get item "id") in
                 call (EvMergeItemAsync item local itemType)
                   (λ h, merger_mergeItemAsync h item local itemType))
           0 deserialized
       else
         mapM (λ _ item,
                 let local := localItems (get item "id") in
                 call (EvMergeItemSync item local itemType)
                   (λ h, merger_mergeItemSync h item local itemType))
           0 deserialized);
    (if (bool_decide (itemType = "note") || bool_decide (itemType = "content"))
        && bool_decide (0 < length merged)
     then forEach (λ item, emit (EvPublish syncItemMerged [item])) merged
     else ret tt);;
    call (EvPut collection merged) (λ h, collection_put h collection merged).

(** *** [promiseTimeout] and [Sync.checkConnection] *)

(** [await promiseTimeout(ms, promise)]: the race between [promise] and
    a timer that rejects after [ms] milliseconds. The timer always
    settles, so the race does; a promise settled by then wins. *)
Definition promiseTimeout {A} (ms : Z) (promise : Promise A) : Outcome A :=
  let timeout :=
    Raised (ErrorObj ("Sync timed out in " +:+ pretty ms +:+ "ms.")) in
  match promise with
  | Settles at_ms o => if bool_decide (at_ms ≤ ms)%Z then o else timeout
  | Never => timeout
  end.

(** [syncConnectionMutex.runExclusive] is not represented: the model has
    one thread of control, for which the mutex is always free. *)
Definition checkConnection : M unit :=
  try_catch
    (do state <- read connection_state;
     if bool_decide (state ≠ Connected) then
       do state <- read connection_state;
       (if bool_decide (state ≠ Disconnected)
        then call EvConnectionStop connection_stop
        else ret tt);;
       do started <- call EvConnectionStart
                       (λ h, Returned (connection_start h));
       lift (promiseTimeout 30000 started)
     else ret tt)
    (λ e,
       emit (EvConsoleError e);;
       match e with
       | ErrorObj message =>
           emit (EvLog Warn message);;
           throw (ErrorObj
                    "Could not connect to the Sync server. Please try again.")
       | NonError => ret tt
       end).

(** *** [Sync.send] *)

Definition uploadAttachments : M unit :=
  do attachments <-
    call EvPendingAttachments attachments_pending_items;
  emit (EvLog Info "Uploading attachments...");;
  let files :=
    (λ a, {| filename := hash a; file_chunkSize := chunkSize a |})
      <$> attachments in
  call (EvQueueUploads files "sync-uploads")
    (λ h, fs_queueUploads h files "sync-uploads").

Definition pushItem (deviceId : string) (item : SyncTransferItem) : M bool :=
  checkConnection;;
  do result <-
    call (EvConnectionInvoke "PushItems" [ArgString deviceId; ArgBatch item])
      (λ h, connection_invoke_PushItems h deviceId item);
  ret (is_one result).

(** The body of the [for await] loop, once per batch the generator
    yields; the result is the final [isSyncInitialized]. *)
Fixpoint send_loop (batches : Generator) (deviceId : string)
    (isSyncInitialized : bool) (done : nat) : M bool :=
  match batches with
  | GenDone => ret isSyncInitialized
  | GenThrow e => throw e
  | GenYield item next =>
      (if negb isSyncInitialized then
         do vaultKey <- call EvVaultGetKey vault_getKey;
         call (EvConnectionSend "InitializePush"
                 [ArgInitializePush vaultKey false])
           (λ h, connection_send h "InitializePush"
                   [ArgInitializePush vaultKey false])
       else ret tt);;
      do result <- pushItem deviceId item;
      do done <-
        (if result then
           let done := done + length (items item) in
           emit (EvSyncProgress "upload" done);;
           emit (EvLog Info ("Batch sent (" +:+ pretty done +:+ ")"));;
           ret done
         else
           emit (EvLog Error
                   "Failed to send batch. Server returned falsy response.");;
           ret done);
      do rest <- read next;
      send_loop rest deviceId true done
  end.

Definition send (deviceId : string) (isForceSync : option bool) : M bool :=
  uploadAttachments;;
  do batches <-
    call (EvCollect 100 isForceSync)
      (λ h, Returned (collector_collect h 100 isForceSync));
  do isSyncInitialized <- send_loop batches deviceId false 0;
  if negb isSyncInitialized then ret false
  else
    call (EvConnectionSend "PushCompleted" [])
      (λ h, connection_send h "PushCompleted" []);;
    ret true.

(** *** [Sync.fetch] *)

(** [!s] for an optional string: [undefined], [null] and [""] are falsy. *)
Definition string_truthy (s : option string) : bool :=
  match s with
  | Some s => negb (bool_decide (s = ""))
  | None => false
  end.

(** The handler registered for ["SendItems"]; [count] is the variable
    of [fetch] it closes over, returned with its new value. *)
Definition onSendItems (key : SerializedKey) (count : nat)
    (chunk : SyncTransferItem) : M (bool * nat) :=
  do state <- read connection_state;
  if bool_decide (state ≠ Connected) then ret (false, count)
  else
    processChunk chunk key;;
    let count := count + length (items chunk) in
    emit (EvSyncProgress "download" count);;
    ret (true, count).

(** Run a computation and reify how it ended. *)
Definition attempt {A} (m : M A) : M (Outcome A) :=
  λ h, let '(r, t) := m h in (Returned r, t).

(** The handler runs once per streamed batch, one batch after the
    other; its acknowledgement, or the exception it ended with, goes
    back to the connection. *)
Fixpoint receive (stream : FetchStream) (key : SerializedKey) (count : nat)
  : M ServerResponse :=
  match stream with
  | FetchCompleted serverResponse => lift serverResponse
  | FetchSendItems chunk next =>
      do handled <- attempt (onSendItems key count chunk);
      match handled with
      | Returned (ack, count) => receive (next (Returned ack)) key count
      | Raised e => receive (next (Raised e)) key count
      end
  end.

Definition fetch (deviceId : string) : M unit :=
  checkConnection;;
  do key <- call EvGetEncryptionKey user_getEncryptionKey;
  let expired :=
    emit (EvLog Error "User encryption key not generated. Please relogin.");;
    emit (EvPublish userSessionExpired []) in
  match key with
  | None => expired
  | Some key =>
      if negb (string_truthy (serialized_key key))
         || negb (string_truthy (serialized_salt key))
      then expired
      else
        let count := 0 in
        emit (EvConnectionOff "SendItems");;
        emit (EvConnectionOn "SendItems");;
        do stream <-
          call (EvConnectionInvoke "RequestFetch" [ArgString deviceId])
            (λ h, Returned (connection_invoke_RequestFetch h deviceId));
        do serverResponse <- receive stream key count;
        match vaultKey serverResponse with
        | Some vaultKey =>
            if bool_decide (is_Some (cipher vaultKey))
               && bool_decide (is_Some (iv vaultKey))
               && bool_decide (is_Some (salt vaultKey))
               && PrimFloat.ltb 0 (cipher_length vaultKey)
            then call (EvVaultSetKey vaultKey)
                   (λ h, vault_setKey h vaultKey)
            else ret tt
        | None => ret tt
        end;;
        emit (EvConnectionOff "SendItems")
  end.

(** *** [Sync.init], [Sync.stop], [Sync.cancel], [Sync.start] *)

Definition init (isForceSync : option bool) : M string :=
  checkConnection;;
  (if default false isForceSync then
     call EvDevicesUnregister devices_unregister;;
     call EvDevicesRegister devices_register
   else ret tt);;
  do deviceId <- call EvDevicesGet devices_get;
  do deviceId <-
    (if negb (string_truthy deviceId) then
       call EvDevicesRegister devices_register;;
       call EvDevicesGet devices_get
     else ret deviceId);
  match deviceId with
  | Some deviceId =>
      if bool_decide (deviceId = "")
      then throw (ErrorObj "Sync device not registered.")
      else ret deviceId
  | None => throw (ErrorObj "Sync device not registered.")
  end.

Definition Sync_stop : M unit :=
  call EvMonographsRefresh monographs_refresh;;
  emit (EvLog Info "Stopping sync");;
  do now <- read Date_now;
  call (EvStorageWrite "lastSynced" now)
    (λ h, storage_write h "lastSynced" now);;
  emit (EvPublish syncCompleted []).

Definition cancel : M unit :=
  emit (EvLog Info "Sync canceled");;
  call EvConnectionStop connection_stop.

Definition onPushCompleted : M unit :=
  emit (EvPublish databaseSyncRequested [JBool true; JBool false]).

Definition Sync_start (options : SyncOptions) : M unit :=
  do enabled <-
    call (EvCheckSyncStatus sync) (λ h, checkSyncStatus h sync);
  if negb enabled then call EvConnectionStop connection_stop
  else
    do user <- call EvGetUser user_getUser;
    if negb (bool_decide (is_Some user)) then ret tt
    else
      emit (EvLog Info "Starting sync");;
      emit EvConnectionOnClose;;
      do deviceId <- init (force options);
      emit (EvLog Info "Initialized sync");;
      (match sync_type options with
       | type_fetch | type_full =>
           fetch deviceId;;
           emit (EvLog Info "Data fetched")
       | type_send => ret tt
       end);;
      (match sync_type options with
       | type_send | type_full =>
           do sent <- send deviceId (force options);
           if sent then emit (EvLog Info "New data sent") else ret tt
       | type_fetch => ret tt
       end);;
      Sync_stop;;
      do enabled <-
        call (EvCheckSyncStatus autoSync)
          (λ h, checkSyncStatus h autoSync);
      if negb enabled then call EvConnectionStop connection_stop
      else ret tt.

(** *** [SyncManager] *)

(** [e.message] when it is a string *)
Definition message_of (e : Exn) : option string :=
  match e with
  | ErrorObj message => Some message
  | NonError => None
  end.

Definition SyncManager_start (options : SyncOptions) : M bool :=
  try_catch
    (call EvAutoSyncStart autoSync_start;;
     Sync_start options;;
     ret true)
    (λ e,
       match message_of e with
       | None => throw TypeError
       | Some message =>
           let isHubException := includes "HubException:" message in
           if isHubException then
             let actualError := HubException_exec message in
             let errorText := default message actualError in
             if includes "Please confirm your email " errorText
                || includes "Invalid token." errorText
             then
               do user <- call EvGetUser user_getUser;
               if default false (isEmailConfirmed <$> user) then
                 call (EvRefreshToken true)
                   (λ h, tokenManager_refreshToken h true);;
                 ret false
               else throw (ErrorObj errorText)
             else throw (ErrorObj errorText)
           else throw e
       end).

Definition acquireLock (callback : M unit) : M unit :=
  try_finally
    (emit EvAutoSyncStop;;
     callback)
    (call EvAutoSyncStart autoSync_start).

Definition SyncManager_stop : M unit := cancel.

End Sync.

(** * The list of the mobile app: [RenderItem]

    The part of the component that computes the props of the rendered
    item. An item is an object, with its array of tag ids kept apart. *)

Record ListItem := {
  item_fields : Item;
  item_tags : option (list JsValue)
}.

(** The object built for a tag the database knows *)
Record TagProps := {
  tag_title : JsValue;
  tag_id : JsValue;
  tag_alias : JsValue
}.

(** What the component is rendered with: an empty [View] for no item,
    otherwise the component looked up under [component_key] with these
    props *)
Inductive Rendered :=
| EmptyView
| Element (component_key : JsValue) (tags : list TagProps) (dateBy : JsValue)
    (index : nat) (listType : JsValue).

Class ListEnv := {
  (** [db.tags.tag] *)
  tags_tag : JsValue → JsValue;
  (** [db.settings], with its [getGroupOptions] *)
  db_settings : option (JsValue → JsValue)
}.

(** [v.k] *)
Definition prop (v : JsValue) (k : string) : Outcome JsValue :=
  match v with
  | JObj o => Returned (get o k)
  | JUndefined | JNull => Raised TypeError
  | _ => Returned JUndefined
  end.

(** [a || b] *)
Definition js_or (a b : JsValue) : JsValue := if truthy a then a else b.

Section List.

Context `{!ListEnv}.

(** The callback mapped over the first three tag ids; [None] is
    [null]. *)
Definition tag_props (id : JsValue) : option TagProps :=
  let tag := tags_tag id in
  if negb (truthy tag) then None
  else
    let field k := match tag with JObj o => get o k | _ => JUndefined end in
    Some {| tag_title := field "title"; tag_id := field "id";
            tag_alias := field "alias" |}.

Definition RenderItem (item : option ListItem) (index : nat)
    (listType : JsValue) : Outcome Rendered :=
  match item with
  | None => Returned EmptyView
  | Some item =>
      let key :=
        js_or (get (item_fields item) "itemType")
          (get (item_fields item) "type") in
      let groupOptions :=
        match db_settings with
        | Some getGroupOptions => getGroupOptions listType
        | None => JUndefined
        end in
      match prop groupOptions "sortBy" with
      | Raised e => Raised e
      | Returned sortBy =>
          let dateBy :=
            if negb (is_string sortBy "title") then sortBy
            else JStr "dateEdited" in
          let tags :=
            match item_tags item with
            | Some ids => omap (λ t, t) (tag_props <$> take 3 ids)
            | None => []
            end in
          Returned (Element key tags dateBy index listType)
      end
  end.

End List.

(** * The conflict toggle of the web app: [DeltaToggle] *)

Inductive Editor := SelectedEditor | OtherEditor.

Inductive UiEvent :=
| UiContents (editor : Editor)
| UiNotesAdd (note : Item)
| UiRefresh
| UiSetHashParam (param : Item)
| UiToggle.

Abbreviation UiHistory := (list UiEvent).

(** The same trace/exception monad, over the calls of the component *)
Definition UI (A : Type) : Type := UiHistory → Outcome A * list UiEvent.

Definition ui_ret {A} (a : A) : UI A := λ _, (Returned a, []).

Definition ui_bind {A B} (m : UI A) (f : A → UI B) : UI B := λ h,
  match m h with
  | (Returned a, t1) => let '(r, t2) := f a (h ++ t1) in (r, t1 ++ t2)
  | (Raised e, t1) => (Raised e, t1)
  end.

Definition ui_call {A} (ev : UiEvent) (reply : UiHistory → Outcome A)
  : UI A :=
  λ h, (reply h, [ev]).

Class ToggleEnv := {
  (** [deltaTransformer.cleanDifference(editor.getContents())] *)
  cleaned_contents : UiHistory → Editor → Outcome JsValue;
  notes_add : UiHistory → Item → Outcome unit;
  notestore_refresh : UiHistory → Outcome unit;
  setHashParam : UiHistory → Item → Outcome unit;
  onToggle : UiHistory → Outcome unit;
  (** [String(n)] for a number *)
  Number_toString : float → string
}.

Record ToggleProps := {
  isSelected : bool;
  isOtherSelected : bool;
  conflicted_note : Item
}.

Section Toggle.

Context `{!ToggleEnv}.

(** [v + " (DUPLICATE)"]: the left operand converted to a string *)
Definition to_string (v : JsValue) : string :=
  match v with
  | JUndefined => "undefined"
  | JNull => "null"
  | JBool true => "true"
  | JBool false => "false"
  | JNum n => Number_toString n
  | JStr s => s
  | JObj _ => "[object Object]"
  end.

(** The note saved as the resolution *)
Definition resolution (note : Item) (selectedContent : JsValue) : Item :=
  let content : Item :=
    <["data" := selectedContent]>
      (<["type" := JStr "delta"]> (<["resolved" := JBool true]> ∅)) in
  <["id" := get note "id"]>
    (<["content" := JObj content]> (<["conflicted" := JBool false]> ∅)).

(** The note saved as the copy: the note itself, with the fields that
    follow the spread written over it *)
Definition duplicate (note : Item) (otherContent : JsValue) : Item :=
  let content : Item :=
    <["data" := otherContent]> (<["type" := JStr "delta"]> ∅) in
  <["title" := JStr (to_string (get note "title") +:+ " (DUPLICATE)")]>
    (<["conflicted" := JBool false]>
       (<["dateEdited" := JUndefined]>
          (<["dateCreated" := JUndefined]>
             (<["id" := JUndefined]>
                (<["content" := JObj content]> note))))).

Definition resolveConflict (note : Item)
    (selectedContent otherContent : JsValue) : UI unit :=
  ui_bind
    (ui_call (UiNotesAdd (resolution note selectedContent))
       (λ h, notes_add h (resolution note selectedContent)))
    (λ _,
       ui_bind
         (if truthy otherContent then
            ui_call (UiNotesAdd (duplicate note otherContent))
              (λ h, notes_add h (duplicate note otherContent))
          else ui_ret tt)
         (λ _,
            ui_bind (ui_call UiRefresh notestore_refresh)
              (λ _,
                 let param : Item := <["note" := get note "id"]> ∅ in
                 ui_call (UiSetHashParam param)
                   (λ h, setHashParam h param)))).

(** The handler of the "Save copy" button *)
Definition onClick_save_copy (props : ToggleProps) : UI unit :=
  ui_bind
    (ui_call (UiContents SelectedEditor)
       (λ h, cleaned_contents h SelectedEditor))
    (λ selectedContent,
       ui_bind
         (ui_call (UiContents OtherEditor)
            (λ h, cleaned_contents h OtherEditor))
         (λ otherContent,
            resolveConflict (conflicted_note props) selectedContent
              otherContent)).

(** The handler of the main button *)
Definition onClick_main (props : ToggleProps) : UI unit :=
  if isOtherSelected props then
    ui_bind
      (ui_call (UiContents SelectedEditor)
         (λ h, cleaned_contents h SelectedEditor))
      (λ selectedContent,
         resolveConflict (conflicted_note props) selectedContent JUndefined)
  else ui_call UiToggle onToggle.

(** The text of the main button *)
Definition main_label (props : ToggleProps) : string :=
  if isSelected props then "Undo"
  else if isOtherSelected props then "Discard" else "Keep".

(** The buttons rendered, by their text, in order *)
Definition buttons (props : ToggleProps) : list string :=
  (if isOtherSelected props then ["Save copy"] else [])
  ++ [main_label props].

End Toggle.

(** * Sample platform and collaborators

    Concrete instances on which the properties below are exercised. *)

Definition ascii_toLowerCase (c : ascii) : ascii :=
  let n := nat_of_ascii c in
  if (65 <=? n) && (n <=? 90) then ascii_of_nat (n + 32) else c.

Fixpoint sample_toLowerCase (s : string) : string :=
  match s with
  | EmptyString => EmptyString
  | String c rest => String (ascii_toLowerCase c) (sample_toLowerCase rest)
  end.

(** JSON text of a flat object with string values *)
Definition quote : string := String "034"%char "".

Definition json_field (field : string * string) : string :=
  quote +:+ field.1 +:+ quote +:+ ":" +:+ quote +:+ field.2 +:+ quote.

Definition json_object (fields : list (string * string)) : string :=
  "{" +:+ String.concat "," (json_field <$> fields) +:+ "}".

Definition object_of (fields : list (string * string)) : Item :=
  list_to_map ((λ field, (field.1, JStr field.2)) <$> fields).

Definition tag_red : list (string * string) :=
  [("id", "t1"); ("type", "tag"); ("title", "Red")].
Definition cipher_topic : list (string * string) :=
  [("id", "x1"); ("type", "topic"); ("cipher", "c2VjcmV0")].
Definition cipher_envelope : list (string * string) :=
  [("id", "x2"); ("cipher", "c2VjcmV0"); ("iv", "aXY"); ("salt", "c2FsdA")].
Definition trash_note : list (string * string) :=
  [("id", "n1"); ("type", "trash"); ("itemType", "note")].
Definition plain_note : list (string * string) :=
  [("id", "n2"); ("type", "note"); ("title", "hello")].
Definition plain_topic : list (string * string) :=
  [("id", "p1"); ("type", "topic")].

Definition sample_objects : list (list (string * string)) :=
  [tag_red; cipher_topic; cipher_envelope; trash_note; plain_note;
   plain_topic].

(** [JSON.parse] restricted to the sample texts *)
Definition sample_JSON_parse (text : string) : Outcome JsValue :=
  match List.find (λ fields, bool_decide (json_object fields = text))
          sample_objects with
  | Some fields => Returned (JObj (object_of fields))
  | None => Raised (ErrorObj "SyntaxError")
  end.

Definition sample_platform : Platform := {|
  JSON_parse := sample_JSON_parse;
  toLowerCase := sample_toLowerCase;
  COLORS := ["red"; "orange"; "yellow"; "green"; "blue"; "purple"; "gray"];
  CURRENT_DATABASE_VERSION := 6%float;
  SYNC_COLLECTIONS_MAP :=
    list_to_map
      [("note", "notes"); ("notebook", "notebooks"); ("content", "content");
       ("attachment", "attachments"); ("tag", "tags"); ("color", "colors");
       ("shortcut", "shortcuts"); ("reminder", "reminders");
       ("relation", "relations")]
|}.

(** A transfer item whose "ciphertext" is the JSON text itself *)
Definition sync_item (fields : list (string * string)) : SyncItem := {|
  item_id :=
    default "" (snd <$> List.find (λ f, bool_decide (f.1 = "id")) fields);
  item_v := 6%float;
  item_cipher := {| cipher := Some (json_object fields); iv := Some "iv";
                    salt := Some "salt"; cipher_length := 1%float |}
|}.

Definition batch_of (itemType : string)
    (objects : list (list (string * string))) : SyncTransferItem :=
  {| items := sync_item <$> objects; type := itemType |}.

(** A migration service that answers by declared type and leaves the
    item as it is *)
Definition migration_by (answer : JsValue → MigrationResult)
    (h : History) (item : Item) (version target : float)
    (declared : JsValue) (migrationType : MigrationType)
  : Outcome (MigrationResult * Item) :=
  Returned (answer declared, item).

(** Collaborators that all succeed: a confirmed user with a usable key,
    a registered device, an identity "decryption", a merger for which
    the remote item wins, an empty local store. What varies between
    scenarios is given as arguments. *)
Definition sample_env
    (state : History → HubConnectionState)
    (start : History → Promise unit)
    (batches : Generator)
    (pushed : History → SyncTransferItem → Outcome JsValue)
    (stream : FetchStream)
    (answer : JsValue → MigrationResult) : Env := {|
  autoSync_start := λ _, Returned tt;
  checkSyncStatus := λ _ _, Returned true;
  user_getUser := λ _, Returned (Some {| isEmailConfirmed := true |});
  user_getEncryptionKey := λ _,
    Returned (Some {| serialized_key := Some "a2V5";
                      serialized_salt := Some "c2FsdA" |});
  tokenManager_refreshToken := λ _ _, Returned tt;
  connection_state := state;
  connection_start := start;
  connection_stop := λ _, Returned tt;
  connection_send := λ _ _ _, Returned tt;
  connection_invoke_PushItems := λ h _ item, pushed h item;
  connection_invoke_RequestFetch := λ _ _, stream;
  devices_get := λ _, Returned (Some "device-1");
  devices_register := λ _, Returned tt;
  devices_unregister := λ _, Returned tt;
  vault_getKey := λ _, Returned None;
  vault_setKey := λ _ _, Returned tt;
  attachments_pending_items := λ _, Returned [];
  fs_queueUploads := λ _ _ _, Returned tt;
  collector_collect := λ _ _ _, batches;
  storage_decryptMulti := λ _ _ ciphers,
    Returned ((λ i, default "" (cipher (item_cipher i))) <$> ciphers);
  storage_write := λ _ _ _, Returned tt;
  Date_now := λ _, 1700000000000%float;
  migrateItem := migration_by answer;
  merger_mergeContent := λ _ remote _, Returned (JObj remote);
  merger_mergeItemAsync := λ _ remote _ _, Returned (JObj remote);
  merger_mergeItemSync := λ _ remote _ _, Returned (JObj remote);
  collection_records := λ _ _ _, Returned (λ _, JUndefined);
  collection_put := λ _ _ _, Returned tt;
  monographs_refresh := λ _, Returned tt
|}.

Definition always_connected : History → HubConnectionState := λ _, Connected.
Definition connects_at_once : History → Promise unit :=
  λ _, Settles 120 (Returned tt).
Definition acknowledges : History → SyncTransferItem → Outcome JsValue :=
  λ _ _, Returned (JNum 1%float).
Definition nothing_to_fetch : FetchStream :=
  FetchCompleted (Returned {| vaultKey := None |}).
Definition up_to_date : JsValue → MigrationResult := λ _, changed false.

(** Nothing to push, nothing to fetch, everything up to date *)
Definition quiet_env : Env :=
  sample_env always_connected connects_at_once GenDone acknowledges
    nothing_to_fetch up_to_date.

(** * Vocabulary of the properties

    Readers of traces, the predicates the statements are made of, and
    the scenarios on which they are exercised. *)

Section Vocabulary.

Context `{!Platform, !Env}.

(** [emits P m]: every event of every run of [m] satisfies [P]. *)
Definition emits {A} (P : Event → Prop) (m : M A) : Prop :=
  ∀ h r t, m h = (r, t) → Forall P t.

(** The item as [deserializeItem] stamps it before anything else *)
Definition stamped (o : Item) : Item :=
  <["synced" := JBool true]> (<["remote" := JBool true]> o).

(** The remote items handed to the merger *)
Definition merged_remote (ev : Event) : option Item :=
  match ev with
  | EvMergeContent remote _
  | EvMergeItemAsync remote _ _
  | EvMergeItemSync remote _ _ => Some remote
  | _ => None
  end.

Definition merged_remotes (t : list Event) : list Item := omap merged_remote t.

(** The batches written with [collection.put] *)
Definition put_of (ev : Event) : option (string * list JsValue) :=
  match ev with
  | EvPut collection merged => Some (collection, merged)
  | _ => None
  end.

Definition puts (t : list Event) : list (string * list JsValue) :=
  omap put_of t.

(** The counts reported as download progress *)
Definition download_of (ev : Event) : option nat :=
  match ev with
  | EvSyncProgress direction count =>
      if bool_decide (direction = "download") then Some count else None
  | _ => None
  end.

Definition downloads (t : list Event) : list nat := omap download_of t.

(** The number of items written to the store *)
Definition persisted (t : list Event) : nat :=
  sum_list ((λ p, length p.2) <$> puts t).

Definition is_migration (ev : Event) : Prop :=
  match ev with EvMigrateItem _ _ _ _ => True | _ => False end.

Definition is_publish (ev : Event) : Prop :=
  match ev with EvPublish _ _ => True | _ => False end.

(** Hub traffic *)
Definition sent (method : string) (ev : Event) : bool :=
  match ev with
  | EvConnectionSend m _ => bool_decide (m = method)
  | _ => false
  end.

Definition invoked (method : string) (ev : Event) : bool :=
  match ev with
  | EvConnectionInvoke m _ => bool_decide (m = method)
  | _ => false
  end.

Definition count_if (p : Event → bool) (t : list Event) : nat :=
  length (List.filter p t).

(** Neither [InitializePush] nor [PushCompleted] *)
Definition no_push_session (ev : Event) : Prop :=
  sent "InitializePush" ev = false ∧ sent "PushCompleted" ev = false.

(** No push traffic at all *)
Definition no_push (ev : Event) : Prop :=
  no_push_session ev ∧ invoked "PushItems" ev = false.

(** The push session as a protocol: [InitializePush] opens it, batches
    are pushed only while it is open, [PushCompleted] closes it, and
    nothing follows. [push_run p t] is the phase reached from [p] along
    [t], if [t] keeps to the protocol. *)
Inductive PushPhase := Idle | Open | Completed.

Definition push_step (p : PushPhase) (ev : Event) : option PushPhase :=
  if sent "InitializePush" ev then
    match p with Idle => Some Open | _ => None end
  else if sent "PushCompleted" ev then
    match p with Open => Some Completed | _ => None end
  else if invoked "PushItems" ev then
    match p with Open => Some Open | _ => None end
  else
    match p with Completed => None | _ => Some p end.

Fixpoint push_run (p : PushPhase) (t : list Event) : option PushPhase :=
  match t with
  | [] => Some p
  | ev :: t' => p' ← push_step p ev; push_run p' t'
  end.

(** Handler registration: [connection.on] adds a handler for a method,
    [connection.off] removes every handler for it. [registered method n t]
    is the number of handlers for [method] after [t], from [n] before. *)
Definition handler_event (method : string) (ev : Event) : bool :=
  match ev with
  | EvConnectionOn m | EvConnectionOff m => bool_decide (m = method)
  | _ => false
  end.

Fixpoint registered (method : string) (n : nat) (t : list Event) : nat :=
  match t with
  | [] => n
  | EvConnectionOn m :: t' =>
      registered method (if bool_decide (m = method) then S n else n) t'
  | EvConnectionOff m :: t' =>
      registered method (if bool_decide (m = method) then 0 else n) t'
  | _ :: t' => registered method n t'
  end.

(** Neither a handler (de)registration for ["SendItems"] nor a
    [RequestFetch] invocation *)
Definition fetch_quiet (ev : Event) : Prop :=
  handler_event "SendItems" ev = false ∧ invoked "RequestFetch" ev = false.

(** The two migration calls of a run on the parsed object [o] *)
Definition first_pass (o : Item) (version : float) : Event :=
  EvMigrateItem (stamped o) version (get o "type") sync_migration.

Definition second_pass (item : Item) (version : float) : Event :=
  EvMigrateItem item version (get item "itemType") backup_migration.

(** [item.type === "trash" && item.itemType] *)
Definition trash_wrapped (item : Item) : bool :=
  is_string (get item "type") "trash" && truthy (get item "itemType").

(** The answer of the migration pass that ran last, and the calls
    made to get it *)
Definition migrated (h : History) (o : Item) (version : float)
  : Outcome (MigrationResult * Item) * list Event :=
  match migrateItem h (stamped o) version CURRENT_DATABASE_VERSION
          (get o "type") sync_migration with
  | Returned (changed b, item) =>
      if trash_wrapped item then
        (migrateItem (h ++ [first_pass o version]) item version
           CURRENT_DATABASE_VERSION (get item "itemType") backup_migration,
         [first_pass o version; second_pass item version])
      else (Returned (changed b, item), [first_pass o version])
  | answer => (answer, [first_pass o version])
  end.

(** What an item that comes out of deserialization satisfies: it carries
    a cipher marker, or its resolved type is none of the dropped ones. *)
Definition resolved_or_cipher (item : Item) : Prop :=
  truthy (get item "cipher") = true
  ∨ ∃ itemType, itemType_of item = Returned itemType
                ∧ is_dropped_type itemType = false.

(** Phases only advance. *)
Definition phase_rank (p : PushPhase) : nat :=
  match p with Idle => 0 | Open => 1 | Completed => 2 end.

(** [advances p m Q]: every run of [m], from phase [p], keeps to the
    protocol, and its outcome and the phase it reaches satisfy [Q]. *)
Definition advances {A} (p : PushPhase) (m : M A)
    (Q : Outcome A → PushPhase → Prop) : Prop :=
  ∀ h r t, m h = (r, t) → ∃ p', push_run p t = Some p' ∧ Q r p'.

(** The connect attempt is still unsettled when the timer fires. *)
Definition late {A} (promise : Promise A) : Prop :=
  match promise with
  | Settles at_ms _ => (30000 < at_ms)%Z
  | Never => True
  end.

Definition timed_out : Exn := ErrorObj "Sync timed out in 30000ms.".

Definition could_not_connect : Exn :=
  ErrorObj "Could not connect to the Sync server. Please try again.".

(** The call that closes a half-open connection first *)
Definition stopping (h : History) : list Event :=
  if bool_decide (connection_state h ≠ Disconnected)
  then [EvConnectionStop] else [].

(** The [try] block of [start] *)
Definition start_body (options : SyncOptions) : M bool :=
  call EvAutoSyncStart autoSync_start;;
  Sync_start options;;
  ret true.

(** The text the [catch] block works with *)
Definition errorText_of (message : string) : string :=
  default message (HubException_exec message).

(** The text test of the recovery *)
Definition stale_token_text (errorText : string) : bool :=
  includes "Please confirm your email " errorText
  || includes "Invalid token." errorText.

Definition confirmed (user : option User) : bool :=
  default false (isEmailConfirmed <$> user).

(** A usable encryption key: [key], [key.key] and [key.salt] truthy *)
Definition usable (key : option SerializedKey) : bool :=
  match key with
  | Some key =>
      string_truthy (serialized_key key)
      && string_truthy (serialized_salt key)
  | None => false
  end.

(** The three calls with which a run opens its fetch *)
Definition opening (deviceId : string) : list Event :=
  [EvConnectionOff "SendItems"; EvConnectionOn "SendItems";
   EvConnectionInvoke "RequestFetch" [ArgString deviceId]].

(** One batch to push, acknowledged by the server *)
Definition one_batch_env : Env :=
  sample_env always_connected connects_at_once
    (GenYield (batch_of "note" [plain_note]) (λ _, GenDone))
    acknowledges nothing_to_fetch up_to_date.

(** Scenarios for the migration service *)
Definition retires_notes : JsValue → MigrationResult :=
  λ declared, if is_string declared "note" then skip else changed false.

Definition migrates_wrapper_only : JsValue → MigrationResult :=
  λ declared, changed (is_string declared "trash").

Definition retiring_env : Env :=
  sample_env always_connected connects_at_once GenDone acknowledges
    nothing_to_fetch retires_notes.

Definition wrapper_env : Env :=
  sample_env always_connected connects_at_once GenDone acknowledges
    nothing_to_fetch migrates_wrapper_only.

Definition sample_key : SerializedKey :=
  {| serialized_key := Some "a2V5"; serialized_salt := Some "c2FsdA" |}.

(** Scenarios for the connection *)
Definition never_reachable : History → HubConnectionState := λ _, Disconnected.
Definition never_settles : History → Promise unit := λ _, Never.

Definition unreachable_env : Env :=
  sample_env never_reachable never_settles GenDone acknowledges
    nothing_to_fetch up_to_date.

Definition rejects_token : History → SyncTransferItem → Outcome JsValue :=
  λ _ _,
    Raised (ErrorObj
      ("An unexpected error occurred invoking 'PushItems' on the server. "
       +:+ "HubException: Invalid token.")).

Definition invalid_token_env : Env :=
  sample_env always_connected connects_at_once
    (GenYield (batch_of "note" [plain_note]) (λ _, GenDone))
    rejects_token nothing_to_fetch up_to_date.

Definition fetch_fails : FetchStream :=
  FetchCompleted
    (Raised (ErrorObj
       "Invocation canceled due to the underlying connection being closed.")).

Definition failing_fetch_env : Env :=
  sample_env always_connected connects_at_once GenDone acknowledges
    fetch_fails up_to_date.

(** A note batch with a retired topic in it, then a settings batch *)
Definition two_batches : FetchStream :=
  FetchSendItems (batch_of "note" [plain_topic; plain_note])
    (λ _, FetchSendItems (batch_of "settings" [plain_note; plain_note])
            (λ _, nothing_to_fetch)).

Definition streaming_env : Env :=
  sample_env always_connected connects_at_once GenDone acknowledges
    two_batches up_to_date.

Definition send_options : SyncOptions :=
  {| sync_type := type_send; force := None |}.

End Vocabulary.

(** * Vocabulary of the further properties *)

Section FurtherVocabulary.

Context `{!Platform, !Env}.

Definition is_start (ev : Event) : bool :=
  if ev is EvConnectionStart then true else false.

Definition is_stop (ev : Event) : bool :=
  if ev is EvConnectionStop then true else false.

(** What [checkConnection] does with a value thrown inside its [try],
    after the calls [t] *)
Definition connection_failure (e : Exn) (t : list Event)
  : Outcome unit * list Event :=
  match e with
  | ErrorObj message =>
      (Raised could_not_connect,
       t ++ [EvConsoleError e; EvLog Warn message])
  | NonError => (Returned tt, t ++ [EvConsoleError NonError])
  end.

(** The calls a run of [fetch] can make *)
Definition fetch_calls (ev : Event) : Prop :=
  match ev with
  | EvConnectionStop | EvConnectionStart | EvConsoleError _
  | EvGetEncryptionKey | EvVaultSetKey _ | EvDecryptMulti _ _
  | EvMigrateItem _ _ _ _ | EvMergeContent _ _ | EvMergeItemAsync _ _ _
  | EvMergeItemSync _ _ _ | EvRecords _ _ | EvPut _ _ => True
  | EvLog level _ => level = Warn ∨ level = Error
  | EvPublish event _ => event = userSessionExpired ∨ event = syncItemMerged
  | EvConnectionOn method | EvConnectionOff method => method = "SendItems"
  | EvConnectionInvoke method _ => method = "RequestFetch"
  | EvSyncProgress direction _ => direction = "download"
  | _ => False
  end.

(** The calls a run of [send] can make *)
Definition send_calls (ev : Event) : Prop :=
  match ev with
  | EvConnectionStop | EvConnectionStart | EvConsoleError _
  | EvPendingAttachments | EvQueueUploads _ _ | EvCollect _ _
  | EvVaultGetKey | EvLog _ _ => True
  | EvConnectionSend method _ =>
      method = "InitializePush" ∨ method = "PushCompleted"
  | EvConnectionInvoke method _ => method = "PushItems"
  | EvSyncProgress direction _ => direction = "upload"
  | _ => False
  end.

(** The calls a run of [init] can make *)
Definition init_calls (ev : Event) : Prop :=
  match ev with
  | EvConnectionStop | EvConnectionStart | EvConsoleError _
  | EvDevicesGet | EvDevicesRegister | EvDevicesUnregister => True
  | EvLog level _ => level = Warn
  | _ => False
  end.

(** Calls that belong to fetching only: the [SendItems] handler, the
    [RequestFetch] invocation, keys, decryption, migration, merging and
    the store *)
Definition fetch_side (ev : Event) : bool :=
  match ev with
  | EvConnectionOn _ | EvConnectionOff _ | EvGetEncryptionKey
  | EvVaultSetKey _ | EvDecryptMulti _ _ | EvMigrateItem _ _ _ _
  | EvMergeContent _ _ | EvMergeItemAsync _ _ _ | EvMergeItemSync _ _ _
  | EvRecords _ _ | EvPut _ _ => true
  | EvConnectionInvoke method _ => bool_decide (method = "RequestFetch")
  | EvSyncProgress direction _ => bool_decide (direction = "download")
  | _ => false
  end.

(** Calls that belong to sending only: attachments, the collector and
    the push session *)
Definition send_side (ev : Event) : bool :=
  match ev with
  | EvPendingAttachments | EvQueueUploads _ _ | EvCollect _ _
  | EvVaultGetKey | EvConnectionSend _ _ => true
  | EvConnectionInvoke method _ => bool_decide (method = "PushItems")
  | EvSyncProgress direction _ => bool_decide (direction = "upload")
  | _ => false
  end.

End FurtherVocabulary.

(** ** The session *)

(** The four calls with which a sync run finishes *)
Definition finishing (now : float) : list Event :=
  [EvMonographsRefresh; EvLog Info "Stopping sync";
   EvStorageWrite "lastSynced" now; EvPublish syncCompleted []].

(** A write to storage or the publication of [syncCompleted] *)
Definition is_final (ev : Event) : bool :=
  match ev with
  | EvStorageWrite _ _ | EvPublish syncCompleted _ => true
  | _ => false
  end.

Definition is_register (ev : Event) : bool :=
  if ev is EvDevicesRegister then true else false.

Definition is_unregister (ev : Event) : bool :=
  if ev is EvDevicesUnregister then true else false.

(** The forced re-registration of [init] *)
Definition reregistering (isForceSync : option bool) : list Event :=
  if default false isForceSync
  then [EvDevicesUnregister; EvDevicesRegister] else [].

Definition not_registered : Exn := ErrorObj "Sync device not registered.".

(** Collaborators like [base], except for the sync gate, the user, the
    encryption key and the device registry *)
Definition session_env
    (status : History → SYNC_CHECK_IDS → Outcome bool)
    (user : History → Outcome (option User))
    (key : History → Outcome (option SerializedKey))
    (device : History → Outcome (option string))
    (base : Env) : Env := {|
  autoSync_start := @autoSync_start base;
  checkSyncStatus := status;
  user_getUser := user;
  user_getEncryptionKey := key;
  tokenManager_refreshToken := @tokenManager_refreshToken base;
  connection_state := @connection_state base;
  connection_start := @connection_start base;
  connection_stop := @connection_stop base;
  connection_send := @connection_send base;
  connection_invoke_PushItems := @connection_invoke_PushItems base;
  connection_invoke_RequestFetch := @connection_invoke_RequestFetch base;
  devices_get := device;
  devices_register := @devices_register base;
  devices_unregister := @devices_unregister base;
  vault_getKey := @vault_getKey base;
  vault_setKey := @vault_setKey base;
  attachments_pending_items := @attachments_pending_items base;
  fs_queueUploads := @fs_queueUploads base;
  collector_collect := @collector_collect base;
  storage_decryptMulti := @storage_decryptMulti base;
  storage_write := @storage_write base;
  Date_now := @Date_now base;
  migrateItem := @migrateItem base;
  merger_mergeContent := @merger_mergeContent base;
  merger_mergeItemAsync := @merger_mergeItemAsync base;
  merger_mergeItemSync := @merger_mergeItemSync base;
  collection_records := @collection_records base;
  collection_put := @collection_put base;
  monographs_refresh := @monographs_refresh base
|}.

(** A registry that knows the device only once it has been registered *)
Definition registered_on_demand : History → Outcome (option string) :=
  λ h, Returned (if existsb is_register h then Some "device-1" else None).

(** A registry in which registration has no effect *)
Definition never_registered : History → Outcome (option string) :=
  λ _, Returned (Some "").

Definition fresh_device_env : Env :=
  session_env (@checkSyncStatus quiet_env) (@user_getUser quiet_env)
    (@user_getEncryptionKey quiet_env) registered_on_demand quiet_env.

Definition unregistered_env : Env :=
  session_env (@checkSyncStatus quiet_env) (@user_getUser quiet_env)
    (@user_getEncryptionKey quiet_env) never_registered quiet_env.

Definition sync_disabled_env : Env :=
  session_env (λ _ _, Returned false) (@user_getUser quiet_env)
    (@user_getEncryptionKey quiet_env) (@devices_get quiet_env) quiet_env.

Definition logged_out_env : Env :=
  session_env (@checkSyncStatus quiet_env) (λ _, Returned None)
    (@user_getEncryptionKey quiet_env) (@devices_get quiet_env) quiet_env.

Definition full_options : SyncOptions :=
  {| sync_type := type_full; force := Some true |}.

Definition fetch_options : SyncOptions :=
  {| sync_type := type_fetch; force := None |}.

(** The calls [Sync.start] makes itself *)
Definition session_calls (ev : Event) : Prop :=
  match ev with
  | EvCheckSyncStatus _ | EvGetUser | EvConnectionOnClose | EvConnectionStop
  | EvMonographsRefresh | EvStorageWrite _ _ => True
  | EvLog level _ => level = Info
  | EvPublish event _ => event = syncCompleted
  | _ => False
  end.

(** The calls a run of [Sync.start] can make, by the type of the sync *)
Definition start_calls (options : SyncOptions) (ev : Event) : Prop :=
  session_calls ev ∨ init_calls ev
  ∨ (sync_type options ≠ type_send ∧ fetch_calls ev)
  ∨ (sync_type options ≠ type_fetch ∧ send_calls ev).

(** A callback that fails *)
Definition failing_callback : M unit := throw (ErrorObj "backup failed").

(** ** Batches and items *)

(** What is published on the event manager *)
Definition publish_of (ev : Event) : option (EVENTS * list JsValue) :=
  match ev with
  | EvPublish event args => Some (event, args)
  | _ => None
  end.

Definition publications (t : list Event) : list (EVENTS * list JsValue) :=
  omap publish_of t.

(** The batch types whose merged items are announced *)
Definition announced (itemType : string) : bool :=
  bool_decide (itemType = "note") || bool_decide (itemType = "content").

(** What [deserializeItem] throws on a payload that is not the text of
    an object *)
Definition parse_failure `{!Platform} (decryptedItem : string) : Exn :=
  match JSON_parse decryptedItem with
  | Raised e => e
  | Returned _ => TypeError
  end.

(** A platform whose parser also knows the text of [null] and of a tag
    without a title *)
Definition untitled_tag : list (string * string) :=
  [("id", "t2"); ("type", "tag")].

Definition lenient_platform : Platform := {|
  JSON_parse := λ text,
    if bool_decide (text = "null") then Returned JNull
    else if bool_decide (text = json_object untitled_tag)
         then Returned (JObj (object_of untitled_tag))
         else sample_JSON_parse text;
  toLowerCase := sample_toLowerCase;
  COLORS := @COLORS sample_platform;
  CURRENT_DATABASE_VERSION := 6%float;
  SYNC_COLLECTIONS_MAP := @SYNC_COLLECTIONS_MAP sample_platform
|}.

(** A migration that marks every item as changed *)
Definition always_changed : JsValue → MigrationResult := λ _, changed true.

Definition migrating_env : Env :=
  sample_env always_connected connects_at_once GenDone acknowledges
    nothing_to_fetch always_changed.

(** A batch with one payload that is no JSON text: the page of a
    proxy in the place of the item. [JSON.parse] throws a [SyntaxError]
    on it. *)
Definition garbled_payload : string := "<html>502 Bad Gateway</html>".

Definition garbled_item : SyncItem := {|
  item_id := "g1";
  item_v := 6%float;
  item_cipher := {| cipher := Some garbled_payload; iv := Some "iv";
                    salt := Some "salt"; cipher_length := 1%float |}
|}.

Definition garbled_batch : SyncTransferItem :=
  {| items := [sync_item plain_note; garbled_item]; type := "note" |}.

(** ** Fetching and progress *)

(** The calls [processChunk] can make *)
Definition merge_calls (ev : Event) : Prop :=
  match ev with
  | EvDecryptMulti _ _ | EvMigrateItem _ _ _ _ | EvMergeContent _ _
  | EvMergeItemAsync _ _ _ | EvMergeItemSync _ _ _ | EvRecords _ _
  | EvPut _ _ => True
  | EvPublish event _ => event = syncItemMerged
  | _ => False
  end.

(** The calls the [SendItems] handler can make *)
Definition chunk_calls (ev : Event) : Prop :=
  merge_calls ev ∨ ∃ count, ev = EvSyncProgress "download" count.

(** The counts reported as upload progress *)
Definition upload_of (ev : Event) : option nat :=
  match ev with
  | EvSyncProgress direction count =>
      if bool_decide (direction = "upload") then Some count else None
  | _ => None
  end.

Definition uploads (t : list Event) : list nat := omap upload_of t.

(** A list of counts that starts at [n] or above and never decreases *)
Fixpoint increasing_from (n : nat) (counts : list nat) : Prop :=
  match counts with
  | [] => True
  | m :: counts' => n ≤ m ∧ increasing_from m counts'
  end.

Definition is_setKey (ev : Event) : bool :=
  if ev is EvVaultSetKey _ then true else false.

Definition is_expired (ev : Event) : bool :=
  if ev is EvPublish userSessionExpired _ then true else false.

(** A vault key as [fetch] accepts it from the server *)
Definition complete (vaultKey : Cipher) : Prop :=
  is_Some (cipher vaultKey) ∧ is_Some (iv vaultKey)
  ∧ is_Some (salt vaultKey)
  ∧ PrimFloat.ltb 0 (cipher_length vaultKey) = true.

(** The three calls of a fetch that finds no usable key *)
Definition expiring : list Event :=
  [EvGetEncryptionKey;
   EvLog Error "User encryption key not generated. Please relogin.";
   EvPublish userSessionExpired []].

(** Scenarios for the vault key and the encryption key *)
Definition server_key : Cipher :=
  {| cipher := Some "dmF1bHQ"; iv := Some "aXY"; salt := Some "c2FsdA";
     cipher_length := 7%float |}.

Definition key_follows : FetchStream :=
  FetchSendItems (batch_of "note" [plain_note])
    (λ _, FetchCompleted (Returned {| vaultKey := Some server_key |})).

Definition vault_env : Env :=
  sample_env always_connected connects_at_once GenDone acknowledges
    key_follows up_to_date.

Definition saltless_key : History → Outcome (option SerializedKey) :=
  λ _, Returned (Some {| serialized_key := Some "a2V5";
                         serialized_salt := Some "" |}).

Definition keyless_env : Env :=
  session_env (@checkSyncStatus quiet_env) (@user_getUser quiet_env)
    saltless_key (@devices_get quiet_env) quiet_env.

(** Two batches to push, the first of which the server refuses *)
Definition refuses_first : History → SyncTransferItem → Outcome JsValue :=
  λ h _, Returned (JNum (if bool_decide (count_if (invoked "PushItems") h = 0)
                         then 0%float else 1%float)).

Definition two_pushes_env : Env :=
  sample_env always_connected connects_at_once
    (GenYield (batch_of "note" [plain_note])
       (λ _, GenYield (batch_of "note" [plain_note; plain_note])
               (λ _, GenDone)))
    refuses_first nothing_to_fetch up_to_date.

(** ** Further scenarios *)

(** A text without line feeds and carriage returns *)
Definition single_line (text : string) : Prop :=
  Forall (λ c, c ≠ "010"%char ∧ c ≠ "013"%char) (String.list_ascii_of_string text).

(** A connect attempt rejected with a value that is no [Error] *)
Definition rejects_with_a_string : History → Promise unit :=
  λ _, Settles 5 (Raised NonError).

Definition odd_rejection_env : Env :=
  sample_env never_reachable rejects_with_a_string GenDone acknowledges
    nothing_to_fetch up_to_date.

(** A connection that is made at the first attempt *)
Definition reconnecting_env : Env :=
  sample_env never_reachable connects_at_once GenDone acknowledges
    nothing_to_fetch up_to_date.

(** A sync gate that throws a value that is no [Error] *)
Definition odd_status_env : Env :=
  session_env (λ _ _, Raised NonError) (@user_getUser quiet_env)
    (@user_getEncryptionKey quiet_env) (@devices_get quiet_env) quiet_env.

(** A server message of two lines *)
Definition two_line_message : string :=
  "Error: HubException: Invalid token." +:+ LF +:+ "   at Hub.Push()".

(** ** The two components *)

(** Sample collaborators of the two components *)
Definition known_tags : JsValue → JsValue :=
  λ id,
    if is_string id "t1" then JObj (object_of tag_red)
    else if is_string id "t3"
         then JObj (object_of [("id", "t3"); ("title", "work")])
         else JUndefined.

Definition sorted_by_title : ListEnv := {|
  tags_tag := known_tags;
  db_settings := Some (λ _, JObj (object_of [("sortBy", "title")]))
|}.

Definition tagged_note : ListItem := {|
  item_fields := object_of plain_note;
  item_tags := Some [JStr "t1"; JStr "t2"; JStr "t3"; JStr "t1"]
|}.

Definition agreeable : ToggleEnv := {|
  cleaned_contents := λ _ editor,
    Returned (JObj (object_of [("ops", if editor is SelectedEditor
                                       then "mine" else "theirs")]));
  notes_add := λ _ _, Returned tt;
  notestore_refresh := λ _, Returned tt;
  setHashParam := λ _ _, Returned tt;
  onToggle := λ _, Returned tt;
  Number_toString := λ _, "0"
|}.

Definition other_selected : ToggleProps := {|
  isSelected := false;
  isOtherSelected := true;
  conflicted_note := object_of plain_note
|}.

(** Vocabulary of the two components *)
Definition is_add (ev : UiEvent) : bool :=
  if ev is UiNotesAdd _ then true else false.

Definition is_toggle (ev : UiEvent) : bool :=
  if ev is UiToggle then true else false.

Definition ui_count (p : UiEvent → bool) (t : list UiEvent) : nat :=
  length (List.filter p t).

(** The fields the copy does not take from the note *)
Definition overwritten : list string :=
  ["title"; "conflicted"; "dateEdited"; "dateCreated"; "id"; "content"].

(** * Properties *)

(** ** Reasoning about runs *)

Lemma bind_inv {A B} (m : M A) (f : A → M B) h r t :
  bind m f h = (r, t) →
  (∃ e, m h = (Raised e, t) ∧ r = Raised e)
  ∨ (∃ a t1 t2, m h = (Returned a, t1) ∧ f a (h ++ t1) = (r, t2)
                ∧ t = t1 ++ t2).
Proof.
  unfold bind. destruct (m h) as [[a|e] t1]; intros H.
  - right. destruct (f a (h ++ t1)) as [r2 t2] eqn:Hf.
    inversion H; subst. eauto 6.
  - left. inversion H; subst. eauto.
Qed.

Lemma bind_Returned {A B} (m : M A) (f : A → M B) h b t :
  bind m f h = (Returned b, t) →
  ∃ a t1 t2, m h = (Returned a, t1) ∧ f a (h ++ t1) = (Returned b, t2)
             ∧ t = t1 ++ t2.
Proof.
  intros H. apply bind_inv in H as [(e & _ & ?)|?]; [discriminate|done].
Qed.

Lemma bind_run {A B} (m : M A) (f : A → M B) h a t1 :
  m h = (Returned a, t1) →
  bind m f h = (let '(r, t2) := f a (h ++ t1) in (r, t1 ++ t2)).
Proof. unfold bind. by intros ->. Qed.

Lemma bind_ret {A B} (a : A) (f : A → M B) h : bind (ret a) f h = f a h.
Proof. unfold bind, ret. rewrite app_nil_r. by destruct (f a h). Qed.

Lemma bind_lift_Returned {A B} (a : A) (f : A → M B) h :
  bind (lift (Returned a)) f h = f a h.
Proof. apply bind_ret. Qed.

Lemma bind_lift_Raised {A B} e (f : A → M B) h :
  bind (lift (Raised e)) f h = (Raised e, []).
Proof. done. Qed.

Lemma lift_run {A} (o : Outcome A) h : lift o h = (o, []).
Proof. done. Qed.

Lemma bind_read {A B} (g : History → A) (f : A → M B) h :
  bind (read g) f h = f (g h) h.
Proof. unfold read. apply (bind_ret (g h)). Qed.

Lemma bind_emit {B} ev (f : unit → M B) h :
  bind (emit ev) f h = (let '(r, t) := f tt (h ++ [ev]) in (r, ev :: t)).
Proof. done. Qed.

Lemma bind_call {A B} ev (reply : History → Outcome A) (f : A → M B) h :
  bind (call ev reply) f h =
    match reply h with
    | Returned a => let '(r, t) := f a (h ++ [ev]) in (r, ev :: t)
    | Raised e => (Raised e, [ev])
    end.
Proof. unfold bind, call. by destruct (reply h). Qed.

Lemma bind_assoc {A B C} (m : M A) (f : A → M B) (g : B → M C) h :
  bind (bind m f) g h = bind m (λ a, bind (f a) g) h.
Proof.
  unfold bind. destruct (m h) as [[a|e] t1]; [|done].
  destruct (f a (h ++ t1)) as [[b|e] t2]; [|done].
  rewrite <- app_assoc. destruct (g b (h ++ t1 ++ t2)) as [r t3].
  by rewrite app_assoc.
Qed.

Lemma emits_ret {A} P (a : A) : emits P (ret a).
Proof. intros h r t [= <- <-]. constructor. Qed.

Lemma emits_throw {A} P e : emits P (@throw A e).
Proof. intros h r t [= <- <-]. constructor. Qed.

Lemma emits_lift {A} P (o : Outcome A) : emits P (lift o).
Proof. intros h r t [= <- <-]. constructor. Qed.

Lemma emits_read {A} P (g : History → A) : emits P (read g).
Proof. intros h r t [= <- <-]. constructor. Qed.

Lemma emits_emit (P : Event → Prop) ev : P ev → emits P (emit ev).
Proof. intros ? h r t [= <- <-]. by repeat constructor. Qed.

Lemma emits_call {A} (P : Event → Prop) ev (reply : History → Outcome A) :
  P ev → emits P (call ev reply).
Proof. intros ? h r t [= <- <-]. by repeat constructor. Qed.

Lemma emits_bind {A B} P (m : M A) (f : A → M B) :
  emits P m → (∀ a, emits P (f a)) → emits P (bind m f).
Proof.
  intros Hm Hf h r t [(e & H1 & _)|(a & t1 & t2 & H1 & H2 & ->)]%bind_inv.
  - by eapply Hm.
  - apply Forall_app. split; [by eapply Hm | by eapply Hf].
Qed.

Lemma emits_try_catch {A} P (m : M A) (handler : Exn → M A) :
  emits P m → (∀ e, emits P (handler e)) → emits P (try_catch m handler).
Proof.
  intros Hm Hh h r t. unfold try_catch.
  destruct (m h) as [[a|e] t1] eqn:H1.
  - intros [= <- <-]. by eapply Hm.
  - destruct (handler e (h ++ t1)) as [r2 t2] eqn:H2. intros [= <- <-].
    apply Forall_app. split; [by eapply Hm | by eapply Hh].
Qed.

Lemma emits_attempt {A} P (m : M A) : emits P m → emits P (attempt m).
Proof.
  intros Hm h r t. unfold attempt. destruct (m h) as [r1 t1] eqn:H1.
  intros [= <- <-]. by eapply Hm.
Qed.

Lemma emits_if {A} P (b : bool) (m1 m2 : M A) :
  emits P m1 → emits P m2 → emits P (if b then m1 else m2).
Proof. by destruct b. Qed.

Lemma emits_mapM {A B} P (f : nat → A → M B) index xs :
  (∀ i x, emits P (f i x)) → emits P (mapM f index xs).
Proof.
  intros Hf. revert index.
  induction xs as [|x xs IH]; intros index; simpl.
  - apply emits_ret.
  - apply emits_bind; [done|]. intros y.
    apply emits_bind; [done|]. intros ys. apply emits_ret.
Qed.

Lemma emits_forEach {A} P (f : A → M unit) xs :
  (∀ x, emits P (f x)) → emits P (forEach f xs).
Proof.
  intros Hf. induction xs as [|x xs IH]; simpl.
  - apply emits_ret.
  - by apply emits_bind.
Qed.

Lemma emits_weaken {A} (P Q : Event → Prop) (m : M A) :
  (∀ ev, P ev → Q ev) → emits P m → emits Q m.
Proof. intros HPQ Hm h r t Hrun. eapply Forall_impl; [by eapply Hm|done]. Qed.

Ltac emits_step :=
  first
    [ apply emits_ret | apply emits_throw | apply emits_lift
    | apply emits_read | apply emits_emit | apply emits_call
    | apply emits_bind | apply emits_try_catch | apply emits_attempt
    | apply emits_mapM | apply emits_forEach
    | match goal with
      | |- emits _ (match ?x with _ => _ end) => destruct x
      | |- emits _ (let '(_, _) := ?x in _) => destruct x
      | |- emits _ (if ?b then _ else _) => destruct b
      | |- ∀ _, _ => intro
      end ].

Lemma mapM_length {A B} (f : nat → A → M B) index xs h ys t :
  mapM f index xs h = (Returned ys, t) → length ys = length xs.
Proof.
  revert index h ys t. induction xs as [|x xs IH]; intros index h ys t; simpl.
  - by intros [= <- <-].
  - intros (y & t1 & t2 & H1 & H2 & ->)%bind_Returned.
    apply bind_Returned in H2 as (ys' & t3 & t4 & H3 & [= <- <-] & ->).
    simpl. f_equal. by eapply IH.
Qed.

(** A [map] of calls that all return: one event per element, in order. *)
Lemma mapM_call_trace {A B} (ev : A → Event)
    (reply : A → History → Outcome B) index xs h ys t :
  mapM (λ _ x, call (ev x) (reply x)) index xs h = (Returned ys, t) →
  t = ev <$> xs.
Proof.
  revert index h ys t. induction xs as [|x xs IH]; intros index h ys t; simpl.
  - by intros [= <- <-].
  - intros (y & t1 & t2 & H1 & H2 & ->)%bind_Returned.
    apply bind_Returned in H2 as (ys' & t3 & t4 & H3 & [= <- <-] & ->).
    unfold call in H1. injection H1 as _ <-.
    rewrite app_nil_r. simpl. f_equal. by eapply IH.
Qed.

Lemma mapM_Forall {A B} (Post : B → Prop) (f : nat → A → M B) index xs h ys t :
  (∀ i x h y t, f i x h = (Returned y, t) → Post y) →
  mapM f index xs h = (Returned ys, t) → Forall Post ys.
Proof.
  intros Hf. revert index h ys t.
  induction xs as [|x xs IH]; intros index h ys t; simpl.
  - intros [= <- <-]. constructor.
  - intros (y & t1 & t2 & H1 & H2 & ->)%bind_Returned.
    apply bind_Returned in H2 as (ys' & t3 & t4 & H3 & [= <- <-] & ->).
    constructor; [by eapply Hf | by eapply IH].
Qed.

(** A [map] of calls, however it ends: every event is the call for one
    of the elements. *)
Lemma mapM_call_events {A B} (ev : A → Event)
    (reply : A → History → Outcome B) index xs :
  emits (λ e, ∃ x, x ∈ xs ∧ e = ev x)
    (mapM (λ _ x, call (ev x) (reply x)) index xs).
Proof.
  revert index. induction xs as [|x xs IH]; intros index; simpl.
  - apply emits_ret.
  - apply emits_bind.
    + apply emits_call. exists x. split; [left|done].
    + intros y. apply emits_bind; [|intros; apply emits_ret].
      eapply emits_weaken; [|apply IH].
      intros e (x' & Hx' & ->). exists x'. split; [by right|done].
Qed.

(** Every element of a [map] that returned was processed, at its own
    index. *)
Lemma mapM_lookup {A B} (f : nat → A → M B) index xs h ys t j x :
  mapM f index xs h = (Returned ys, t) →
  xs !! j = Some x →
  ∃ h' y t', f (index + j) x h' = (Returned y, t').
Proof.
  revert index h ys t j.
  induction xs as [|x0 xs IH]; intros index h ys t j; simpl; [done|].
  intros (y & t1 & t2 & H1 & H2 & ->)%bind_Returned.
  apply bind_Returned in H2 as (ys' & t3 & t4 & H3 & _ & _).
  destruct j as [|j]; simpl.
  - intros [= ->]. rewrite Nat.add_0_r. eauto.
  - intros Hj. replace (index + S j) with (S index + j) by lia.
    by eapply IH.
Qed.

Lemma get_insert_eq (item : Item) k x : get (<[k := x]> item) k = x.
Proof. unfold get. by rewrite lookup_insert_eq. Qed.

Lemma get_insert_ne (item : Item) k k' x :
  k ≠ k' → get (<[k := x]> item) k' = get item k'.
Proof. intros. unfold get. by rewrite lookup_insert_ne. Qed.

Lemma stamped_get o k :
  k ≠ "synced" → k ≠ "remote" → get (stamped o) k = get o k.
Proof. intros. unfold stamped. by rewrite !get_insert_ne. Qed.

(** *** Facts about traces *)

Lemma count_if_app p t1 t2 :
  count_if p (t1 ++ t2) = count_if p t1 + count_if p t2.
Proof. unfold count_if. by rewrite List.filter_app, length_app. Qed.

Lemma count_if_elem p t ev : ev ∈ t → p ev = true → 0 < count_if p t.
Proof.
  intros Hin Hp. unfold count_if.
  induction Hin as [ev t|ev ev' t _ IH]; cbn [List.filter].
  - rewrite Hp. cbn [length]. lia.
  - specialize (IH Hp). destruct (p ev'); cbn [length]; lia.
Qed.

Lemma count_if_none p (P : Event → Prop) t :
  (∀ ev, P ev → p ev = false) → Forall P t → count_if p t = 0.
Proof.
  intros Hp. unfold count_if.
  induction 1 as [|ev t Hev _ IH]; [done|]. simpl. by rewrite (Hp ev Hev).
Qed.

Lemma registered_app method n t1 t2 :
  registered method n (t1 ++ t2)
  = registered method (registered method n t1) t2.
Proof.
  revert n. induction t1 as [|ev t1 IH]; intros n; [done|].
  by destruct ev; simpl; rewrite IH.
Qed.

Lemma registered_quiet method n t :
  Forall (λ ev, handler_event method ev = false) t →
  registered method n t = n.
Proof.
  induction 1 as [|ev t Hev _ IH]; [done|].
  destruct ev; simpl in *; try done; by rewrite Hev.
Qed.

Lemma omap_None_Forall {A} (f : Event → option A) (P : Event → Prop) t :
  (∀ ev, P ev → f ev = None) → Forall P t → omap f t = [].
Proof.
  intros Hf. induction 1 as [|ev t Hev _ IH]; [done|].
  simpl. by rewrite (Hf ev Hev).
Qed.

Lemma merge_trace_remotes (ev : Item → Event) l :
  (∀ x, merged_remote (ev x) = Some x) → merged_remotes (ev <$> l) = l.
Proof.
  intros Hev. unfold merged_remotes.
  induction l as [|x l IH]; [done|]. simpl. rewrite Hev. f_equal. exact IH.
Qed.

Lemma merge_trace_puts (ev : Item → Event) l :
  (∀ x, put_of (ev x) = None) → puts (ev <$> l) = [].
Proof.
  intros Hev. unfold puts.
  induction l as [|x l IH]; [done|]. simpl. rewrite Hev. exact IH.
Qed.

Section Deserialize.

Context `{!Platform, !Env}.

Lemma deserializeItem_cipher_run decryptedItem version h o :
  JSON_parse decryptedItem = Returned (JObj o) →
  truthy (get o "cipher") = true →
  deserializeItem decryptedItem version h = (Returned (Some (stamped o)), []).
Proof.
  intros Hparse Hcipher.
  unfold deserializeItem. rewrite Hparse, bind_lift_Returned.
  simpl assign. rewrite bind_lift_Returned.
  fold (stamped o). rewrite stamped_get by done. by rewrite Hcipher.
Qed.

(** What the run does up to the end of the first migration pass *)
Lemma deserializeItem_first_pass decryptedItem version h o :
  JSON_parse decryptedItem = Returned (JObj o) →
  truthy (get o "cipher") = false →
  deserializeItem decryptedItem version h =
    match migrateItem h (stamped o) version CURRENT_DATABASE_VERSION
            (get o "type") sync_migration with
    | Raised e => (Raised e, [first_pass o version])
    | Returned (skip, _) => (Returned None, [first_pass o version])
    | Returned (changed b, item) =>
        if trash_wrapped item then
          match migrateItem (h ++ [first_pass o version]) item version
                  CURRENT_DATABASE_VERSION (get item "itemType")
                  backup_migration with
          | Raised e =>
              (Raised e, [first_pass o version; second_pass item version])
          | Returned (skip, _) =>
              (Returned None,
               [first_pass o version; second_pass item version])
          | Returned (changed b', item') =>
              let '(r, t) :=
                resolve_and_stamp (changed b') item'
                  (h ++ [first_pass o version; second_pass item version]) in
              (r, [first_pass o version; second_pass item version] ++ t)
          end
        else
          let '(r, t) :=
            resolve_and_stamp (changed b) item
              (h ++ [first_pass o version]) in
          (r, first_pass o version :: t)
    end.
Proof.
  intros Hparse Hcipher.
  unfold deserializeItem. rewrite Hparse, bind_lift_Returned.
  simpl assign. rewrite bind_lift_Returned.
  fold (stamped o). rewrite !stamped_get by done. rewrite Hcipher.
  cbn [negb].
  unfold call_migrateItem. rewrite bind_call. fold (first_pass o version).
  destruct (migrateItem h _ _ _ _ _) as [[[|b] item]|e]; [done| |done].
  fold (trash_wrapped item). destruct (trash_wrapped item).
  - rewrite bind_call. fold (second_pass item version).
    destruct (migrateItem _ _ _ _ _ _) as [[[|b'] item']|e]; try done.
    rewrite <- app_assoc. simpl.
    by destruct (resolve_and_stamp _ _ _).
  - done.
Qed.

Lemma resolve_and_stamp_run migrationResult item h :
  resolve_and_stamp migrationResult item h =
    match itemType_of item with
    | Raised e => (Raised e, [])
    | Returned itemType =>
        if is_dropped_type itemType then (Returned None, [])
        else (Returned
                (Some (if migrationResult_truthy migrationResult
                       then <["synced" := JBool false]> item else item)),
              [])
    end.
Proof.
  unfold resolve_and_stamp.
  destruct (itemType_of item) as [itemType|e]; [|done].
  rewrite bind_lift_Returned. by destruct (is_dropped_type itemType).
Qed.

(** A plaintext item whose main migration pass answers ["skip"] is
    dropped; for an item that the main pass leaves trash-typed with an
    inner type, the second pass runs after it on the inner type, and if
    that one answers ["skip"] the item is dropped as well. *)
Lemma deserializeItem_skip decryptedItem version h o :
  JSON_parse decryptedItem = Returned (JObj o) →
  truthy (get o "cipher") = false →
  (∀ item1,
     migrateItem h (stamped o) version CURRENT_DATABASE_VERSION
       (get o "type") sync_migration = Returned (skip, item1) →
     deserializeItem decryptedItem version h
     = (Returned None, [first_pass o version]))
  ∧ (∀ b item1,
       migrateItem h (stamped o) version CURRENT_DATABASE_VERSION
         (get o "type") sync_migration = Returned (changed b, item1) →
       trash_wrapped item1 = true →
       (∃ r t,
          deserializeItem decryptedItem version h
          = (r, first_pass o version :: second_pass item1 version :: t))
       ∧ (∀ item2,
            migrateItem (h ++ [first_pass o version]) item1 version
              CURRENT_DATABASE_VERSION (get item1 "itemType")
              backup_migration = Returned (skip, item2) →
            deserializeItem decryptedItem version h
            = (Returned None,
               [first_pass o version; second_pass item1 version]))).
Proof.
  intros Hparse Hcipher.
  pose proof (deserializeItem_first_pass _ version h _ Hparse Hcipher) as Hrun.
  split.
  - intros item1 H1. by rewrite Hrun, H1.
  - intros b item1 H1 Htrash. rewrite Hrun, H1, Htrash. split.
    + destruct (migrateItem _ item1 _ _ _ _) as [[[|b'] item2]|e]; eauto.
      destruct (resolve_and_stamp _ _ _) as [r t]. eauto.
    + by intros item2 ->.
Qed.

(** The whole plaintext branch *)
Lemma deserializeItem_plaintext_run decryptedItem version h o :
  JSON_parse decryptedItem = Returned (JObj o) →
  truthy (get o "cipher") = false →
  deserializeItem decryptedItem version h =
    (match (migrated h o version).1 with
     | Raised e => Raised e
     | Returned (skip, _) => Returned None
     | Returned (changed b, item) =>
         match itemType_of item with
         | Raised e => Raised e
         | Returned itemType =>
             if is_dropped_type itemType then Returned None
             else Returned
                    (Some (if b then <["synced" := JBool false]> item
                           else item))
         end
     end, (migrated h o version).2).
Proof.
  intros Hparse Hcipher.
  rewrite (deserializeItem_first_pass _ _ _ _ Hparse Hcipher).
  unfold migrated.
  destruct (migrateItem h _ _ _ _ _) as [[[|b] item]|e]; [done| |done].
  destruct (trash_wrapped item).
  - destruct (migrateItem _ _ _ _ _ _) as [[[|b'] item']|e]; [done| |done].
    rewrite resolve_and_stamp_run. simpl.
    destruct (itemType_of item') as [itemType|e]; [|done].
    by destruct (is_dropped_type itemType).
  - rewrite resolve_and_stamp_run. simpl.
    destruct (itemType_of item) as [itemType|e]; [|done].
    by destruct (is_dropped_type itemType).
Qed.

Lemma has_insert_ne (item : Item) k k' x :
  k ≠ k' → has (<[k := x]> item) k' = has item k'.
Proof. intros. unfold has. by rewrite lookup_insert_ne. Qed.

(** The resolved type does not depend on the [synced] stamp. *)
Lemma itemType_of_synced item x :
  itemType_of (<["synced" := x]> item) = itemType_of item.
Proof.
  unfold itemType_of.
  by rewrite !get_insert_ne, has_insert_ne.
Qed.

Lemma deserializeItem_survivor decryptedItem version h item t :
  deserializeItem decryptedItem version h = (Returned (Some item), t) →
  resolved_or_cipher item.
Proof.
  intros Hrun.
  destruct (JSON_parse decryptedItem) as [parsed|e] eqn:Hparse.
  2: { unfold deserializeItem in Hrun.
       by rewrite Hparse, bind_lift_Raised in Hrun. }
  destruct parsed as [| | | | |o].
  1-5: unfold deserializeItem in Hrun;
       by rewrite Hparse, bind_lift_Returned in Hrun.
  destruct (truthy (get o "cipher")) eqn:Hcipher.
  - rewrite (deserializeItem_cipher_run _ _ _ _ Hparse Hcipher) in Hrun.
    injection Hrun as <- <-. left. by rewrite stamped_get.
  - rewrite (deserializeItem_plaintext_run _ _ _ _ Hparse Hcipher) in Hrun.
    destruct (migrated h o version).1 as [[[|b] item']|e]; try done.
    destruct (itemType_of item') as [itemType|e] eqn:Hty; [|done].
    destruct (is_dropped_type itemType) eqn:Hdrop; [done|].
    injection Hrun as <- <-. right. exists itemType. split; [|done].
    destruct b; [by rewrite itemType_of_synced|done].
Qed.

Lemma deserializeItem_emits decryptedItem version :
  emits is_migration (deserializeItem decryptedItem version).
Proof.
  unfold deserializeItem, resolve_and_stamp, call_migrateItem.
  repeat emits_step; done.
Qed.

(** What a run of [processChunk] that returns has done: the payloads
    were decrypted and deserialized one after the other, the items that
    deserialization returned (and only those) went to the merger in
    order, and one batch was written, with one entry per merged item. *)
Lemma processChunk_persists chunk key h tr :
  processChunk chunk key h = (Returned tt, tr) →
  type chunk ≠ "settings" →
  ∃ decrypted results t_des collection merged,
    storage_decryptMulti h key (items chunk) = Returned decrypted
    ∧ mapM (λ index item,
              do version <- lift (version_at chunk index);
              deserializeItem item version) 0 decrypted
        (h ++ [EvDecryptMulti key (items chunk)]) = (Returned results, t_des)
    ∧ collection_of (type chunk) = Returned collection
    ∧ merged_remotes tr = filter_Boolean results
    ∧ puts tr = [(collection, merged)]
    ∧ length merged = length (filter_Boolean results).
Proof.
  intros Hrun Hsettings. unfold processChunk in Hrun.
  rewrite bool_decide_false in Hrun by done.
  rewrite bind_call in Hrun.
  destruct (storage_decryptMulti h key (items chunk)) as [decrypted|e];
    [|done].
  match type of Hrun with (let '(_, _) := ?m in _) = _ =>
    destruct m as [r t] eqn:Hrest end.
  injection Hrun as -> <-.
  apply bind_Returned in Hrest as (results & t_des & t2 & Hdes & Hrest & ->).
  apply bind_Returned in Hrest as (collection & t3 & t4 & Hcoll & Hrest & ->).
  injection Hcoll as Hcoll <-.
  apply bind_Returned in Hrest as (localItems & t5 & t6 & Hrec & Hrest & ->).
  injection Hrec as _ <-.
  apply bind_Returned in Hrest as (merged & t_merge & t7 & Hmerge & Hrest & ->).
  apply bind_Returned in Hrest as ([] & t_pub & t8 & Hpub & Hput & ->).
  injection Hput as _ <-.
  assert (Forall is_migration t_des) as Hdes_ev.
  { eapply (emits_mapM is_migration); [|exact Hdes].
    intros i x. apply emits_bind; [apply emits_lift|].
    intros version. apply deserializeItem_emits. }
  assert (Forall is_publish t_pub) as Hpub_ev.
  { revert Hpub. apply (emits_if is_publish); [|apply emits_ret].
    apply emits_forEach. intros x. by apply emits_emit. }
  assert (merged_remotes t_merge = filter_Boolean results
          ∧ puts t_merge = [] ∧ length merged = length (filter_Boolean results))
    as (Hm1 & Hm2 & Hm3).
  { repeat case_bool_decide.
    all: pose proof (mapM_length _ _ _ _ _ _ Hmerge) as Hlen.
    all: apply mapM_call_trace in Hmerge as ->.
    all: split_and!; [by apply merge_trace_remotes|by apply merge_trace_puts|done]. }
  exists decrypted, results, t_des, collection, merged.
  split_and!; try done.
  - unfold merged_remotes in *.
    repeat (rewrite ?omap_app; cbn [omap list_omap merged_remote app]).
    rewrite Hm1, (omap_None_Forall _ is_migration t_des),
      (omap_None_Forall _ is_publish t_pub); try done.
    + by rewrite app_nil_r.
    + by intros [].
    + by intros [].
  - unfold puts in *.
    repeat (rewrite ?omap_app; cbn [omap list_omap put_of app]).
    rewrite Hm2, (omap_None_Forall _ is_migration t_des),
      (omap_None_Forall _ is_publish t_pub); try done.
    + by intros [].
    + by intros [].
Qed.

Lemma filter_Boolean_elem (results : list (option Item)) item :
  item ∈ filter_Boolean results ↔ Some item ∈ results.
Proof.
  unfold filter_Boolean. rewrite list_elem_of_omap. split.
  - by intros (x & Hx & ->).
  - intros. by exists (Some item).
Qed.

(** Whatever a run of [processChunk] does and however it ends, a remote
    item reaches the merger only after it has come out of
    deserialization. *)
Lemma processChunk_merge_inputs chunk key h r tr :
  processChunk chunk key h = (r, tr) →
  Forall resolved_or_cipher (merged_remotes tr).
Proof.
  unfold processChunk. case_bool_decide as Hsettings.
  { intros [= <- <-]. constructor. }
  rewrite bind_call.
  destruct (storage_decryptMulti h key (items chunk)) as [decrypted|e].
  2: { intros [= <- <-]. constructor. }
  match goal with |- (let '(_, _) := ?m in _) = _ → _ =>
    destruct m as [r' t] eqn:Hrest end.
  intros [= <- <-].
  assert (Forall resolved_or_cipher (merged_remotes t)) as Ht; [|done].
  assert (∀ t_des, Forall is_migration t_des → merged_remotes t_des = [])
    as Hdes_ev.
  { intros t_des. apply omap_None_Forall. by intros []. }
  assert (∀ results r t_des,
            mapM (λ index item,
                    do version <- lift (version_at chunk index);
                    deserializeItem item version) 0 decrypted
              (h ++ [EvDecryptMulti key (items chunk)]) = (r, t_des) →
            Forall is_migration t_des
            ∧ (r = Returned results →
               Forall resolved_or_cipher (filter_Boolean results)))
    as Hdes.
  { intros results r0 t_des Hdes. split.
    - eapply (emits_mapM is_migration); [|exact Hdes].
      intros i x. apply emits_bind; [apply emits_lift|].
      intros version. apply deserializeItem_emits.
    - intros ->. apply Forall_forall. intros item Hitem%filter_Boolean_elem.
      eapply (mapM_Forall (λ res, ∀ item, res = Some item
                                          → resolved_or_cipher item))
        in Hdes.
      + rewrite Forall_forall in Hdes. by eapply Hdes.
      + intros i x h' y t' Hone item' ->.
        apply bind_Returned in Hone as (version & ? & ? & _ & Hone & _).
        by eapply deserializeItem_survivor. }
  apply bind_inv in Hrest
    as [(e & H1 & _)|(results & t_des & t2 & H1 & Hrest & ->)].
  { apply (Hdes []) in H1 as [H1 _]. rewrite (Hdes_ev _ H1). constructor. }
  apply (Hdes results) in H1 as [Hmig Hres]. specialize (Hres eq_refl).
  unfold merged_remotes. rewrite omap_app.
  fold (merged_remotes t_des). rewrite (Hdes_ev _ Hmig), app_nil_l.
  apply bind_inv in Hrest
    as [(e & H1 & _)|(collection & t3 & t4 & H1 & Hrest & ->)].
  { injection H1 as _ <-. constructor. }
  injection H1 as _ <-. rewrite app_nil_l.
  rewrite bind_call in Hrest.
  destruct (collection_records _ _ _) as [localItems|e].
  2: { injection Hrest as _ <-. constructor. }
  match type of Hrest with (let '(_, _) := ?m in _) = _ =>
    destruct m as [r'' t5] eqn:Hrest' end.
  injection Hrest as _ <-. cbn [omap list_omap merged_remote].
  assert (∀ t_merge,
            Forall (λ e, ∃ x, x ∈ filter_Boolean results
                              ∧ merged_remote e = Some x) t_merge →
            Forall resolved_or_cipher (omap merged_remote t_merge))
    as Hmerge_ev.
  { intros t_merge Hall. apply Forall_forall.
    intros x (e & He & Hx)%list_elem_of_omap.
    rewrite Forall_forall in Hall. rewrite Forall_forall in Hres.
    destruct (Hall e He) as (x' & Hx' & Heq).
    rewrite Heq in Hx. injection Hx as <-. by apply Hres. }
  apply bind_inv in Hrest'
    as [(e & H1 & _)|(merged & t_merge & t6 & H1 & Hrest' & ->)].
  { apply Hmerge_ev. repeat case_bool_decide.
    all: apply mapM_call_events in H1.
    all: eapply Forall_impl; [exact H1|].
    all: by intros ? (x & ? & ->); exists x. }
  rewrite omap_app. apply Forall_app. split.
  { apply Hmerge_ev. repeat case_bool_decide.
    all: apply mapM_call_events in H1.
    all: eapply Forall_impl; [exact H1|].
    all: by intros ? (x & ? & ->); exists x. }
  assert (Forall (λ e, is_publish e ∨ ∃ c l, e = EvPut c l) t6) as Hrest_ev.
  { revert Hrest'. apply emits_bind.
    - apply emits_if; [|apply emits_ret].
      apply emits_forEach. intros x. apply emits_emit. by left.
    - intros _. apply emits_call. right. eauto. }
  erewrite omap_None_Forall; [constructor| |exact Hrest_ev].
  intros ev [Hev|(c & l & ->)]; [by destruct ev|done].
Qed.

End Deserialize.

(** ** [Sync.send] *)

Section Send.

Context `{!Env}.

Lemma checkConnection_emits (P : Event → Prop) :
  P EvConnectionStop → P EvConnectionStart →
  (∀ e, P (EvConsoleError e)) → (∀ message, P (EvLog Warn message)) →
  emits P checkConnection.
Proof.
  intros. unfold checkConnection. repeat emits_step; done.
Qed.

Lemma checkConnection_no_push : emits no_push checkConnection.
Proof. by apply checkConnection_emits. Qed.

Lemma uploadAttachments_no_push : emits no_push uploadAttachments.
Proof. unfold uploadAttachments. repeat emits_step; done. Qed.

Lemma pushItem_no_push_session deviceId item :
  emits no_push_session (pushItem deviceId item).
Proof.
  unfold pushItem. apply emits_bind.
  - eapply emits_weaken; [|apply checkConnection_no_push]. by intros ? [].
  - intros _. repeat emits_step; done.
Qed.

(** Once the push session is open, the loop neither opens nor closes
    one, and it ends with the session still marked open. *)
Lemma send_loop_initialized batches deviceId done :
  emits no_push_session (send_loop batches deviceId true done)
  ∧ ∀ h b t, send_loop batches deviceId true done h = (Returned b, t) →
             b = true.
Proof.
  revert done. induction batches as [| |item next IH]; intros done.
  - split; [apply emits_ret|]. by intros h b t [= <- _].
  - split; [apply emits_throw|]. by intros h b t [=].
  - split.
    + simpl. apply emits_bind; [apply emits_ret|]. intros _.
      apply emits_bind; [apply pushItem_no_push_session|]. intros result.
      apply emits_bind; [destruct result; repeat emits_step; done|].
      intros done'. intros h r t. rewrite bind_read. apply IH.
    + simpl. intros h b t.
      rewrite bind_ret.
      intros (result & t1 & t2 & _ & H2 & _)%bind_Returned.
      apply bind_Returned in H2 as (done' & t3 & t4 & _ & H4 & _).
      rewrite bind_read in H4. by eapply IH.
Qed.

Lemma push_run_app p t1 t2 :
  push_run p (t1 ++ t2) = (p' ← push_run p t1; push_run p' t2).
Proof.
  revert p. induction t1 as [|ev t1 IH]; intros p; [done|]. simpl.
  destruct (push_step p ev) as [p'|]; [apply IH|done].
Qed.

Lemma push_run_no_push p t :
  Forall no_push t → p ≠ Completed → push_run p t = Some p.
Proof.
  intros Ht Hp. induction Ht as [|ev t [[Hinit Hdone] Hitems] _ IH]; [done|].
  simpl. unfold push_step. rewrite Hinit, Hdone, Hitems.
  by destruct p.
Qed.

Lemma push_run_no_push_session t :
  Forall no_push_session t → push_run Open t = Some Open.
Proof.
  induction 1 as [|ev t [Hinit Hdone] _ IH]; [done|].
  simpl. unfold push_step. rewrite Hinit, Hdone.
  by destruct (invoked "PushItems" ev).
Qed.

Lemma push_step_mono p ev p' :
  push_step p ev = Some p' → phase_rank p ≤ phase_rank p'.
Proof.
  unfold push_step.
  destruct (sent "InitializePush" ev), (sent "PushCompleted" ev),
    (invoked "PushItems" ev), p; intros [= <-]; simpl; lia.
Qed.

Lemma push_run_mono p t p' :
  push_run p t = Some p' → phase_rank p ≤ phase_rank p'.
Proof.
  revert p. induction t as [|ev t IH]; intros p; simpl.
  - by intros [= <-].
  - destruct (push_step p ev) as [p1|] eqn:Hstep; [|done]. simpl.
    intros Hrun. apply push_step_mono in Hstep. apply IH in Hrun. lia.
Qed.

(** What keeping to the protocol means for the two session calls *)
Lemma push_run_counts p0 t p :
  push_run p0 t = Some p →
  count_if (sent "InitializePush") t
  = match p0, p with Idle, Open | Idle, Completed => 1 | _, _ => 0 end
  ∧ count_if (sent "PushCompleted") t
    = match p0, p with Idle, Completed | Open, Completed => 1 | _, _ => 0 end.
Proof.
  revert p0. induction t as [|ev t IH]; intros p0; simpl.
  - intros [= <-]. by destruct p0.
  - destruct (push_step p0 ev) as [p1|] eqn:Hstep; [|done]. simpl.
    intros Hrun. destruct (IH _ Hrun) as [IH1 IH2].
    pose proof (push_run_mono _ _ _ Hrun) as Hmono.
    unfold count_if in *. cbn [List.filter]. unfold push_step in Hstep.
    destruct (sent "InitializePush" ev) eqn:Hinit.
    + assert (sent "PushCompleted" ev = false) as ->.
      { destruct ev; try done. simpl in *.
        apply bool_decide_eq_true in Hinit as ->. done. }
      cbn [length]. rewrite IH1, IH2.
      destruct p0; try done. injection Hstep as <-.
      destruct p; simpl in *; try done; lia.
    + destruct (sent "PushCompleted" ev) eqn:Hdone.
      * cbn [length]. rewrite IH1, IH2.
        destruct p0; try done. injection Hstep as <-.
        destruct p; simpl in *; try done; lia.
      * rewrite IH1, IH2.
        destruct (invoked "PushItems" ev), p0; try done;
          injection Hstep as <-; destruct p; simpl in *; try done; lia.
Qed.

Lemma advances_bind {A B} p (m : M A) (f : A → M B) Q1 Q2 :
  advances p m Q1 →
  (∀ e p1, Q1 (Raised e) p1 → Q2 (Raised e) p1) →
  (∀ a p1, Q1 (Returned a) p1 → advances p1 (f a) Q2) →
  advances p (bind m f) Q2.
Proof.
  intros Hm Hraised Hf h r t
    [(e & H1 & ->)|(a & t1 & t2 & H1 & H2 & ->)]%bind_inv.
  - destruct (Hm _ _ _ H1) as (p1 & Hrun & HQ). eauto.
  - destruct (Hm _ _ _ H1) as (p1 & Hrun & HQ).
    destruct (Hf _ _ HQ _ _ _ H2) as (p2 & Hrun2 & HQ2).
    exists p2. split; [|done]. by rewrite push_run_app, Hrun.
Qed.

Lemma advances_no_push {A} p (m : M A) :
  emits no_push m → p ≠ Completed → advances p m (λ _ p', p' = p).
Proof.
  intros Hm Hp h r t Hrun. exists p. split; [|done].
  apply push_run_no_push; [by eapply Hm|done].
Qed.

Lemma advances_no_push_session {A} (m : M A) :
  emits no_push_session m → advances Open m (λ _ p', p' = Open).
Proof.
  intros Hm h r t Hrun. exists Open. split; [|done].
  apply push_run_no_push_session. by eapply Hm.
Qed.

Lemma advances_weaken {A} p (m : M A) (Q1 Q2 : Outcome A → PushPhase → Prop) :
  (∀ r p', Q1 r p' → Q2 r p') → advances p m Q1 → advances p m Q2.
Proof.
  intros HQ Hm h r t Hrun. destruct (Hm _ _ _ Hrun) as (p' & ? & ?). eauto.
Qed.

Lemma advances_session {A} (m : M A) (R : Outcome A → Prop) :
  emits no_push_session m →
  (∀ h r t, m h = (r, t) → R r) →
  advances Open m (λ r p', p' = Open ∧ R r).
Proof.
  intros Hm HR h r t Hrun. exists Open. split; [|by eauto].
  apply push_run_no_push_session. by eapply Hm.
Qed.

(** Every run of [send], however it ends, keeps to the protocol; it
    returns [false] with the session never opened or [true] with the
    session completed. *)
Lemma send_protocol deviceId isForceSync :
  advances Idle (send deviceId isForceSync)
    (λ r p, ∀ v, r = Returned v →
                 (v = false ∧ p = Idle) ∨ (v = true ∧ p = Completed)).
Proof.
  unfold send.
  eapply advances_bind;
    [apply advances_no_push; [apply uploadAttachments_no_push|done]
    |done|].
  intros [] p1 ->.
  eapply advances_bind;
    [apply advances_no_push; [by apply emits_call|done]|done|].
  intros batches p1 ->.
  eapply (advances_bind _ _ _
            (λ r p, ∀ b, r = Returned b →
                         (b = false ∧ p = Idle) ∨ (b = true ∧ p = Open))).
  - destruct batches as [|e|item next]; simpl.
    + intros h r t [= <- <-]. exists Idle. split; [done|].
      intros b [= <-]. by left.
    + intros h r t [= <- <-]. by exists Idle.
    + eapply (advances_bind _ _ _ (λ r p, ∀ a, r = Returned a → p = Open)).
      * intros h r t. rewrite bind_call.
        destruct (vault_getKey h) as [vaultKey|e].
        -- unfold call. intros [= <- <-]. by exists Open.
        -- intros [= <- <-]. by exists Idle.
      * done.
      * intros [] p1 Hp1. rewrite (Hp1 tt eq_refl).
        destruct (send_loop_initialized (GenYield item next) deviceId 0)
          as [Hev Hb]. simpl in Hev, Hb.
        eapply advances_weaken;
          [|apply (advances_session _
                     (λ r, ∀ b, r = Returned b → b = true))].
        -- intros r p' [-> Hr] b ->. right. split; [by apply Hr|done].
        -- intros h r t Hrun. apply (Hev h r t). by rewrite bind_ret.
        -- intros h r t Hrun b ->. apply (Hb h b t). by rewrite bind_ret.
  - done.
  - intros b p1 Hb. destruct (Hb b eq_refl) as [[-> ->]|[-> ->]]; simpl.
    + intros h r t [= <- <-]. exists Idle. split; [done|].
      intros v [= <-]. by left.
    + intros h r t. rewrite bind_call.
      destruct (connection_send _ _ _) as [[]|e].
      * intros [= <- <-]. exists Completed. split; [done|].
        intros v [= <-]. by right.
      * intros [= <- <-]. by exists Completed.
Qed.

(** The shape of every run of [send] that returns *)
Lemma send_returns deviceId isForceSync h v tr :
  send deviceId isForceSync h = (Returned v, tr) →
  ∃ t_up rest,
    tr = t_up ++ EvCollect 100 isForceSync :: rest
    ∧ Forall no_push t_up
    ∧ match collector_collect (h ++ t_up) 100 isForceSync with
      | GenDone => v = false ∧ rest = []
      | GenThrow _ => False
      | GenYield _ _ =>
          v = true
          ∧ ∃ vaultKey pushes,
              rest = EvVaultGetKey
                     :: EvConnectionSend "InitializePush"
                          [ArgInitializePush vaultKey false]
                     :: pushes ++ [EvConnectionSend "PushCompleted" []]
              ∧ Forall no_push_session pushes
      end.
Proof.
  unfold send.
  intros ([] & t_up & t1 & Hup & Hrun & ->)%bind_Returned.
  exists t_up. rewrite bind_call in Hrun.
  match type of Hrun with (let '(_, _) := ?m in _) = _ =>
    destruct m as [r rest] eqn:Hrest end.
  injection Hrun as -> <-. exists rest.
  split; [done|]. split; [by eapply uploadAttachments_no_push|].
  apply bind_Returned in Hrest as (b & t_loop & t2 & Hloop & Hend & ->).
  destruct (collector_collect (h ++ t_up) 100 isForceSync)
    as [|e|item next]; simpl in Hloop.
  - injection Hloop as <- <-. by injection Hend as <- <-.
  - done.
  - rewrite bind_assoc, bind_call in Hloop.
    destruct (vault_getKey _) as [vaultKey|e]; [|done].
    match type of Hloop with (let '(_, _) := ?m in _) = _ =>
      destruct m as [r t3] eqn:Hloop' end.
    injection Hloop as -> <-.
    rewrite bind_call in Hloop'.
    destruct (connection_send _ _ _) as [[]|e]; [|done].
    match type of Hloop' with (let '(_, _) := ?m in _) = _ =>
      destruct m as [r t4] eqn:Hpush end.
    injection Hloop' as -> <-.
    assert (b = true ∧ Forall no_push_session t4) as [-> Ht4].
    { pose proof (send_loop_initialized
                    (GenYield item next) deviceId 0) as [Hev Hb].
      split.
      - eapply Hb. simpl. rewrite bind_ret. exact Hpush.
      - eapply Hev. simpl. rewrite bind_ret. exact Hpush. }
    simpl in Hend. rewrite bind_call in Hend.
    destruct (connection_send _ _ _) as [[]|e]; [|done].
    injection Hend as <- <-. split; [done|].
    by exists vaultKey, t4.
Qed.

Lemma no_push_session_count t :
  Forall no_push_session t →
  count_if (sent "InitializePush") t = 0
  ∧ count_if (sent "PushCompleted") t = 0.
Proof.
  intros Ht. split; eapply count_if_none; try exact Ht; by intros ? [].
Qed.

Lemma no_push_count t :
  Forall no_push t →
  count_if (sent "InitializePush") t = 0
  ∧ count_if (sent "PushCompleted") t = 0
  ∧ count_if (invoked "PushItems") t = 0.
Proof.
  intros Ht. split_and!; eapply count_if_none; try exact Ht;
    by intros ? [[] ?].
Qed.

End Send.

(** ** [Sync.checkConnection] *)

Section Connection.

Context `{!Env}.

Lemma promiseTimeout_late {A} (promise : Promise A) :
  late promise → promiseTimeout 30000 promise = Raised timed_out.
Proof.
  destruct promise as [at_ms o|]; simpl; [|done].
  intros Hlate. by rewrite bool_decide_false by lia.
Qed.

Lemma checkConnection_late h :
  connection_state h ≠ Connected →
  (connection_state h ≠ Disconnected → connection_stop h = Returned tt) →
  late (connection_start (h ++ stopping h)) →
  checkConnection h
  = (Raised could_not_connect,
     stopping h ++ [EvConnectionStart; EvConsoleError timed_out;
                    EvLog Warn "Sync timed out in 30000ms."]).
Proof.
  intros Hstate Hstop Hlate. unfold checkConnection, try_catch.
  rewrite bind_read, bool_decide_true by done.
  rewrite bind_read. unfold stopping in *.
  case_bool_decide as Hdisconnected.
  - rewrite bind_call, (Hstop Hdisconnected), bind_call.
    cbv beta iota. rewrite lift_run, promiseTimeout_late by done.
    done.
  - rewrite bind_ret, bind_call. rewrite app_nil_r in Hlate.
    cbv beta iota. rewrite lift_run, promiseTimeout_late by done.
    done.
Qed.

End Connection.

(** ** [SyncManager.start] *)

Section Manager.

Context `{!Platform, !Env}.

Lemma start_body_returns options h b t :
  start_body options h = (Returned b, t) → b = true.
Proof.
  intros ([] & t1 & t2 & _ & H2 & _)%bind_Returned.
  apply bind_Returned in H2 as ([] & t3 & t4 & _ & H4 & _).
  by injection H4 as <-.
Qed.

(** [start] as a function of how its [try] block ended *)
Lemma SyncManager_start_run options h :
  SyncManager_start options h =
    match start_body options h with
    | (Returned b, t) => (Returned b, t)
    | (Raised e, t) =>
        match message_of e with
        | None => (Raised TypeError, t)
        | Some message =>
            if includes "HubException:" message then
              if stale_token_text (errorText_of message) then
                match user_getUser (h ++ t) with
                | Raised e' => (Raised e', t ++ [EvGetUser])
                | Returned user =>
                    if confirmed user then
                      match tokenManager_refreshToken
                              (h ++ t ++ [EvGetUser]) true with
                      | Returned _ =>
                          (Returned false,
                           t ++ [EvGetUser; EvRefreshToken true])
                      | Raised e' =>
                          (Raised e', t ++ [EvGetUser; EvRefreshToken true])
                      end
                    else (Raised (ErrorObj (errorText_of message)),
                          t ++ [EvGetUser])
                end
              else (Raised (ErrorObj (errorText_of message)), t)
            else (Raised e, t)
        end
    end.
Proof.
  unfold SyncManager_start, try_catch. fold (start_body options).
  destruct (start_body options h) as [[b|e] t]; [done|].
  destruct (message_of e) as [message|];
    [|unfold throw; by rewrite app_nil_r].
  destruct (includes "HubException:" message);
    [|unfold throw; by rewrite app_nil_r].
  fold (errorText_of message).
  fold (stale_token_text (errorText_of message)).
  destruct (stale_token_text _); [|unfold throw; by rewrite app_nil_r].
  rewrite bind_call.
  destruct (user_getUser (h ++ t)) as [user|e']; [|done].
  fold (confirmed user). destruct (confirmed user); [|done].
  rewrite bind_call, <- app_assoc.
  by destruct (tokenManager_refreshToken _ _) as [[]|e'].
Qed.

End Manager.

(** ** [Sync.fetch] *)

Section Fetch.

Context `{!Platform, !Env}.

Lemma processChunk_emits (P : Event → Prop) chunk key :
  (∀ ev, is_migration ev → P ev) →
  (∀ k ciphers, P (EvDecryptMulti k ciphers)) →
  (∀ c ids, P (EvRecords c ids)) →
  (∀ ev remote, merged_remote ev = Some remote → P ev) →
  (∀ ev, is_publish ev → P ev) →
  (∀ c merged, P (EvPut c merged)) →
  emits P (processChunk chunk key).
Proof.
  intros Hmig Hdec Hrec Hmerge Hpub Hput. unfold processChunk.
  case_bool_decide; [apply emits_ret|].
  apply emits_bind; [by apply emits_call|]. intros decrypted.
  apply emits_bind.
  { apply emits_mapM. intros i x. apply emits_bind; [apply emits_lift|].
    intros version. eapply emits_weaken; [|apply deserializeItem_emits].
    done. }
  intros results. apply emits_bind; [apply emits_lift|]. intros collection.
  apply emits_bind; [by apply emits_call|]. intros localItems.
  apply emits_bind.
  { repeat case_bool_decide; apply emits_mapM; intros i x; apply emits_call;
      by eapply Hmerge. }
  intros merged. apply emits_bind; [|intros; by apply emits_call].
  apply emits_if; [|apply emits_ret].
  apply emits_forEach. intros x. apply emits_emit. by apply Hpub.
Qed.

Lemma processChunk_fetch_quiet chunk key :
  emits fetch_quiet (processChunk chunk key).
Proof.
  apply processChunk_emits; try done.
  - by intros [].
  - by intros [].
  - by intros [].
Qed.

Lemma onSendItems_fetch_quiet key count chunk :
  emits fetch_quiet (onSendItems key count chunk).
Proof.
  unfold onSendItems. apply emits_bind; [apply emits_read|]. intros state.
  apply emits_if; [apply emits_ret|].
  apply emits_bind; [apply processChunk_fetch_quiet|]. intros _.
  repeat emits_step; done.
Qed.

Lemma receive_fetch_quiet stream key count :
  emits fetch_quiet (receive stream key count).
Proof.
  revert count. induction stream as [serverResponse|chunk next IH];
    intros count; simpl.
  - apply emits_lift.
  - apply emits_bind.
    + apply emits_attempt, onSendItems_fetch_quiet.
    + intros [[ack count']|e]; apply IH.
Qed.

Lemma checkConnection_fetch_quiet : emits fetch_quiet checkConnection.
Proof. by apply checkConnection_emits. Qed.

(** The shape of every run of [fetch]: it stops before it registers
    anything, or it clears the handlers, registers its own, invokes
    [RequestFetch] once, and removes the handler again only when it gets
    to its last statement. *)
Lemma fetch_shape deviceId h r tr :
  fetch deviceId h = (r, tr) →
  Forall fetch_quiet tr
  ∨ ∃ pre received post,
      tr = pre ++ opening deviceId ++ received ++ post
      ∧ Forall fetch_quiet pre ∧ Forall fetch_quiet received
      ∧ ((r = Returned tt
          ∧ ∃ setKey, post = setKey ++ [EvConnectionOff "SendItems"]
                      ∧ Forall fetch_quiet setKey)
         ∨ ((∃ e, r = Raised e) ∧ Forall fetch_quiet post)).
Proof.
  unfold fetch.
  intros [(e & Hcc & ->)|([] & t_cc & t1 & Hcc & Hrun & ->)]%bind_inv.
  { left. by eapply checkConnection_fetch_quiet. }
  apply checkConnection_fetch_quiet in Hcc.
  rewrite bind_call in Hrun.
  assert (fetch_quiet EvGetEncryptionKey) as Hkey_ev by done.
  destruct (user_getEncryptionKey (h ++ t_cc)) as [key|e].
  2: { injection Hrun as <- <-. left. apply Forall_app. by repeat constructor. }
  match type of Hrun with (let '(_, _) := ?m in _) = _ =>
    destruct m as [r' t2] eqn:Hrest end.
  injection Hrun as -> <-.
  assert (∀ h' r0 t0,
            (emit (EvLog Error
                     "User encryption key not generated. Please relogin.");;
             emit (EvPublish userSessionExpired [])) h' = (r0, t0) →
            Forall fetch_quiet (t_cc ++ EvGetEncryptionKey :: t0))
    as Hexpired.
  { intros h' r0 t0 [= <- <-]. apply Forall_app. by repeat constructor. }
  destruct key as [key|]; [|left; by eapply Hexpired].
  destruct (negb (string_truthy (serialized_key key))
            || negb (string_truthy (serialized_salt key)));
    [left; by eapply Hexpired|].
  right. rewrite !bind_emit, bind_call in Hrest. cbv beta iota in Hrest.
  match type of Hrest with context [bind (receive ?s ?k ?c) ?f ?h0] =>
    destruct (bind (receive s k c) f h0) as [r0 t3] eqn:Hrecv end.
  injection Hrest as -> <-.
  exists (t_cc ++ [EvGetEncryptionKey]).
  assert (Forall fetch_quiet (t_cc ++ [EvGetEncryptionKey])) as Hpre.
  { apply Forall_app. by repeat constructor. }
  apply bind_inv in Hrecv
    as [(e & Hrecv & ->)|(serverResponse & t_recv & t4 & Hrecv & Hend & ->)].
  { exists t3, []. rewrite app_nil_r, <- app_assoc. split_and!; try done.
    - by eapply receive_fetch_quiet.
    - right. split; [by eexists|constructor]. }
  apply receive_fetch_quiet in Hrecv.
  exists t_recv, t4. rewrite <- app_assoc. split_and!; try done.
  apply bind_inv in Hend
    as [(e & Hset & ->)|([] & t_set & t5 & Hset & Hoff & ->)].
  - right. split; [by eexists|].
    destruct (vaultKey serverResponse) as [vk|]; [|done].
    destruct (_ && _); [|done].
    unfold call in Hset. injection Hset as _ <-. by repeat constructor.
  - left. injection Hoff as <- <-. split; [done|]. exists t_set.
    split; [done|].
    destruct (vaultKey serverResponse) as [vk|];
      [|injection Hset as <-; constructor].
    destruct (_ && _); [|injection Hset as <-; constructor].
    unfold call in Hset. injection Hset as _ <-. by repeat constructor.
Qed.

Lemma filter_Boolean_length (results : list (option Item)) :
  length (filter_Boolean results) ≤ length results.
Proof.
  unfold filter_Boolean.
  induction results as [|[item|] results IH]; cbn [omap list_omap length];
    lia.
Qed.

(** A run of [processChunk] that returns wrote at most as many items as
    the batch delivered, and none for a batch of type ["settings"]. *)
Lemma processChunk_persisted chunk key h tr :
  processChunk chunk key h = (Returned tt, tr) →
  persisted tr ≤ length (items chunk)
  ∧ downloads tr = []
  ∧ (type chunk = "settings" → tr = []).
Proof.
  intros Hrun.
  assert (downloads tr = []) as Hdown.
  { eapply (omap_None_Forall _ (λ ev, download_of ev = None)); [done|].
    eapply processChunk_emits; [..|exact Hrun]; try done.
    - by intros [].
    - by intros [].
    - by intros [].  }
  destruct (decide (type chunk = "settings")) as [Hsettings|Hsettings].
  { unfold processChunk in Hrun. rewrite bool_decide_true in Hrun by done.
    injection Hrun as <-. split_and!; [|done..].
    unfold persisted. simpl. lia. }
  split_and!; [|done..].
  destruct (processChunk_persists _ _ _ _ Hrun Hsettings)
    as (decrypted & results & t_des & collection & merged
        & Hdec & Hdes & _ & _ & Hputs & Hlen).
  unfold persisted. rewrite Hputs. simpl. rewrite Hlen, Nat.add_0_r.
  etrans; [apply filter_Boolean_length|].
  rewrite (mapM_length _ _ _ _ _ _ Hdes).
  destruct (decide (length decrypted ≤ length (items chunk))) as [|Hlong];
    [done|exfalso].
  destruct (lookup_lt_is_Some_2 decrypted (length (items chunk)))
    as [x Hx]; [lia|].
  destruct (mapM_lookup _ _ _ _ _ _ _ _ Hdes Hx) as (h' & y & t' & Hone).
  simpl in Hone. unfold version_at in Hone.
  rewrite lookup_ge_None_2 in Hone by done. done.
Qed.

(** What the [SendItems] handler does with a batch it acknowledges *)
Lemma onSendItems_acknowledged key count chunk h count' tr :
  onSendItems key count chunk h = (Returned (true, count'), tr) →
  count' = count + length (items chunk)
  ∧ downloads tr = [count']
  ∧ persisted tr ≤ length (items chunk)
  ∧ (type chunk = "settings" → persisted tr = 0).
Proof.
  unfold onSendItems. rewrite bind_read.
  case_bool_decide; [done|].
  intros ([] & t1 & t2 & Hchunk & Hrest & ->)%bind_Returned.
  injection Hrest as <- <-.
  destruct (processChunk_persisted _ _ _ _ Hchunk) as (Hp & Hd & Hs).
  unfold downloads, persisted, puts in *. rewrite !omap_app, Hd.
  split_and!; [done|done|..].
  - simpl. by rewrite app_nil_r.
  - intros Hsettings. by rewrite (Hs Hsettings).
Qed.

End Fetch.

(** * The claims *)

Section SendClaim.

Context `{!Platform, !Env}.

(** C1: every run of [send], however it ends, keeps to the push-session
    protocol: [InitializePush] is sent at most once and before any
    [PushItems] invocation, [PushCompleted] at most once and as the last
    call. In every run that returns: if the collector yields no batch
    then neither [InitializePush] nor [PushCompleted] is sent and the
    result is [false]; if it yields at least one batch then
    [InitializePush] is sent exactly once, before any [PushItems]
    invocation, [PushCompleted] is sent once, as the last call of the
    run, and the result is [true]. *)
Theorem send_push_session deviceId isForceSync h r tr :
  send deviceId isForceSync h = (r, tr) →
  (∃ p, push_run Idle tr = Some p
        ∧ count_if (sent "InitializePush") tr
          = match p with Idle => 0 | _ => 1 end
        ∧ count_if (sent "PushCompleted") tr
          = match p with Completed => 1 | _ => 0 end)
  ∧ ∀ v, r = Returned v →
      ∃ t_up rest,
        tr = t_up ++ EvCollect 100 isForceSync :: rest
        ∧ Forall no_push t_up
        ∧ match collector_collect (h ++ t_up) 100 isForceSync with
          | GenDone =>
              v = false ∧ rest = []
              ∧ count_if (sent "InitializePush") tr = 0
              ∧ count_if (sent "PushCompleted") tr = 0
          | GenThrow _ => False
          | GenYield _ _ =>
              v = true
              ∧ (∃ vaultKey pushes,
                   rest = EvVaultGetKey
                          :: EvConnectionSend "InitializePush"
                               [ArgInitializePush vaultKey false]
                          :: pushes ++ [EvConnectionSend "PushCompleted" []]
                   ∧ Forall no_push_session pushes)
              ∧ count_if (sent "InitializePush") tr = 1
              ∧ count_if (sent "PushCompleted") tr = 1
              ∧ last tr = Some (EvConnectionSend "PushCompleted" [])
          end.
Proof.
  intros Hrun. split.
  { destruct (send_protocol _ _ _ _ _ Hrun) as (p & Hp & _).
    exists p. split; [done|].
    destruct (push_run_counts _ _ _ Hp) as [-> ->]. by destruct p. }
  intros v ->.
  destruct (send_returns _ _ _ _ _ Hrun) as (t_up & rest & -> & Hup & Hgen).
  exists t_up, rest. split; [done|]. split; [done|].
  destruct (no_push_count _ Hup) as (Hup1 & Hup2 & _).
  destruct (collector_collect (h ++ t_up) 100 isForceSync)
    as [|e|item next]; [|done|].
  - destruct Hgen as [-> ->]. split_and!; try done.
    + rewrite count_if_app, Hup1. done.
    + rewrite count_if_app, Hup2. done.
  - destruct Hgen as (-> & vaultKey & pushes & -> & Hpushes).
    destruct (no_push_session_count _ Hpushes) as [Hp1 Hp2].
    split_and!; try done.
    + by exists vaultKey, pushes.
    + rewrite count_if_app, Hup1.
      change (count_if (sent "InitializePush")
                ([EvCollect 100 isForceSync; EvVaultGetKey;
                  EvConnectionSend "InitializePush"
                    [ArgInitializePush vaultKey false]]
                 ++ pushes ++ [EvConnectionSend "PushCompleted" []]) = 1).
      rewrite !count_if_app, Hp1. done.
    + rewrite count_if_app, Hup2.
      change (count_if (sent "PushCompleted")
                ([EvCollect 100 isForceSync; EvVaultGetKey;
                  EvConnectionSend "InitializePush"
                    [ArgInitializePush vaultKey false]]
                 ++ pushes ++ [EvConnectionSend "PushCompleted" []]) = 1).
      rewrite !count_if_app, Hp2. done.
    + change (last (t_up ++ ([EvCollect 100 isForceSync; EvVaultGetKey;
                  EvConnectionSend "InitializePush"
                    [ArgInitializePush vaultKey false]]
                 ++ pushes) ++ [EvConnectionSend "PushCompleted" []])
              = Some (EvConnectionSend "PushCompleted" [])).
      rewrite app_assoc. apply last_snoc.
Qed.

End SendClaim.

Lemma send_push_session_witness :
  ∃ tr, @send one_batch_env "device-1" None [] = (Returned true, tr)
        ∧ count_if (sent "InitializePush") tr = 1
        ∧ last tr = Some (EvConnectionSend "PushCompleted" []).
Proof.
  set (run := @send one_batch_env "device-1" None []).
  assert (run = (Returned true, run.2)) as Hrun by (vm_compute; reflexivity).
  exists run.2. split; [exact Hrun|].
  destruct (proj2 (@send_push_session one_batch_env "device-1" None []
                     (Returned true) run.2 Hrun) true eq_refl)
    as (t_up & rest & Htr & Hup & Hgen).
  simpl in Hgen. tauto.
Defined.

Section DeserializeClaims.

Context `{!Platform, !Env}.

(** C9: an incoming item with a truthy [cipher] field is returned as
    parsed, stamped with [remote = true] and [synced = true], whatever
    its declared type: no migration runs (the run makes no call at all),
    nothing is dropped, and its type and title are left as they came, so
    neither the drop rule nor the tag-to-color reclassification reaches
    it. *)
Theorem deserializeItem_cipher_bypass decryptedItem version h o :
  JSON_parse decryptedItem = Returned (JObj o) →
  truthy (get o "cipher") = true →
  deserializeItem decryptedItem version h = (Returned (Some (stamped o)), [])
  ∧ get (stamped o) "remote" = JBool true
  ∧ get (stamped o) "synced" = JBool true
  ∧ get (stamped o) "type" = get o "type"
  ∧ get (stamped o) "title" = get o "title".
Proof.
  intros Hparse Hcipher. split_and!.
  - by apply deserializeItem_cipher_run.
  - unfold stamped. by rewrite get_insert_ne, get_insert_eq.
  - unfold stamped. by rewrite get_insert_eq.
  - by apply stamped_get.
  - by apply stamped_get.
Qed.

(** C2: for a plaintext item, a ["skip"] from the main migration pass
    makes [deserializeItem] return nothing; when the main pass leaves
    the item trash-typed with an inner type, the second pass runs after
    it on the inner type (both calls are made, wrapper first), and a
    ["skip"] from it makes [deserializeItem] return nothing as well. In
    [processChunk] the items that go to the merger are exactly those
    that deserialization returned, and the batch written has one entry
    for each of them: an item for which nothing was returned is not in
    it. *)
Theorem skipped_item_is_excluded decryptedItem version h o :
  JSON_parse decryptedItem = Returned (JObj o) →
  truthy (get o "cipher") = false →
  (∀ item1,
     migrateItem h (stamped o) version CURRENT_DATABASE_VERSION
       (get o "type") sync_migration = Returned (skip, item1) →
     deserializeItem decryptedItem version h
     = (Returned None, [first_pass o version]))
  ∧ (∀ b item1,
       migrateItem h (stamped o) version CURRENT_DATABASE_VERSION
         (get o "type") sync_migration = Returned (changed b, item1) →
       trash_wrapped item1 = true →
       (∃ r t,
          deserializeItem decryptedItem version h
          = (r, first_pass o version :: second_pass item1 version :: t))
       ∧ (∀ item2,
            migrateItem (h ++ [first_pass o version]) item1 version
              CURRENT_DATABASE_VERSION (get item1 "itemType")
              backup_migration = Returned (skip, item2) →
            deserializeItem decryptedItem version h
            = (Returned None,
               [first_pass o version; second_pass item1 version])))
  ∧ (∀ chunk key h' tr,
       processChunk chunk key h' = (Returned tt, tr) →
       type chunk ≠ "settings" →
       ∃ decrypted results t_des collection merged,
         storage_decryptMulti h' key (items chunk) = Returned decrypted
         ∧ mapM (λ index item,
                   do version <- lift (version_at chunk index);
                   deserializeItem item version) 0 decrypted
             (h' ++ [EvDecryptMulti key (items chunk)])
           = (Returned results, t_des)
         ∧ (∀ item, item ∈ merged_remotes tr ↔ Some item ∈ results)
         ∧ puts tr = [(collection, merged)]
         ∧ length merged = length (filter_Boolean results)).
Proof.
  intros Hparse Hcipher.
  destruct (deserializeItem_skip _ version h _ Hparse Hcipher) as [H1 H2].
  split_and!; [done|done|].
  intros chunk key h' tr Hrun Hsettings.
  destruct (processChunk_persists _ _ _ _ Hrun Hsettings)
    as (decrypted & results & t_des & collection & merged
        & Hdec & Hdes & _ & Hremotes & Hputs & Hlen).
  exists decrypted, results, t_des, collection, merged.
  split_and!; try done.
  intros item. rewrite Hremotes. apply filter_Boolean_elem.
Qed.

(** C7 (amended): the reclassified type is a value local to
    [deserializeItem], used to decide whether the item is dropped. It is
    ["color"] for a tag-typed item whose lower-cased title is one of
    [COLORS], the inner type for a trash-typed item with a truthy inner
    type, and the declared type otherwise. The item that is returned
    keeps the type field that migration left it with. *)
Theorem resolved_type_is_local :
  (∀ item title,
     is_string (get item "type") "tag" = true →
     get item "title" = JStr title →
     array_includes COLORS (toLowerCase title) = true →
     itemType_of item = Returned (JStr "color"))
  ∧ (∀ item,
       is_string (get item "type") "trash" = true →
       truthy (get item "itemType") = true →
       itemType_of item = Returned (get item "itemType"))
  ∧ (∀ item,
       (is_string (get item "type") "tag" = false
        ∨ ∃ title, get item "title" = JStr title
                   ∧ array_includes COLORS (toLowerCase title) = false) →
       trash_wrapped item = false →
       itemType_of item = Returned (get item "type"))
  ∧ (∀ decryptedItem version h o item tr,
       JSON_parse decryptedItem = Returned (JObj o) →
       truthy (get o "cipher") = false →
       deserializeItem decryptedItem version h = (Returned (Some item), tr) →
       ∃ b item',
         (migrated h o version).1 = Returned (changed b, item')
         ∧ get item "type" = get item' "type"
         ∧ ∃ itemType, itemType_of item' = Returned itemType
                       ∧ is_dropped_type itemType = false).
Proof.
  split_and!.
  - intros item title Htag Htitle Hcolor. unfold itemType_of.
    by rewrite Htag, Htitle; simpl; rewrite Hcolor.
  - intros item Htrash Hinner. unfold itemType_of.
    assert (is_string (get item "type") "tag" = false) as ->.
    { destruct (get item "type") as [| | | |s|]; try done. simpl in *.
      apply bool_decide_eq_true in Htrash as ->. done. }
    assert (has item "itemType" = true) as ->.
    { unfold has, get in *. apply bool_decide_eq_true.
      by destruct (item !! "itemType"). }
    by rewrite Htrash, Hinner.
  - intros item Hnot_color Hnot_trash. unfold itemType_of, trash_wrapped in *.
    assert ((if is_string (get item "type") "trash"
                && has item "itemType" && truthy (get item "itemType")
             then get item "itemType" else get item "type")
            = get item "type") as ->.
    { destruct (is_string (get item "type") "trash"); [|done].
      simpl in Hnot_trash. rewrite Hnot_trash.
      by destruct (has item "itemType"). }
    destruct Hnot_color as [->|(title & -> & Hcolor)]; [done|].
    unfold title_toLowerCase. rewrite Hcolor.
    by destruct (is_string (get item "type") "tag").
  - intros decryptedItem version h o item tr Hparse Hcipher Hrun.
    rewrite (deserializeItem_plaintext_run _ _ _ _ Hparse Hcipher) in Hrun.
    destruct (migrated h o version).1 as [[[|b] item']|e]; try done.
    destruct (itemType_of item') as [itemType|e] eqn:Hty; [|done].
    destruct (is_dropped_type itemType) eqn:Hdrop; [done|].
    injection Hrun as <- _. exists b, item'. split_and!; [done| |by eauto].
    destruct b; [by rewrite get_insert_ne|done].
Qed.

(** C3 (amended): whatever a run of [processChunk] does, every remote
    item it hands to the merger carries a cipher marker or has a
    resolved type that is neither empty nor ["topic"] nor ["settings"];
    a plaintext item with such a resolved type is dropped by
    [deserializeItem]; a batch of type ["settings"] is skipped without
    any call; and a run that returns wrote one batch, with one entry per
    merged item. *)
Theorem unresolved_types_not_merged chunk key h r tr :
  processChunk chunk key h = (r, tr) →
  Forall resolved_or_cipher (merged_remotes tr)
  ∧ (type chunk = "settings" → r = Returned tt ∧ tr = [])
  ∧ (r = Returned tt → type chunk ≠ "settings" →
     ∃ collection merged,
       puts tr = [(collection, merged)]
       ∧ length merged = length (merged_remotes tr))
  ∧ (∀ decryptedItem version h' o b item itemType,
       JSON_parse decryptedItem = Returned (JObj o) →
       truthy (get o "cipher") = false →
       (migrated h' o version).1 = Returned (changed b, item) →
       itemType_of item = Returned itemType →
       is_dropped_type itemType = true →
       deserializeItem decryptedItem version h'
       = (Returned None, (migrated h' o version).2)).
Proof.
  intros Hrun. split_and!.
  - by eapply processChunk_merge_inputs.
  - intros Hsettings. unfold processChunk in Hrun.
    rewrite bool_decide_true in Hrun by done. by injection Hrun as <- <-.
  - intros -> Hsettings.
    destruct (processChunk_persists _ _ _ _ Hrun Hsettings)
      as (decrypted & results & t_des & collection & merged
          & _ & _ & _ & Hremotes & Hputs & Hlen).
    exists collection, merged. by rewrite Hremotes.
  - intros decryptedItem version h' o b item itemType
      Hparse Hcipher Hmig Hty Hdrop.
    rewrite (deserializeItem_plaintext_run _ _ _ _ Hparse Hcipher).
    by rewrite Hmig, Hty, Hdrop.
Qed.

End DeserializeClaims.

Lemma deserializeItem_cipher_bypass_witness :
  @deserializeItem sample_platform quiet_env (json_object cipher_topic)
    6%float []
  = (Returned (Some (stamped (object_of cipher_topic))), []).
Proof.
  exact (proj1 (@deserializeItem_cipher_bypass sample_platform quiet_env
                  (json_object cipher_topic) 6%float []
                  (object_of cipher_topic)
                  ltac:(vm_compute; reflexivity)
                  ltac:(vm_compute; reflexivity))).
Defined.

Lemma skipped_item_is_excluded_witness :
  @deserializeItem sample_platform retiring_env (json_object trash_note)
    5.5%float []
  = (Returned None,
     [first_pass (object_of trash_note) 5.5%float;
      second_pass (stamped (object_of trash_note)) 5.5%float]).
Proof.
  pose proof (@skipped_item_is_excluded sample_platform retiring_env
                (json_object trash_note) 5.5%float []
                (object_of trash_note)
                ltac:(vm_compute; reflexivity)
                ltac:(vm_compute; reflexivity)) as (_ & Htrash & _).
  destruct (Htrash false (stamped (object_of trash_note))
              ltac:(vm_compute; reflexivity)
              ltac:(vm_compute; reflexivity)) as [_ Hskip].
  exact (Hskip (stamped (object_of trash_note))
           ltac:(vm_compute; reflexivity)).
Defined.

(** C6, at the failing input: a trash-wrapped note of an older version
    whose wrapper migration reports a change and whose inner-type
    migration reports none. Both passes run, the first one reports a
    change, and the item comes back with [synced = true]. *)
Lemma deserializeItem_wrapper_change_lost :
  let o := object_of trash_note in
  @migrateItem wrapper_env [] (stamped o) 5.5%float 6%float (get o "type")
    sync_migration = Returned (changed true, stamped o)
  ∧ @deserializeItem sample_platform wrapper_env (json_object trash_note)
      5.5%float []
    = (Returned (Some (stamped o)),
       [first_pass o 5.5%float; second_pass (stamped o) 5.5%float])
  ∧ get (stamped o) "synced" = JBool true.
Proof. vm_compute. done. Qed.

(** C7, as stated, fails: with nothing to migrate, the tag titled "Red"
    comes back with type ["tag"]. *)
Lemma tag_color_keeps_type_tag :
  ¬ (∀ (P : Platform) (E : Env) decryptedItem version h o title item tr,
       JSON_parse decryptedItem = Returned (JObj o) →
       truthy (get o "cipher") = false →
       is_string (get o "type") "tag" = true →
       get o "title" = JStr title →
       array_includes COLORS (toLowerCase title) = true →
       deserializeItem decryptedItem version h = (Returned (Some item), tr) →
       get item "type" = JStr "color").
Proof.
  intros Hclaim.
  specialize (Hclaim sample_platform quiet_env (json_object tag_red)
                6%float [] (object_of tag_red) "Red"
                (stamped (object_of tag_red))
                [first_pass (object_of tag_red) 6%float]
                ltac:(vm_compute; reflexivity) ltac:(vm_compute; reflexivity)
                ltac:(vm_compute; reflexivity) ltac:(vm_compute; reflexivity)
                ltac:(vm_compute; reflexivity)
                ltac:(vm_compute; reflexivity)).
  vm_compute in Hclaim. discriminate.
Qed.

Lemma resolved_type_is_local_witness :
  @itemType_of sample_platform (stamped (object_of tag_red))
  = Returned (JStr "color")
  ∧ get (stamped (object_of tag_red)) "type" = JStr "tag".
Proof.
  split.
  - exact (proj1 (@resolved_type_is_local sample_platform quiet_env)
             (stamped (object_of tag_red)) "Red"
             ltac:(vm_compute; reflexivity) ltac:(vm_compute; reflexivity)
             ltac:(vm_compute; reflexivity)).
  - vm_compute. reflexivity.
Defined.

(** C3, as stated, fails: an item that carries a cipher marker and has
    no type at all (its resolved type is empty) is deserialized, merged
    and written. *)
Lemma cipher_envelope_is_persisted :
  ¬ (∀ (P : Platform) (E : Env) chunk key h r tr collection merged item
       itemType,
       processChunk chunk key h = (r, tr) →
       (collection, merged) ∈ puts tr →
       JObj item ∈ merged →
       itemType_of item = Returned itemType →
       is_dropped_type itemType = false).
Proof.
  intros Hclaim.
  specialize (Hclaim sample_platform quiet_env
                (batch_of "note" [cipher_envelope]) sample_key []
                (Returned tt)
                (@processChunk sample_platform quiet_env
                   (batch_of "note" [cipher_envelope]) sample_key []).2
                "notes" [JObj (stamped (object_of cipher_envelope))]
                (stamped (object_of cipher_envelope)) JUndefined
                ltac:(vm_compute; reflexivity)).
  assert ((@processChunk sample_platform quiet_env
             (batch_of "note" [cipher_envelope]) sample_key []).2
          = [EvDecryptMulti sample_key
               (items (batch_of "note" [cipher_envelope]));
             EvRecords "notes" ["x2"];
             EvMergeItemSync (stamped (object_of cipher_envelope)) JUndefined
               "note";
             EvPublish syncItemMerged
               [JObj (stamped (object_of cipher_envelope))];
             EvPut "notes" [JObj (stamped (object_of cipher_envelope))]])
    as Htr by (vm_compute; reflexivity).
  rewrite Htr in Hclaim.
  specialize (Hclaim ltac:(left) ltac:(left) ltac:(vm_compute; reflexivity)).
  vm_compute in Hclaim. discriminate.
Qed.

Lemma unresolved_types_not_merged_witness :
  ∃ tr,
    @processChunk sample_platform quiet_env
      (batch_of "note" [plain_topic; plain_note]) sample_key []
    = (Returned tt, tr)
    ∧ Forall (@resolved_or_cipher sample_platform) (merged_remotes tr)
    ∧ merged_remotes tr = [stamped (object_of plain_note)].
Proof.
  set (run := @processChunk sample_platform quiet_env
                (batch_of "note" [plain_topic; plain_note]) sample_key []).
  assert (run = (Returned tt, run.2)) as Hrun by (vm_compute; reflexivity).
  exists run.2. split; [exact Hrun|]. split.
  - exact (proj1 (@unresolved_types_not_merged sample_platform quiet_env
                    (batch_of "note" [plain_topic; plain_note]) sample_key
                    [] (Returned tt) run.2 Hrun)).
  - vm_compute. reflexivity.
Defined.

Section SessionClaims.

Context `{!Platform, !Env}.

(** C10: a batch the [SendItems] handler acknowledges adds its full
    length to the cumulative count, which is what the handler reports as
    download progress; the items written for that batch are at most as
    many, and none for a batch of type ["settings"], so that the count
    reported exceeds the number of items written as soon as such a batch
    is not empty. *)
Theorem download_progress_counts_delivered key count chunk h count' tr :
  onSendItems key count chunk h = (Returned (true, count'), tr) →
  count' = count + length (items chunk)
  ∧ downloads tr = [count']
  ∧ persisted tr ≤ length (items chunk)
  ∧ (type chunk = "settings" → persisted tr = 0)
  ∧ (type chunk = "settings" → items chunk ≠ [] →
     count + persisted tr < count').
Proof.
  intros Hrun.
  destruct (onSendItems_acknowledged _ _ _ _ _ _ Hrun)
    as (-> & Hdown & Hle & Hsettings).
  split_and!; try done.
  intros Htype Hitems. rewrite (Hsettings Htype).
  destruct (items chunk); [done|simpl; lia].
Qed.

(** C5 (amended): when the connection is not connected and the connect
    attempt is still unsettled after 30000 ms, the race against the
    timer rejects with "Sync timed out in 30000ms."; [checkConnection]
    makes one connect attempt and no second one, logs that message as a
    warning, and what it throws to its caller is "Could not connect to
    the Sync server. Please try again.". *)
Theorem connect_timeout h :
  connection_state h ≠ Connected →
  (connection_state h ≠ Disconnected → connection_stop h = Returned tt) →
  late (connection_start (h ++ stopping h)) →
  promiseTimeout 30000 (connection_start (h ++ stopping h))
  = Raised (ErrorObj "Sync timed out in 30000ms.")
  ∧ ∃ tr,
      checkConnection h
      = (Raised
           (ErrorObj "Could not connect to the Sync server. Please try again."),
         tr)
      ∧ count_if (λ ev, if ev is EvConnectionStart then true else false) tr = 1
      ∧ EvLog Warn "Sync timed out in 30000ms." ∈ tr.
Proof.
  intros Hstate Hstop Hlate. split; [by apply promiseTimeout_late|].
  eexists. split; [by apply checkConnection_late|].
  unfold stopping. case_bool_decide; split; try done.
  - do 3 right. left.
  - do 2 right. left.
Qed.

(** C4 (amended): when the [try] block of [start] throws an [Error],
    [start] recovers exactly when the message names a HubException, the
    extracted text contains "Please confirm your email " or "Invalid
    token.", and the user is email-confirmed: the handler then makes one
    forced token refresh and [start] returns [false]. An [Error] that
    names no HubException is thrown again as it is; one that names a
    HubException without qualifying for recovery is replaced by an
    [Error] carrying the extracted text; a failure of the recovery's own
    calls is thrown as it is. *)
Theorem start_recovery options h e t :
  start_body options h = (Raised e, t) →
  (∀ message user,
     e = ErrorObj message →
     includes "HubException:" message = true →
     stale_token_text (errorText_of message) = true →
     user_getUser (h ++ t) = Returned user →
     confirmed user = true →
     tokenManager_refreshToken (h ++ t ++ [EvGetUser]) true = Returned tt →
     SyncManager_start options h
     = (Returned false, t ++ [EvGetUser; EvRefreshToken true]))
  ∧ (∀ b tr,
       SyncManager_start options h = (Returned b, tr) →
       b = false
       ∧ tr = t ++ [EvGetUser; EvRefreshToken true]
       ∧ ∃ message user,
           e = ErrorObj message
           ∧ includes "HubException:" message = true
           ∧ stale_token_text (errorText_of message) = true
           ∧ user_getUser (h ++ t) = Returned user
           ∧ confirmed user = true)
  ∧ (∀ message,
       e = ErrorObj message →
       includes "HubException:" message = false →
       SyncManager_start options h = (Raised e, t))
  ∧ (∀ message,
       e = ErrorObj message →
       includes "HubException:" message = true →
       stale_token_text (errorText_of message) = false →
       SyncManager_start options h
       = (Raised (ErrorObj (errorText_of message)), t))
  ∧ (∀ message user,
       e = ErrorObj message →
       includes "HubException:" message = true →
       stale_token_text (errorText_of message) = true →
       user_getUser (h ++ t) = Returned user →
       confirmed user = false →
       SyncManager_start options h
       = (Raised (ErrorObj (errorText_of message)), t ++ [EvGetUser]))
  ∧ (∀ message e',
       e = ErrorObj message →
       includes "HubException:" message = true →
       stale_token_text (errorText_of message) = true →
       user_getUser (h ++ t) = Raised e' →
       SyncManager_start options h = (Raised e', t ++ [EvGetUser]))
  ∧ (∀ message user e',
       e = ErrorObj message →
       includes "HubException:" message = true →
       stale_token_text (errorText_of message) = true →
       user_getUser (h ++ t) = Returned user →
       confirmed user = true →
       tokenManager_refreshToken (h ++ t ++ [EvGetUser]) true = Raised e' →
       SyncManager_start options h
       = (Raised e', t ++ [EvGetUser; EvRefreshToken true])).
Proof.
  intros Hbody. pose proof (SyncManager_start_run options h) as Hrun.
  rewrite Hbody in Hrun. split_and!.
  - intros message user -> Hhub Hstale Huser Hconfirmed Hrefresh.
    rewrite Hrun. simpl. by rewrite Hhub, Hstale, Huser, Hconfirmed, Hrefresh.
  - intros b tr. rewrite Hrun.
    destruct e as [message|]; simpl; [|done].
    destruct (includes "HubException:" message) eqn:Hhub; [|done].
    destruct (stale_token_text (errorText_of message)) eqn:Hstale; [|done].
    destruct (user_getUser (h ++ t)) as [user|e'] eqn:Huser; [|done].
    destruct (confirmed user) eqn:Hconfirmed; [|done].
    destruct (tokenManager_refreshToken _ _) as [[]|e']; [|done].
    intros [= <- <-]. split_and!; try done. by exists message, user.
  - intros message -> Hhub. rewrite Hrun. simpl. by rewrite Hhub.
  - intros message -> Hhub Hstale. rewrite Hrun. simpl.
    by rewrite Hhub, Hstale.
  - intros message user -> Hhub Hstale Huser Hconfirmed.
    rewrite Hrun. simpl. by rewrite Hhub, Hstale, Huser, Hconfirmed.
  - intros message e' -> Hhub Hstale Huser.
    rewrite Hrun. simpl. by rewrite Hhub, Hstale, Huser.
  - intros message user e' -> Hhub Hstale Huser Hconfirmed Hrefresh.
    rewrite Hrun. simpl. by rewrite Hhub, Hstale, Huser, Hconfirmed, Hrefresh.
Qed.

End SessionClaims.

Section FetchClaim.

Context `{!Platform, !Env}.

Lemma fetch_quiet_count t :
  Forall fetch_quiet t →
  count_if (invoked "RequestFetch") t = 0
  ∧ ∀ n, registered "SendItems" n t = n.
Proof.
  intros Ht. split.
  - eapply count_if_none; [|exact Ht]. by intros ? [].
  - intros n. apply registered_quiet.
    eapply Forall_impl; [exact Ht|]. by intros ? [].
Qed.

(** With a connection and a usable key the run gets to its request. *)
Lemma fetch_opens deviceId h t_cc key :
  checkConnection h = (Returned tt, t_cc) →
  user_getEncryptionKey (h ++ t_cc) = Returned key →
  usable key = true →
  ∃ r rest,
    fetch deviceId h
    = (r, t_cc ++ EvGetEncryptionKey :: opening deviceId ++ rest).
Proof.
  intros Hcc Hkey Husable. unfold fetch.
  rewrite (bind_run _ _ _ _ _ Hcc), bind_call, Hkey.
  destruct key as [key|]; [|done]. simpl in Husable.
  apply andb_true_iff in Husable as [-> ->]. cbn [negb orb].
  rewrite !bind_emit, bind_call. cbv beta iota.
  match goal with |- context [bind (receive ?s ?k ?c) ?f ?h0] =>
    destruct (bind (receive s k c) f h0) as [r rest] end.
  by exists r, rest.
Qed.

(** C8 (amended): a run of [fetch] either stops before it registers
    anything, making no [RequestFetch] invocation and leaving the
    handlers as they were; or it removes the handlers for ["SendItems"],
    registers its own and invokes [RequestFetch] exactly once, after
    which no handler is left if the run returns and its handler is left
    registered if the run throws. Which of the two it is, is decided
    before the request: when the connection check throws, the run throws
    the same error and has made no call but those of the check; when the
    check returns and the key lookup throws, the run throws that error;
    when the check returns and there is no usable encryption key, the
    run returns; in these three cases there is no request and no
    registration. When the check returns (a connection was there or was
    made, or a rejection that is no [Error] was swallowed) and the key
    is usable, the second case applies. *)
Theorem fetch_handler_lifecycle deviceId h r tr :
  fetch deviceId h = (r, tr) →
  ((count_if (invoked "RequestFetch") tr = 0
    ∧ ∀ n, registered "SendItems" n tr = n)
   ∨ (count_if (invoked "RequestFetch") tr = 1
      ∧ ∀ n, registered "SendItems" n tr
             = match r with Returned _ => 0 | Raised _ => 1 end))
  ∧ (∀ t_cc key,
       checkConnection h = (Returned tt, t_cc) →
       user_getEncryptionKey (h ++ t_cc) = Returned key →
       usable key = true →
       count_if (invoked "RequestFetch") tr = 1)
  ∧ (∀ t_cc key,
       checkConnection h = (Returned tt, t_cc) →
       user_getEncryptionKey (h ++ t_cc) = Returned key →
       usable key = false →
       r = Returned tt ∧ count_if (invoked "RequestFetch") tr = 0)
  ∧ (∀ e t_cc,
       checkConnection h = (Raised e, t_cc) →
       r = Raised e ∧ tr = t_cc
       ∧ count_if (invoked "RequestFetch") tr = 0
       ∧ ∀ n, registered "SendItems" n tr = n)
  ∧ (∀ t_cc e,
       checkConnection h = (Returned tt, t_cc) →
       user_getEncryptionKey (h ++ t_cc) = Raised e →
       r = Raised e ∧ tr = t_cc ++ [EvGetEncryptionKey]
       ∧ count_if (invoked "RequestFetch") tr = 0
       ∧ ∀ n, registered "SendItems" n tr = n)
  ∧ (∀ t_cc key,
       checkConnection h = (Returned tt, t_cc) →
       user_getEncryptionKey (h ++ t_cc) = Returned key →
       usable key = false →
       ∀ n, registered "SendItems" n tr = n)
  ∧ (0 < count_if (invoked "RequestFetch") tr →
     ∃ t_cc key,
       checkConnection h = (Returned tt, t_cc)
       ∧ user_getEncryptionKey (h ++ t_cc) = Returned key
       ∧ usable key = true).
Proof.
  intros Hrun.
  assert ((count_if (invoked "RequestFetch") tr = 0
           ∧ ∀ n, registered "SendItems" n tr = n)
          ∨ (count_if (invoked "RequestFetch") tr = 1
             ∧ ∀ n, registered "SendItems" n tr
                    = match r with Returned _ => 0 | Raised _ => 1 end))
    as Hcases.
  { destruct (fetch_shape _ _ _ _ Hrun)
      as [Hquiet|(pre & received & post & -> & Hpre & Hrecv & Hpost)].
    - left. by apply fetch_quiet_count.
    - right.
      destruct (fetch_quiet_count _ Hpre) as [Hpre1 Hpre2].
      destruct (fetch_quiet_count _ Hrecv) as [Hrecv1 Hrecv2].
      rewrite !count_if_app, Hpre1, Hrecv1.
      destruct Hpost as [(-> & setKey & -> & Hset)|((e & ->) & Hpost)].
      + destruct (fetch_quiet_count _ Hset) as [Hset1 Hset2].
        rewrite count_if_app, Hset1. split; [done|]. intros n.
        rewrite !registered_app, Hset2. done.
      + destruct (fetch_quiet_count _ Hpost) as [Hpost1 Hpost2].
        rewrite Hpost1. split; [done|]. intros n.
        rewrite !registered_app, Hpost2, Hrecv2. done. }
  assert (∀ t_cc key,
            checkConnection h = (Returned tt, t_cc) →
            user_getEncryptionKey (h ++ t_cc) = Returned key →
            usable key = false →
            r = Returned tt ∧ tr = t_cc ++ expiring) as Hunusable.
  { intros t_cc key Hcc Hkey Husable. unfold fetch in Hrun.
    rewrite (bind_run _ _ _ _ _ Hcc), bind_call, Hkey in Hrun.
    destruct key as [key|].
    - simpl in Husable. rewrite <- negb_true_iff, negb_andb in Husable.
      rewrite Husable in Hrun. by injection Hrun as <- <-.
    - by injection Hrun as <- <-. }
  assert (∀ t_cc t, checkConnection h = (Returned tt, t_cc) →
            Forall fetch_quiet t → Forall fetch_quiet (t_cc ++ t)) as Hquiet.
  { intros t_cc t Hcc Ht. apply Forall_app. split; [|done].
    by eapply checkConnection_fetch_quiet. }
  split_and!; [done|..].
  - intros t_cc key Hcc Hkey Husable.
    destruct (fetch_opens deviceId _ _ _ Hcc Hkey Husable)
      as (r' & rest & Hopen).
    rewrite Hrun in Hopen. injection Hopen as _ Htr.
    destruct Hcases as [[Hzero _]|[Hone _]]; [|done].
    assert (0 < count_if (invoked "RequestFetch") tr); [|lia].
    apply (count_if_elem _ _
             (EvConnectionInvoke "RequestFetch" [ArgString deviceId]));
      [|done].
    rewrite Htr. apply elem_of_app. right. do 3 right. left.
  - intros t_cc key Hcc Hkey Husable.
    destruct (Hunusable _ _ Hcc Hkey Husable) as [-> ->].
    split; [done|]. apply fetch_quiet_count, Hquiet; [done|].
    by repeat constructor.
  - intros e t_cc Hcc. unfold fetch, bind in Hrun. rewrite Hcc in Hrun.
    injection Hrun as <- <-. split; [done|]. split; [done|].
    apply fetch_quiet_count. by eapply checkConnection_fetch_quiet.
  - intros t_cc e Hcc Hkey. unfold fetch in Hrun.
    rewrite (bind_run _ _ _ _ _ Hcc), bind_call, Hkey in Hrun.
    injection Hrun as <- <-. split; [done|]. split; [done|].
    apply fetch_quiet_count, Hquiet; [done|]. by repeat constructor.
  - intros t_cc key Hcc Hkey Husable.
    destruct (Hunusable _ _ Hcc Hkey Husable) as [-> ->].
    apply fetch_quiet_count, Hquiet; [done|]. by repeat constructor.
  - intros Hcount.
    destruct (checkConnection h) as [[[]|e] t_cc] eqn:Hcc.
    2: { unfold fetch, bind in Hrun. rewrite Hcc in Hrun.
         injection Hrun as <- <-.
         assert (count_if (invoked "RequestFetch") t_cc = 0); [|lia].
         apply fetch_quiet_count. by eapply checkConnection_fetch_quiet. }
    destruct (user_getEncryptionKey (h ++ t_cc)) as [key|e] eqn:Hkey.
    2: { unfold fetch in Hrun.
         rewrite (bind_run _ _ _ _ _ Hcc), bind_call, Hkey in Hrun.
         injection Hrun as <- <-.
         assert (count_if (invoked "RequestFetch")
                   (t_cc ++ [EvGetEncryptionKey]) = 0); [|lia].
         apply fetch_quiet_count, Hquiet; [done|]. by repeat constructor. }
    exists t_cc, key. split; [done|]. split; [done|].
    destruct (usable key) eqn:Husable; [done|].
    destruct (Hunusable _ _ eq_refl Hkey Husable) as [-> ->].
    assert (count_if (invoked "RequestFetch") (t_cc ++ expiring) = 0);
      [|lia].
    apply fetch_quiet_count, Hquiet; [done|]. by repeat constructor.
Qed.

End FetchClaim.

Lemma download_progress_counts_delivered_witness :
  ∃ tr,
    @onSendItems sample_platform quiet_env sample_key 0
      (batch_of "settings" [plain_note; plain_topic]) []
    = (Returned (true, 2), tr)
    ∧ downloads tr = [2] ∧ persisted tr = 0.
Proof.
  set (run := @onSendItems sample_platform quiet_env sample_key 0
                (batch_of "settings" [plain_note; plain_topic]) []).
  assert (run = (Returned (true, 2), run.2)) as Hrun
    by (vm_compute; reflexivity).
  exists run.2. split; [exact Hrun|].
  destruct (@download_progress_counts_delivered sample_platform quiet_env
              sample_key 0 (batch_of "settings" [plain_note; plain_topic])
              [] 2 run.2 Hrun) as (_ & Hdown & _ & Hsettings & _).
  split; [exact Hdown|]. exact (Hsettings eq_refl).
Defined.

(** A whole fetch: two items are delivered and one of them is dropped,
    then two settings items are delivered and skipped. The progress
    reports say 2 and 4; one item is written. *)
Example fetch_reports_more_than_it_persists :
  let tr := (@fetch sample_platform streaming_env "device-1" []).2 in
  downloads tr = [2; 4] ∧ persisted tr = 1.
Proof. vm_compute. done. Qed.

(** C5, as stated, fails: the caller of [checkConnection] gets the
    generic message, not the timeout message. *)
Lemma timeout_message_is_not_delivered :
  ¬ (∀ (E : Env) h,
       connection_state h ≠ Connected →
       late (connection_start (h ++ stopping h)) →
       ∃ tr, checkConnection h
             = (Raised (ErrorObj "Sync timed out in 30000ms."), tr)).
Proof.
  intros Hclaim.
  destruct (Hclaim unreachable_env [] ltac:(done) I) as [tr Hrun].
  vm_compute in Hrun. discriminate.
Qed.

Lemma connect_timeout_witness :
  ∃ tr,
    @checkConnection unreachable_env []
    = (Raised
         (ErrorObj "Could not connect to the Sync server. Please try again."),
       tr)
    ∧ count_if (λ ev, if ev is EvConnectionStart then true else false) tr = 1
    ∧ EvLog Warn "Sync timed out in 30000ms." ∈ tr.
Proof.
  exact (proj2 (@connect_timeout unreachable_env []
                  ltac:(done) (λ _, eq_refl) I)).
Defined.

(** C4, as stated, fails: a HubException whose text is "Invalid token."
    and says nothing about email confirmation is recovered from as
    well. *)
Lemma invalid_token_is_recovered :
  ¬ (∀ (P : Platform) (E : Env) options h tr,
       SyncManager_start options h = (Returned false, tr) →
       ∃ message t,
         start_body options h = (Raised (ErrorObj message), t)
         ∧ includes "Please confirm your email " (errorText_of message)
           = true).
Proof.
  intros Hclaim.
  destruct (Hclaim sample_platform invalid_token_env send_options []
              (@SyncManager_start sample_platform invalid_token_env
                 send_options []).2
              ltac:(vm_compute; reflexivity))
    as (message & t & Hbody & Htext).
  vm_compute in Hbody. injection Hbody as <- _.
  vm_compute in Htext. discriminate.
Qed.

Lemma start_recovery_witness :
  ∃ t,
    @SyncManager_start sample_platform invalid_token_env send_options []
    = (Returned false, t ++ [EvGetUser; EvRefreshToken true]).
Proof.
  set (body := @start_body sample_platform invalid_token_env send_options []).
  assert (body
          = (Raised (ErrorObj
               ("An unexpected error occurred invoking 'PushItems' on the server. "
                +:+ "HubException: Invalid token.")), body.2)) as Hbody
    by (vm_compute; reflexivity).
  exists body.2.
  exact (proj1 (@start_recovery sample_platform invalid_token_env
                  send_options [] _ body.2 Hbody)
           _ (Some {| isEmailConfirmed := true |}) eq_refl
           ltac:(vm_compute; reflexivity) ltac:(vm_compute; reflexivity)
           eq_refl eq_refl eq_refl).
Defined.

(** A connect attempt rejected with a value that is no [Error] is
    swallowed by the connection check: the fetch goes on, registers its
    handler and makes its request, although no connection was made. *)
Example swallowed_rejection_fetches :
  let run := @fetch sample_platform odd_rejection_env "device-1" [] in
  run.1 = Returned tt
  ∧ count_if is_start run.2 = 1
  ∧ count_if (invoked "RequestFetch") run.2 = 1.
Proof. vm_compute. done. Qed.

(** C8, as stated, fails: when [RequestFetch] is rejected, the run ends
    with its handler still registered. *)
Lemma failed_fetch_leaves_handler :
  ¬ (∀ (P : Platform) (E : Env) deviceId h r tr,
       fetch deviceId h = (r, tr) →
       count_if (invoked "RequestFetch") tr = 1
       ∧ ∀ n, registered "SendItems" n tr = 0).
Proof.
  intros Hclaim.
  destruct (Hclaim sample_platform failing_fetch_env "device-1" [] _ _
              eq_refl) as [_ Hregistered].
  specialize (Hregistered 0). vm_compute in Hregistered. discriminate.
Qed.

Lemma fetch_handler_lifecycle_witness :
  ∃ tr,
    @fetch sample_platform quiet_env "device-1" [] = (Returned tt, tr)
    ∧ count_if (invoked "RequestFetch") tr = 1
    ∧ registered "SendItems" 0 tr = 0.
Proof.
  set (run := @fetch sample_platform quiet_env "device-1" []).
  assert (run = (Returned tt, run.2)) as Hrun by (vm_compute; reflexivity).
  exists run.2. split; [exact Hrun|].
  destruct (@fetch_handler_lifecycle sample_platform quiet_env "device-1" []
              (Returned tt) run.2 Hrun) as ([[Hzero _]|[Hone Hreg]] & _).
  - vm_compute in Hzero. discriminate.
  - split; [exact Hone|exact (Hreg 0)].
Defined.

(** * Further properties *)

(** ** The connection *)

Section ConnectionFacts.

Context `{!Env}.

(** [checkConnection], case by case *)
Lemma checkConnection_run h :
  checkConnection h =
    if bool_decide (connection_state h = Connected) then (Returned tt, [])
    else
      match (if bool_decide (connection_state h ≠ Disconnected)
             then connection_stop h else Returned tt) with
      | Raised e => connection_failure e (stopping h)
      | Returned _ =>
          match promiseTimeout 30000 (connection_start (h ++ stopping h)) with
          | Returned _ => (Returned tt, stopping h ++ [EvConnectionStart])
          | Raised e =>
              connection_failure e (stopping h ++ [EvConnectionStart])
          end
      end.
Proof.
  unfold checkConnection, try_catch. rewrite bind_read.
  destruct (decide (connection_state h = Connected)) as [Hconnected|Hconnected].
  { rewrite bool_decide_false by (by intros []).
    by rewrite bool_decide_true by done. }
  rewrite bool_decide_true by done. rewrite (bool_decide_false _ Hconnected).
  rewrite bind_read. unfold stopping.
  case_bool_decide as Hdisconnected.
  - rewrite bind_call. destruct (connection_stop h) as [[]|e].
    + rewrite bind_call. cbv beta iota. rewrite lift_run.
      destruct (promiseTimeout _ _) as [[]|[message|]]; done.
    + by destruct e.
  - rewrite bind_ret, bind_call. cbv beta iota. rewrite lift_run, app_nil_r.
    destruct (promiseTimeout _ _) as [[]|[message|]]; done.
Qed.

(** X1: whatever goes wrong while connecting, the only thing
    [checkConnection] throws is the generic "Could not connect to the
    Sync server. Please try again."; the message of the underlying
    [Error] is what it logs as a warning, as its last call. *)
Theorem checkConnection_throws_generic h e t :
  checkConnection h = (Raised e, t) →
  e = ErrorObj "Could not connect to the Sync server. Please try again."
  ∧ ∃ message t',
      t = t' ++ [EvConsoleError (ErrorObj message); EvLog Warn message].
Proof.
  rewrite checkConnection_run. case_bool_decide; [done|].
  destruct (if bool_decide _ then _ else _) as [[]|[message|]].
  - destruct (promiseTimeout _ _) as [[]|[message|]]; [done| |done].
    intros [= <- <-]. split; [done|]. eauto.
  - intros [= <- <-]. split; [done|]. eauto.
  - done.
Qed.

(** X2: when the connection is connected [checkConnection] makes no
    call at all; otherwise it makes at most one [stop] (none when the
    connection is disconnected) and at most one [start], however the
    run ends. *)
Theorem checkConnection_single_attempt h r t :
  checkConnection h = (r, t) →
  count_if is_start t ≤ 1
  ∧ count_if is_stop t ≤ 1
  ∧ (connection_state h = Connected → r = Returned tt ∧ t = [])
  ∧ (connection_state h = Disconnected → count_if is_stop t = 0).
Proof.
  rewrite checkConnection_run. unfold stopping.
  case_bool_decide as Hconnected.
  { intros [= <- <-]. split_and!; try done; unfold count_if; simpl; lia. }
  assert (∀ e t0 r0 t1,
            connection_failure e t0 = (r0, t1) →
            count_if is_start t1 = count_if is_start t0
            ∧ count_if is_stop t1 = count_if is_stop t0) as Hfail.
  { intros e t0 r0 t1. destruct e; intros [= <- <-];
      rewrite !count_if_app; unfold count_if; simpl; lia. }
  assert (∀ r0 t1,
            (r0, t1) = (r, t) →
            count_if is_start t1 ≤ 1 → count_if is_stop t1 ≤ 1 →
            (connection_state h = Disconnected → count_if is_stop t1 = 0) →
            count_if is_start t ≤ 1 ∧ count_if is_stop t ≤ 1
            ∧ (connection_state h = Connected → r = Returned tt ∧ t = [])
            ∧ (connection_state h = Disconnected → count_if is_stop t = 0))
    as Hdone.
  { intros r0 t1 [= <- <-]. done. }
  case_bool_decide as Hdisconnected;
    [destruct (connection_stop h) as [[]|e]|];
    try destruct (promiseTimeout _ _) as [[]|e];
    try (destruct (connection_failure _ _) as [r1 t1] eqn:Hf;
         destruct (Hfail _ _ _ _ Hf) as [H1 H2]);
    intros Hrun; (eapply Hdone; [exact Hrun|..]);
    rewrite ?H1, ?H2; try (intros ?; congruence);
    try (intros _); unfold count_if; simpl; lia.
Qed.

(** X3: a connect attempt that settles within the 30000 ms decides the
    run: when it is fulfilled [checkConnection] returns; when it is
    rejected with an [Error], [checkConnection] throws the generic error
    and logs the rejection's message. *)
Theorem checkConnection_settled_in_time h at_ms o :
  connection_state h ≠ Connected →
  (connection_state h ≠ Disconnected → connection_stop h = Returned tt) →
  connection_start (h ++ stopping h) = Settles at_ms o →
  (at_ms ≤ 30000)%Z →
  (o = Returned tt →
   checkConnection h = (Returned tt, stopping h ++ [EvConnectionStart]))
  ∧ (∀ message,
       o = Raised (ErrorObj message) →
       checkConnection h
       = (Raised could_not_connect,
          stopping h ++ [EvConnectionStart; EvConsoleError (ErrorObj message);
                         EvLog Warn message])).
Proof.
  intros Hstate Hstop Hstart Hin_time. rewrite checkConnection_run, Hstart.
  rewrite bool_decide_false by done. simpl.
  rewrite (bool_decide_true (at_ms ≤ 30000)%Z) by done.
  assert ((if bool_decide (connection_state h ≠ Disconnected)
           then connection_stop h else Returned tt) = Returned tt) as ->.
  { case_bool_decide; [by apply Hstop|done]. }
  split; [by intros ->|].
  intros message ->. simpl. by rewrite <- app_assoc.
Qed.

(** X4: a connect attempt rejected in time with a value that is not an
    [Error] is swallowed: [checkConnection] prints it and returns as if
    the connection had been made. *)
Theorem checkConnection_swallows_non_error h at_ms :
  connection_state h ≠ Connected →
  (connection_state h ≠ Disconnected → connection_stop h = Returned tt) →
  connection_start (h ++ stopping h) = Settles at_ms (Raised NonError) →
  (at_ms ≤ 30000)%Z →
  checkConnection h
  = (Returned tt,
     stopping h ++ [EvConnectionStart; EvConsoleError NonError]).
Proof.
  intros Hstate Hstop Hstart Hin_time. rewrite checkConnection_run, Hstart.
  rewrite bool_decide_false by done. simpl.
  rewrite (bool_decide_true (at_ms ≤ 30000)%Z) by done.
  assert ((if bool_decide (connection_state h ≠ Disconnected)
           then connection_stop h else Returned tt) = Returned tt) as ->.
  { case_bool_decide; [by apply Hstop|done]. }
  simpl. by rewrite <- app_assoc.
Qed.

End ConnectionFacts.

Lemma checkConnection_throws_generic_witness :
  ∃ t message t',
    @checkConnection unreachable_env [] = (Raised could_not_connect, t)
    ∧ t = t' ++ [EvConsoleError (ErrorObj message); EvLog Warn message].
Proof.
  set (run := @checkConnection unreachable_env []).
  assert (run = (Raised could_not_connect, run.2)) as Hrun
    by (vm_compute; reflexivity).
  destruct (@checkConnection_throws_generic unreachable_env [] _ run.2 Hrun)
    as (_ & message & t' & Ht).
  exists run.2, message, t'. split; [exact Hrun|exact Ht].
Defined.

Lemma checkConnection_single_attempt_witness :
  ∃ r t,
    @checkConnection unreachable_env [] = (r, t)
    ∧ count_if is_start t ≤ 1 ∧ count_if is_stop t = 0.
Proof.
  set (run := @checkConnection unreachable_env []).
  exists run.1, run.2.
  destruct (@checkConnection_single_attempt unreachable_env [] run.1 run.2
              (surjective_pairing run)) as (Hstart & _ & _ & Hstop).
  split; [exact (surjective_pairing run)|]. split; [exact Hstart|exact (Hstop eq_refl)].
Defined.

Lemma checkConnection_settled_in_time_witness :
  @checkConnection reconnecting_env [] = (Returned tt, [EvConnectionStart]).
Proof.
  exact (proj1 (@checkConnection_settled_in_time reconnecting_env [] 120
                  (Returned tt) ltac:(done) (λ _, eq_refl) eq_refl
                  ltac:(done))
           eq_refl).
Defined.

Lemma checkConnection_swallows_non_error_witness :
  @checkConnection odd_rejection_env []
  = (Returned tt, [EvConnectionStart; EvConsoleError NonError]).
Proof.
  exact (@checkConnection_swallows_non_error odd_rejection_env [] 5
           ltac:(done) (λ _, eq_refl) eq_refl ltac:(done)).
Defined.

(** ** What each step calls *)

Section Alphabets.

Context `{!Platform, !Env}.

Lemma fetch_emits deviceId : emits fetch_calls (fetch deviceId).
Proof.
  assert (∀ chunk key, emits fetch_calls (processChunk chunk key)) as Hchunk.
  { intros. unfold processChunk.
    case_bool_decide; [apply emits_ret|].
    apply emits_bind; [by apply emits_call|]. intros decrypted.
    apply emits_bind.
    { apply emits_mapM. intros i x. apply emits_bind; [apply emits_lift|].
      intros version. eapply emits_weaken; [|apply deserializeItem_emits].
      by intros []. }
    intros results. apply emits_bind; [apply emits_lift|]. intros collection.
    apply emits_bind; [by apply emits_call|]. intros localItems.
    apply emits_bind.
    { repeat case_bool_decide; apply emits_mapM; intros i x;
        by apply emits_call. }
    intros merged. apply emits_bind; [|intros; by apply emits_call].
    apply emits_if; [|apply emits_ret].
    apply emits_forEach. intros x. apply emits_emit. simpl. by right. }
  assert (∀ stream key count, emits fetch_calls (receive stream key count))
    as Hreceive.
  { intros stream key. induction stream as [|chunk next IH]; intros count.
    - apply emits_lift.
    - simpl. apply emits_bind.
      + apply emits_attempt. unfold onSendItems.
        apply emits_bind; [apply emits_read|]. intros state.
        apply emits_if; [apply emits_ret|].
        apply emits_bind; [apply Hchunk|]. intros _.
        repeat emits_step; done.
      + intros [[ack count']|e]; apply IH. }
  unfold fetch.
  apply emits_bind; [by apply checkConnection_emits; simpl; auto|].
  intros _. apply emits_bind; [by apply emits_call|]. intros key.
  assert (emits fetch_calls
            (emit (EvLog Error
                     "User encryption key not generated. Please relogin.");;
             emit (EvPublish userSessionExpired []))) as Hexpired.
  { apply emits_bind; [apply emits_emit; simpl; auto|].
    intros _. apply emits_emit. simpl. auto. }
  destruct key as [key|]; [|done].
  apply emits_if; [done|].
  apply emits_bind; [by apply emits_emit|]. intros _.
  apply emits_bind; [by apply emits_emit|]. intros _.
  apply emits_bind; [by apply emits_call|]. intros stream.
  apply emits_bind; [apply Hreceive|]. intros serverResponse.
  apply emits_bind; [|intros; by apply emits_emit].
  destruct (vaultKey serverResponse); [|apply emits_ret].
  apply emits_if; [by apply emits_call|apply emits_ret].
Qed.

Lemma send_emits deviceId isForceSync :
  emits send_calls (send deviceId isForceSync).
Proof.
  assert (emits send_calls checkConnection) as Hcc
    by by apply checkConnection_emits.
  assert (∀ batches init done,
            emits send_calls (send_loop batches deviceId init done)) as Hloop.
  { induction batches as [| |item next IH]; intros init done; simpl.
    - apply emits_ret.
    - apply emits_throw.
    - apply emits_bind.
      { apply emits_if; [|apply emits_ret].
        apply emits_bind; [by apply emits_call|]. intros vaultKey.
        apply emits_call. simpl. auto. }
      intros _. apply emits_bind.
      { unfold pushItem. apply emits_bind; [done|]. intros _.
        apply emits_bind; [by apply emits_call|]. intros; apply emits_ret. }
      intros result. apply emits_bind.
      { destruct result; repeat emits_step; done. }
      intros done'. intros h r t. rewrite bind_read. apply IH. }
  unfold send, uploadAttachments.
  apply emits_bind; [repeat emits_step; done|]. intros _.
  apply emits_bind; [by apply emits_call|]. intros batches.
  apply emits_bind; [apply Hloop|]. intros b.
  apply emits_if; [apply emits_ret|].
  apply emits_bind; [|intros; apply emits_ret].
  apply emits_call. simpl. auto.
Qed.

Lemma init_emits isForceSync : emits init_calls (init isForceSync).
Proof.
  unfold init.
  apply emits_bind; [by apply checkConnection_emits|]. intros _.
  repeat emits_step; done.
Qed.

End Alphabets.

(** ** The session *)

Section SessionFacts.

Context `{!Platform, !Env}.

Lemma init_calls_not_final ev : init_calls ev → is_final ev = false.
Proof. by destruct ev. Qed.

Lemma fetch_calls_not_final ev : fetch_calls ev → is_final ev = false.
Proof. destruct ev; try done. simpl. by intros [-> | ->]. Qed.

Lemma send_calls_not_final ev : send_calls ev → is_final ev = false.
Proof. by destruct ev. Qed.

Lemma fetch_calls_not_send_side ev : fetch_calls ev → send_side ev = false.
Proof. destruct ev; try done; simpl; by intros ->. Qed.

Lemma send_calls_not_fetch_side ev : send_calls ev → fetch_side ev = false.
Proof. destruct ev; try done; simpl; by intros ->. Qed.

Lemma reregistering_run isForceSync h t :
  (if default false isForceSync then
     call EvDevicesUnregister devices_unregister;;
     call EvDevicesRegister devices_register
   else ret tt) h = (Returned tt, t) →
  t = reregistering isForceSync.
Proof.
  unfold reregistering. destruct (default false isForceSync).
  - rewrite bind_call. destruct (devices_unregister h); [|done].
    unfold call. by intros [= _ <-].
  - by intros [= <-].
Qed.

(** X5: the device id [init] returns is never empty, and it is what
    the last call of the run, a lookup in the device registry,
    answered. *)
Theorem init_device_id isForceSync h deviceId t :
  init isForceSync h = (Returned deviceId, t) →
  deviceId ≠ ""
  ∧ ∃ t', t = t' ++ [EvDevicesGet]
          ∧ devices_get (h ++ t') = Returned (Some deviceId).
Proof.
  unfold init.
  intros ([] & t_cc & t1 & Hcc & Hrun & ->)%bind_Returned.
  apply bind_Returned in Hrun as ([] & t_f & t2 & Hforce & Hrun & ->).
  rewrite bind_call in Hrun.
  destruct (devices_get ((h ++ t_cc) ++ t_f)) as [stored|] eqn:Hget; [|done].
  match type of Hrun with (let '(_, _) := ?m in _) = _ =>
    destruct m as [r' t3] eqn:Hrest end.
  injection Hrun as -> <-.
  apply bind_Returned in Hrest as (final & t4 & t5 & Hsecond & Hfinal & ->).
  assert (deviceId ≠ "" ∧ final = Some deviceId ∧ t5 = []) as (Hne & -> & ->).
  { destruct final as [d|]; [|done]. revert Hfinal.
    case_bool_decide; [done|]. by intros [= -> <-]. }
  split; [done|].
  destruct (negb (string_truthy stored)).
  - rewrite bind_call in Hsecond.
    destruct (devices_register _); [|done].
    injection Hsecond as Hagain <-.
    exists (t_cc ++ t_f ++ [EvDevicesGet; EvDevicesRegister]).
    rewrite app_nil_r. split; [by rewrite <- !app_assoc|].
    rewrite <- Hagain. f_equal. by rewrite <- !app_assoc.
  - injection Hsecond as -> <-. exists (t_cc ++ t_f).
    rewrite app_nil_r. split; [by rewrite <- !app_assoc|].
    rewrite <- Hget. f_equal. by rewrite <- !app_assoc.
Qed.

(** X6: a run of [init] that returns has checked the connection, then,
    only when the sync is forced, unregistered and registered the
    device, then looked the device up; it registers the device (again)
    and looks it up a second time exactly when the first lookup gave no
    id or an empty one. *)
Theorem init_registers_on_demand isForceSync h deviceId t :
  init isForceSync h = (Returned deviceId, t) →
  ∃ t_cc stored,
    checkConnection h = (Returned tt, t_cc)
    ∧ devices_get (h ++ t_cc ++ reregistering isForceSync) = Returned stored
    ∧ t = t_cc ++ reregistering isForceSync
          ++ EvDevicesGet
             :: (if string_truthy stored then []
                 else [EvDevicesRegister; EvDevicesGet]).
Proof.
  unfold init.
  intros ([] & t_cc & t1 & Hcc & Hrun & ->)%bind_Returned.
  apply bind_Returned in Hrun as ([] & t_f & t2 & Hforce & Hrun & ->).
  apply reregistering_run in Hforce as ->.
  rewrite bind_call in Hrun.
  destruct (devices_get _) as [stored|] eqn:Hget; [|done].
  match type of Hrun with (let '(_, _) := ?m in _) = _ =>
    destruct m as [r' t3] eqn:Hrest end.
  injection Hrun as -> <-.
  exists t_cc, stored. split; [done|].
  rewrite <- app_assoc in Hget. split; [done|].
  apply bind_Returned in Hrest as (final & t4 & t5 & Hsecond & Hfinal & ->).
  assert (t5 = []) as ->.
  { destruct final as [d|]; [|done]. revert Hfinal.
    case_bool_decide; [done|]. by intros [= _ <-]. }
  rewrite app_nil_r. do 2 f_equal.
  destruct (string_truthy stored); cbn [negb] in Hsecond.
  - by injection Hsecond as _ <-.
  - rewrite bind_call in Hsecond. destruct (devices_register _); [|done].
    by injection Hsecond as _ <-.
Qed.

(** X7: when the registry still has no id for the device (none at all,
    or an empty one) after [init] has registered it, [init] throws
    "Sync device not registered.", having looked the device up twice. *)
Theorem init_not_registered isForceSync h t_cc stored again :
  checkConnection h = (Returned tt, t_cc) →
  default false isForceSync = false →
  devices_get (h ++ t_cc) = Returned stored →
  string_truthy stored = false →
  devices_register (h ++ t_cc ++ [EvDevicesGet]) = Returned tt →
  devices_get (h ++ t_cc ++ [EvDevicesGet; EvDevicesRegister])
  = Returned again →
  string_truthy again = false →
  init isForceSync h
  = (Raised not_registered,
     t_cc ++ [EvDevicesGet; EvDevicesRegister; EvDevicesGet]).
Proof.
  intros Hcc Hforce Hget Hstored Hregister Hagain Hempty. unfold init.
  rewrite (bind_run _ _ _ _ _ Hcc), Hforce, bind_ret, bind_call, Hget.
  rewrite Hstored. cbn [negb].
  rewrite bind_assoc, bind_call, <- app_assoc, Hregister.
  rewrite bind_call, <- !app_assoc. simpl. rewrite Hagain.
  destruct again as [d|]; [|done].
  simpl in Hempty. apply negb_false_iff in Hempty.
  by rewrite Hempty.
Qed.

Lemma Sync_stop_returns h t :
  Sync_stop h = (Returned tt, t) →
  t = finishing
        (Date_now (h ++ [EvMonographsRefresh; EvLog Info "Stopping sync"])).
Proof.
  unfold Sync_stop. rewrite bind_call.
  destruct (monographs_refresh h); [|done].
  rewrite bind_emit, bind_read, bind_call, <- !app_assoc. simpl.
  destruct (storage_write _ _ _); [|done]. by intros [= <-].
Qed.

Lemma Sync_start_emits options :
  emits (start_calls options) (Sync_start options).
Proof.
  assert (∀ ev, session_calls ev → start_calls options ev) as Hown
    by (intros; by left).
  unfold Sync_start.
  apply emits_bind; [by apply emits_call, Hown|]. intros enabled.
  apply emits_if; [by apply emits_call, Hown|].
  apply emits_bind; [by apply emits_call, Hown|]. intros user.
  apply emits_if; [apply emits_ret|].
  apply emits_bind; [by apply emits_emit, Hown|]. intros _.
  apply emits_bind; [by apply emits_emit, Hown|]. intros _.
  apply emits_bind.
  { eapply emits_weaken; [|apply init_emits]. intros ev ?. right. by left. }
  intros deviceId.
  apply emits_bind; [by apply emits_emit, Hown|]. intros _.
  apply emits_bind.
  { destruct (sync_type options) eqn:Htype; [| |apply emits_ret].
    all: apply emits_bind; [|intros; by apply emits_emit, Hown].
    all: eapply emits_weaken; [|apply fetch_emits].
    all: intros ev ?; do 2 right; left; split; [congruence|done]. }
  intros _. apply emits_bind.
  { destruct (sync_type options) eqn:Htype; [|apply emits_ret|].
    all: apply emits_bind;
      [|intros []; [by apply emits_emit, Hown|apply emits_ret]].
    all: eapply emits_weaken; [|apply send_emits].
    all: intros ev ?; do 3 right; split; [congruence|done]. }
  intros _. apply emits_bind.
  { unfold Sync_stop. repeat emits_step; by apply Hown. }
  intros _. apply emits_bind; [by apply emits_call, Hown|]. intros enabled'.
  apply emits_if; [by apply emits_call, Hown|apply emits_ret].
Qed.

(** X8: a sync of type ["fetch"] makes none of the calls of sending (no
    attachment upload, no collector, no push traffic), and a sync of type
    ["send"] makes none of the calls of fetching (no handler, no
    [RequestFetch], no key, no decryption, migration, merge or store),
    however the run ends. *)
Theorem start_keeps_to_its_type options h r t :
  Sync_start options h = (r, t) →
  (sync_type options = type_fetch → Forall (λ ev, send_side ev = false) t)
  ∧ (sync_type options = type_send → Forall (λ ev, fetch_side ev = false) t).
Proof.
  intros Hrun%Sync_start_emits. split; intros Htype.
  all: eapply Forall_impl; [exact Hrun|].
  all: intros ev [Hev|[Hev|[[Hty Hev]|[Hty Hev]]]]; try congruence.
  all: try (by destruct ev).
  - by apply fetch_calls_not_send_side.
  - by apply send_calls_not_fetch_side.
Qed.

(** X9: a run of [Sync.start] that gets past its two gates and returns
    ends with the four calls of [stop] (monograph refresh, the log line,
    the [lastSynced] write, the [syncCompleted] publication) followed by
    the auto-sync check and, when auto-sync is off, the closing of the
    connection; nothing before them writes to storage or publishes
    [syncCompleted]. *)
Theorem start_finishes options h t user :
  Sync_start options h = (Returned tt, t) →
  checkSyncStatus h sync = Returned true →
  user_getUser (h ++ [EvCheckSyncStatus sync]) = Returned (Some user) →
  ∃ work now closing,
    t = work ++ finishing now ++ EvCheckSyncStatus autoSync :: closing
    ∧ Forall (λ ev, is_final ev = false) work
    ∧ (closing = [] ∨ closing = [EvConnectionStop]).
Proof.
  intros Hrun Hstatus Huser. unfold Sync_start in Hrun.
  rewrite bind_call, Hstatus in Hrun. cbn [negb] in Hrun.
  rewrite bind_call, Huser in Hrun.
  rewrite bool_decide_true in Hrun by eauto. cbn [negb] in Hrun.
  rewrite !bind_emit in Hrun.
  match type of Hrun with context [bind (init ?f) ?k ?h0] =>
    destruct (bind (init f) k h0) as [r0 t0] eqn:Hrest end.
  injection Hrun as -> <-.
  apply bind_Returned in Hrest as (deviceId & t_init & t1 & Hinit & Hrest & ->).
  apply init_emits in Hinit.
  rewrite bind_emit in Hrest.
  match type of Hrest with (let '(_, _) := ?m in _) = _ =>
    destruct m as [r1 t2] eqn:Hrest' end.
  injection Hrest as -> <-.
  apply bind_Returned in Hrest' as ([] & t_fetch & t3 & Hfetch & Hrest & ->).
  apply bind_Returned in Hrest as ([] & t_send & t4 & Hsend & Hrest & ->).
  apply bind_Returned in Hrest as ([] & t_stop & t5 & Hstop & Hrest & ->).
  apply Sync_stop_returns in Hstop as ->.
  rewrite bind_call in Hrest.
  destruct (checkSyncStatus _ autoSync) as [enabled|]; [|done].
  match type of Hrest with (let '(_, _) := ?m in _) = _ =>
    destruct m as [r2 closing] eqn:Hclose end.
  injection Hrest as -> <-.
  eexists ([EvCheckSyncStatus sync; EvGetUser; EvLog Info "Starting sync";
            EvConnectionOnClose] ++ t_init
           ++ EvLog Info "Initialized sync" :: t_fetch ++ t_send), _, closing.
  split_and!.
  - cbn [app]. rewrite <- ?app_assoc. cbn [app]. do 5 f_equal.
    rewrite <- ?app_assoc. reflexivity.
  - repeat (apply Forall_app; split); try by repeat constructor.
    + eapply Forall_impl; [exact Hinit|]. apply init_calls_not_final.
    + constructor; [done|]. apply Forall_app. split.
      * destruct (sync_type options); [| |by injection Hfetch as <-].
        all: apply bind_Returned in Hfetch
               as ([] & t6 & t7 & Hfetch%fetch_emits & [= <-] & ->).
        all: apply Forall_app; split; [|by repeat constructor].
        all: eapply Forall_impl; [exact Hfetch|apply fetch_calls_not_final].
      * destruct (sync_type options); [|by injection Hsend as <-|].
        all: apply bind_Returned in Hsend
               as (sent & t6 & t7 & Hsend%send_emits & Hlog & ->).
        all: apply Forall_app; split;
               [eapply Forall_impl; [exact Hsend|apply send_calls_not_final]|].
        all: destruct sent; injection Hlog as <-; by repeat constructor.
  - destruct enabled; cbn [negb] in Hclose.
    + left. by injection Hclose as <-.
    + right. unfold call in Hclose. by injection Hclose as _ <-.
Qed.

Lemma Sync_start_gate_closed options h :
  checkSyncStatus h sync = Returned false →
  Sync_start options h
  = (connection_stop (h ++ [EvCheckSyncStatus sync]),
     [EvCheckSyncStatus sync; EvConnectionStop]).
Proof. intros Hstatus. unfold Sync_start. by rewrite bind_call, Hstatus. Qed.

Lemma Sync_start_no_user options h :
  checkSyncStatus h sync = Returned true →
  user_getUser (h ++ [EvCheckSyncStatus sync]) = Returned None →
  Sync_start options h = (Returned tt, [EvCheckSyncStatus sync; EvGetUser]).
Proof.
  intros Hstatus Huser. unfold Sync_start.
  rewrite bind_call, Hstatus. cbn [negb]. by rewrite bind_call, Huser.
Qed.

(** X10: [SyncManager.start] reports [true] although nothing was
    synchronized when sync is disabled (it then only closes the
    connection) and when no user is logged in; in both cases it makes no
    call on the device registry, the hub or the store. *)
Theorem start_without_sync options h :
  autoSync_start h = Returned tt →
  (checkSyncStatus (h ++ [EvAutoSyncStart]) sync = Returned false →
   connection_stop (h ++ [EvAutoSyncStart; EvCheckSyncStatus sync])
   = Returned tt →
   SyncManager_start options h
   = (Returned true,
      [EvAutoSyncStart; EvCheckSyncStatus sync; EvConnectionStop]))
  ∧ (checkSyncStatus (h ++ [EvAutoSyncStart]) sync = Returned true →
     user_getUser (h ++ [EvAutoSyncStart; EvCheckSyncStatus sync])
     = Returned None →
     SyncManager_start options h
     = (Returned true, [EvAutoSyncStart; EvCheckSyncStatus sync; EvGetUser])).
Proof.
  intros Hauto. rewrite SyncManager_start_run. unfold start_body.
  rewrite bind_call, Hauto.
  replace (h ++ [EvAutoSyncStart; EvCheckSyncStatus sync])
    with ((h ++ [EvAutoSyncStart]) ++ [EvCheckSyncStatus sync])
    by by rewrite <- app_assoc.
  split.
  - intros Hstatus Hstop.
    pose proof (Sync_start_gate_closed options _ Hstatus) as Hrun.
    rewrite Hstop in Hrun. by rewrite (bind_run _ _ _ _ _ Hrun).
  - intros Hstatus Huser.
    by rewrite (bind_run _ _ _ _ _ (Sync_start_no_user options _ Hstatus Huser)).
Qed.

(** X11: a value thrown in the [try] block of [SyncManager.start] that
    is not an [Error] makes the handler itself fail: [start] throws a
    [TypeError] and makes no further call. *)
Theorem start_non_error options h t :
  start_body options h = (Raised NonError, t) →
  SyncManager_start options h = (Raised TypeError, t).
Proof. intros Hbody. by rewrite SyncManager_start_run, Hbody. Qed.

(** X12: [acquireLock] stops auto-sync first, runs the callback, and
    restarts auto-sync as its last call however the callback ended; its
    outcome is the callback's, unless the restart itself throws. *)
Theorem acquireLock_restarts callback h r t :
  acquireLock callback h = (r, t) →
  ∃ r_cb t_cb,
    callback (h ++ [EvAutoSyncStop]) = (r_cb, t_cb)
    ∧ t = EvAutoSyncStop :: t_cb ++ [EvAutoSyncStart]
    ∧ r = match autoSync_start (h ++ EvAutoSyncStop :: t_cb) with
          | Returned _ => r_cb
          | Raised e => Raised e
          end.
Proof.
  unfold acquireLock, try_finally. rewrite bind_emit.
  destruct (callback (h ++ [EvAutoSyncStop])) as [r_cb t_cb].
  unfold call. intros Hrun. exists r_cb, t_cb. split; [done|].
  destruct (autoSync_start _); by injection Hrun as <- <-.
Qed.

End SessionFacts.

Lemma init_device_id_witness :
  ∃ t, @init fresh_device_env None [] = (Returned "device-1", t)
       ∧ "device-1" ≠ "".
Proof.
  set (run := @init fresh_device_env None []).
  assert (run = (Returned "device-1", run.2)) as Hrun
    by (vm_compute; reflexivity).
  exists run.2. split; [exact Hrun|].
  exact (proj1 (@init_device_id fresh_device_env None [] "device-1" run.2
                  Hrun)).
Defined.

Lemma init_registers_on_demand_witness :
  ∃ t t_cc stored,
    @init fresh_device_env (Some true) [] = (Returned "device-1", t)
    ∧ @checkConnection fresh_device_env [] = (Returned tt, t_cc)
    ∧ @devices_get fresh_device_env ([] ++ t_cc ++ reregistering (Some true))
      = Returned stored
    ∧ t = t_cc ++ reregistering (Some true)
          ++ EvDevicesGet
             :: (if string_truthy stored then []
                 else [EvDevicesRegister; EvDevicesGet]).
Proof.
  set (run := @init fresh_device_env (Some true) []).
  assert (run = (Returned "device-1", run.2)) as Hrun
    by (vm_compute; reflexivity).
  destruct (@init_registers_on_demand fresh_device_env (Some true) []
              "device-1" run.2 Hrun) as (t_cc & stored & Hcc & Hget & Ht).
  exists run.2, t_cc, stored. split; [exact Hrun|]. split; [exact Hcc|].
  split; [exact Hget|exact Ht].
Defined.

Lemma init_not_registered_witness :
  @init unregistered_env None []
  = (Raised not_registered, [EvDevicesGet; EvDevicesRegister; EvDevicesGet]).
Proof.
  exact (@init_not_registered unregistered_env None [] [] (Some "") (Some "")
           eq_refl eq_refl eq_refl eq_refl eq_refl eq_refl eq_refl).
Defined.

Lemma start_keeps_to_its_type_witness :
  ∃ r t,
    @Sync_start sample_platform quiet_env fetch_options [] = (r, t)
    ∧ Forall (λ ev, send_side ev = false) t.
Proof.
  set (run := @Sync_start sample_platform quiet_env fetch_options []).
  exists run.1, run.2.
  split; [exact (surjective_pairing run)|].
  exact (proj1 (@start_keeps_to_its_type sample_platform quiet_env
                  fetch_options [] run.1 run.2 (surjective_pairing run))
           eq_refl).
Defined.

Lemma start_finishes_witness :
  ∃ t work now closing,
    @Sync_start sample_platform quiet_env full_options [] = (Returned tt, t)
    ∧ t = work ++ finishing now ++ EvCheckSyncStatus autoSync :: closing
    ∧ Forall (λ ev, is_final ev = false) work.
Proof.
  set (run := @Sync_start sample_platform quiet_env full_options []).
  assert (run = (Returned tt, run.2)) as Hrun by (vm_compute; reflexivity).
  destruct (@start_finishes sample_platform quiet_env full_options [] run.2
              {| isEmailConfirmed := true |} Hrun eq_refl eq_refl)
    as (work & now & closing & Ht & Hwork & _).
  exists run.2, work, now, closing.
  split; [exact Hrun|]. split; [exact Ht|exact Hwork].
Defined.

Lemma start_without_sync_witness :
  @SyncManager_start sample_platform sync_disabled_env full_options []
  = (Returned true,
     [EvAutoSyncStart; EvCheckSyncStatus sync; EvConnectionStop])
  ∧ @SyncManager_start sample_platform logged_out_env full_options []
    = (Returned true, [EvAutoSyncStart; EvCheckSyncStatus sync; EvGetUser]).
Proof.
  split.
  - exact (proj1 (@start_without_sync sample_platform sync_disabled_env
                    full_options [] eq_refl) eq_refl eq_refl).
  - exact (proj2 (@start_without_sync sample_platform logged_out_env
                    full_options [] eq_refl) eq_refl eq_refl).
Defined.

Lemma start_non_error_witness :
  @SyncManager_start sample_platform odd_status_env full_options []
  = (Raised TypeError, [EvAutoSyncStart; EvCheckSyncStatus sync]).
Proof.
  exact (@start_non_error sample_platform odd_status_env full_options []
           [EvAutoSyncStart; EvCheckSyncStatus sync]
           ltac:(vm_compute; reflexivity)).
Defined.

Lemma acquireLock_restarts_witness :
  ∃ r t t_cb,
    @acquireLock quiet_env failing_callback [] = (r, t)
    ∧ t = EvAutoSyncStop :: t_cb ++ [EvAutoSyncStart].
Proof.
  set (run := @acquireLock quiet_env failing_callback []).
  destruct (@acquireLock_restarts quiet_env failing_callback [] run.1 run.2
              (surjective_pairing run)) as (r_cb & t_cb & _ & Ht & _).
  exists run.1, run.2, t_cb. split; [exact (surjective_pairing run)|exact Ht].
Defined.

(** ** Batches and items *)

Section ChunkFacts.

Context `{!Platform, !Env}.

Lemma omap_fmap_None {A B} (f : Event → option B) (g : A → Event) l :
  (∀ x, f (g x) = None) → omap f (g <$> l) = [].
Proof.
  intros Hfg. induction l as [|x l IH]; [done|]. simpl. by rewrite Hfg.
Qed.

Lemma forEach_emit_run {A} (g : A → Event) xs h :
  forEach (λ x, emit (g x)) xs h = (Returned tt, g <$> xs).
Proof.
  revert h. induction xs as [|x xs IH]; intros h; [done|].
  simpl. by rewrite bind_emit, IH.
Qed.

Lemma publications_fmap (l : list JsValue) :
  publications ((λ item, EvPublish syncItemMerged [item]) <$> l)
  = (λ item, (syncItemMerged, [item])) <$> l.
Proof. induction l as [|x l IH]; [done|]. simpl. by f_equal. Qed.

Lemma deserialization_emits chunk index decrypted :
  emits is_migration
    (mapM (λ index item,
             do version <- lift (version_at chunk index);
             deserializeItem item version) index decrypted).
Proof.
  apply emits_mapM. intros i x. apply emits_bind; [apply emits_lift|].
  intros version. apply deserializeItem_emits.
Qed.

(** A [map] one of whose elements cannot be processed does not return. *)
Lemma mapM_stuck {A B} (f : nat → A → M B) index xs x h ys t :
  x ∈ xs →
  (∀ i h y t, f i x h ≠ (Returned y, t)) →
  mapM f index xs h ≠ (Returned ys, t).
Proof.
  intros Hin Hx. revert index h ys t.
  induction Hin as [x xs|x x' xs _ IH]; intros index h ys t; simpl.
  - intros (y & t1 & t2 & H1 & _)%bind_Returned. by eapply Hx.
  - intros (y & t1 & t2 & _ & H2 & _)%bind_Returned.
    apply bind_Returned in H2 as (ys' & t3 & t4 & H3 & _).
    by eapply IH.
Qed.

Lemma deserializeItem_non_object_run decryptedItem version h :
  (∀ o, JSON_parse decryptedItem ≠ Returned (JObj o)) →
  deserializeItem decryptedItem version h
  = (Raised (parse_failure decryptedItem), []).
Proof.
  intros Hparse. unfold deserializeItem, parse_failure.
  destruct (JSON_parse decryptedItem) as [[| | | | |o]|e]; try done.
  by destruct (Hparse o).
Qed.

(** X13: a payload that is not the text of an object (the parser
    rejects it, or it is the text of [null] or of a primitive) makes
    [deserializeItem] throw before any migration is called: the parser's
    error, or a [TypeError] from the write of [remote]. *)
Theorem deserializeItem_rejects_non_objects decryptedItem version h :
  (∀ o, JSON_parse decryptedItem ≠ Returned (JObj o)) →
  deserializeItem decryptedItem version h
  = (Raised (parse_failure decryptedItem), [])
  ∧ (parse_failure decryptedItem = TypeError
     ∨ JSON_parse decryptedItem = Raised (parse_failure decryptedItem)).
Proof.
  intros Hparse. split; [by apply deserializeItem_non_object_run|].
  unfold parse_failure. destruct (JSON_parse decryptedItem); eauto.
Qed.

(** X14: every item [deserializeItem] returns is either the parsed
    object with its two stamps, when that object carries a cipher
    marker (no migration is called then), or the item as the migration
    pass that ran last left it, marked unsynced exactly when that pass
    reported a change. *)
Theorem deserializeItem_returns decryptedItem version h item t :
  deserializeItem decryptedItem version h = (Returned (Some item), t) →
  ∃ o,
    JSON_parse decryptedItem = Returned (JObj o)
    ∧ ((truthy (get o "cipher") = true ∧ item = stamped o ∧ t = [])
       ∨ (truthy (get o "cipher") = false
          ∧ ∃ b item',
              migrated h o version = (Returned (changed b, item'), t)
              ∧ item = (if b then <["synced" := JBool false]> item'
                        else item'))).
Proof.
  intros Hrun.
  destruct (JSON_parse decryptedItem) as [parsed|e] eqn:Hparse.
  2: { unfold deserializeItem in Hrun.
       by rewrite Hparse, bind_lift_Raised in Hrun. }
  destruct parsed as [| | | | |o].
  1-5: unfold deserializeItem in Hrun;
       by rewrite Hparse, bind_lift_Returned in Hrun.
  exists o. split; [done|].
  destruct (truthy (get o "cipher")) eqn:Hcipher.
  - rewrite (deserializeItem_cipher_run _ _ _ _ Hparse Hcipher) in Hrun.
    injection Hrun as <- <-. by left.
  - rewrite (deserializeItem_plaintext_run _ _ _ _ Hparse Hcipher) in Hrun.
    right. split; [done|].
    destruct (migrated h o version) as [[[[|b] item']|e] t'];
      simpl in Hrun; try done.
    destruct (itemType_of item') as [itemType|e]; [|done].
    destruct (is_dropped_type itemType); [done|].
    injection Hrun as <- <-. by exists b, item'.
Qed.

(** X15: a plaintext item that migration leaves with type ["tag"] and
    without a string title makes [deserializeItem] throw a [TypeError]
    (the title is lower-cased to compare it with the colors). *)
Theorem deserializeItem_untitled_tag decryptedItem version h o b item t :
  JSON_parse decryptedItem = Returned (JObj o) →
  truthy (get o "cipher") = false →
  migrated h o version = (Returned (changed b, item), t) →
  is_string (get item "type") "tag" = true →
  (∀ title, get item "title" ≠ JStr title) →
  deserializeItem decryptedItem version h = (Raised TypeError, t).
Proof.
  intros Hparse Hcipher Hmigrated Htag Htitle.
  rewrite (deserializeItem_plaintext_run _ _ _ _ Hparse Hcipher), Hmigrated.
  simpl. unfold itemType_of. rewrite Htag.
  destruct (get item "title") as [| | | |title|]; try done.
  by destruct (Htitle title).
Qed.

Lemma processChunk_quiet chunk key :
  announced (type chunk) = false →
  emits (λ ev, publish_of ev = None) (processChunk chunk key).
Proof.
  intros [Hnote Hcontent]%orb_false_iff. unfold processChunk. cbv zeta.
  rewrite Hnote, Hcontent. cbn [orb andb].
  apply emits_if; [apply emits_ret|].
  apply emits_bind; [by apply emits_call|]. intros decrypted.
  apply emits_bind.
  { eapply emits_weaken; [|apply deserialization_emits]. by intros []. }
  intros results. apply emits_bind; [apply emits_lift|]. intros collection.
  apply emits_bind; [by apply emits_call|]. intros localItems.
  apply emits_bind.
  { apply emits_if; apply emits_mapM; intros i x; by apply emits_call. }
  intros merged. apply emits_bind; [apply emits_ret|].
  intros; by apply emits_call.
Qed.

(** X16: however a run of [processChunk] ends, it publishes nothing for
    a batch that is neither of notes nor of content; a run on such a
    batch that returns has published [syncItemMerged] once for each
    merged item, in order, with that item as the only argument, before
    it wrote the batch. *)
Theorem processChunk_announces chunk key h r tr :
  processChunk chunk key h = (r, tr) →
  (announced (type chunk) = false → publications tr = [])
  ∧ (r = Returned tt → announced (type chunk) = true →
     ∃ collection merged before,
       tr = before
            ++ ((λ item, EvPublish syncItemMerged [item]) <$> merged)
            ++ [EvPut collection merged]
       ∧ publications before = []
       ∧ publications tr = (λ item, (syncItemMerged, [item])) <$> merged).
Proof.
  intros Hrun.
  assert (∀ c (localItems : JsValue → JsValue) deserialized h' r' t',
            (if bool_decide (type chunk = "content") then
               mapM (λ _ item,
                       let local := localItems (get item "id") in
                       call (EvMergeContent item local)
                         (λ h, merger_mergeContent h item local))
                 0 deserialized
             else if bool_decide (type chunk = "attachment") then
               mapM (λ _ item,
                       let local := localItems (get item "id") in
                       call (EvMergeItemAsync item local (type chunk))
                         (λ h, merger_mergeItemAsync h item local (type chunk)))
                 0 deserialized
             else
               mapM (λ _ item,
                       let local := localItems (get item "id") in
                       call (EvMergeItemSync item local (type chunk))
                         (λ h, merger_mergeItemSync h item local (type chunk)))
                 0 deserialized) h' = (r', t') →
            publications (EvRecords c (item_id <$> items chunk) :: t') = [])
    as Hmerge.
  { intros c localItems deserialized h' r' t' Hm.
    apply (omap_None_Forall _ (λ ev, publish_of ev = None)); [done|].
    constructor; [done|]. revert Hm. repeat case_bool_decide.
    all: intros Hm%mapM_call_events.
    all: eapply Forall_impl; [exact Hm|]; by intros ? (? & _ & ->). }
  split.
  - intros Hquiet.
    apply (omap_None_Forall _ (λ ev, publish_of ev = None)); [done|].
    revert Hrun. apply processChunk_quiet. exact Hquiet.
  - intros -> Hloud. unfold processChunk in Hrun.
    assert (type chunk ≠ "settings") as Hsettings.
    { intros Heq. by rewrite Heq in Hloud. }
    rewrite bool_decide_false in Hrun by done.
    apply bind_Returned in Hrun as (decrypted & t1 & t2 & Hdec & Hrun & ->).
    injection Hdec as _ <-.
    apply bind_Returned in Hrun as (results & t_des & t3 & Hdes & Hrun & ->).
    apply deserialization_emits in Hdes.
    apply bind_Returned in Hrun as (collection & t4 & t5 & Hcoll & Hrun & ->).
    injection Hcoll as _ <-.
    apply bind_Returned in Hrun as (localItems & t6 & t7 & Hrec & Hrun & ->).
    injection Hrec as _ <-.
    apply bind_Returned in Hrun as (merged & t_merge & t8 & Hm & Hrun & ->).
    apply Hmerge with (c := collection) in Hm.
    apply bind_Returned in Hrun as ([] & t_pub & t9 & Hpub & Hput & ->).
    injection Hput as _ <-.
    fold (announced (type chunk)) in Hpub. rewrite Hloud in Hpub.
    assert (t_pub = (λ item, EvPublish syncItemMerged [item]) <$> merged)
      as ->.
    { cbn [andb] in Hpub.
      destruct (bool_decide (0 < length merged)) eqn:Hlen.
      - rewrite (forEach_emit_run (λ item, EvPublish syncItemMerged [item]))
          in Hpub.
        by injection Hpub as <-.
      - injection Hpub as <-. apply bool_decide_eq_false in Hlen.
        destruct merged; [done|simpl in Hlen; lia]. }
    assert (publications
              (EvDecryptMulti key (items chunk) :: t_des
               ++ EvRecords collection (item_id <$> items chunk) :: t_merge)
            = []) as Hbefore.
    { unfold publications in *. cbn [omap list_omap publish_of].
      rewrite omap_app, Hm, app_nil_r.
      apply (omap_None_Forall _ is_migration); [by intros []|done]. }
    exists collection, merged,
      (EvDecryptMulti key (items chunk) :: t_des
       ++ EvRecords collection (item_id <$> items chunk) :: t_merge).
    split_and!; [|done|].
    + simpl. by rewrite <- !app_assoc.
    + transitivity
        (publications
           ((EvDecryptMulti key (items chunk) :: t_des
             ++ EvRecords collection (item_id <$> items chunk) :: t_merge)
            ++ ((λ item, EvPublish syncItemMerged [item]) <$> merged)
            ++ [EvPut collection merged])).
      { f_equal. simpl. by rewrite <- !app_assoc. }
      unfold publications at 1. rewrite !omap_app.
      fold (publications
              (EvDecryptMulti key (items chunk) :: t_des
               ++ EvRecords collection (item_id <$> items chunk) :: t_merge)).
      rewrite Hbefore.
      fold (publications ((λ item, EvPublish syncItemMerged [item]) <$> merged)).
      rewrite publications_fmap. simpl. by rewrite app_nil_r.
Qed.

(** X17: for a batch whose type has no collection (and is not
    ["settings"]), [processChunk] decrypts and deserializes the batch
    and then throws; it looks nothing up, merges nothing, publishes
    nothing and writes nothing. *)
Theorem processChunk_unknown_type chunk key h r tr :
  processChunk chunk key h = (r, tr) →
  type chunk ≠ "settings" →
  SYNC_COLLECTIONS_MAP !! type chunk = None →
  (∃ e, r = Raised e)
  ∧ ∃ t_des, tr = EvDecryptMulti key (items chunk) :: t_des
             ∧ Forall is_migration t_des.
Proof.
  intros Hrun Hsettings Hunknown. unfold processChunk in Hrun.
  rewrite bool_decide_false in Hrun by done.
  apply bind_inv in Hrun
    as [(e & [= _ <-] & ->)|(decrypted & t1 & t2 & [= _ <-] & Hrun & ->)].
  { split; [by eexists|]. by exists []. }
  apply bind_inv in Hrun
    as [(e & Hdes & ->)|(results & t_des & t3 & Hdes & Hrun & ->)].
  { split; [by eexists|]. exists t2. split; [done|].
    by eapply deserialization_emits. }
  unfold collection_of in Hrun. rewrite Hunknown, bind_lift_Raised in Hrun.
  injection Hrun as <- <-. split; [by eexists|].
  exists t_des. rewrite app_nil_r. split; [done|].
  by eapply deserialization_emits.
Qed.

(** X18: one payload of a batch that is not the text of an object
    fails the whole batch: [processChunk] throws, and no item of the
    batch is merged or written. *)
Theorem processChunk_all_or_nothing chunk key h r tr decrypted text :
  processChunk chunk key h = (r, tr) →
  type chunk ≠ "settings" →
  storage_decryptMulti h key (items chunk) = Returned decrypted →
  text ∈ decrypted →
  (∀ o, JSON_parse text ≠ Returned (JObj o)) →
  (∃ e, r = Raised e) ∧ merged_remotes tr = [] ∧ puts tr = [].
Proof.
  intros Hrun Hsettings Hdec Hin Hparse. unfold processChunk in Hrun.
  rewrite bool_decide_false in Hrun by done.
  rewrite bind_call, Hdec in Hrun.
  match type of Hrun with (let '(_, _) := ?m in _) = _ =>
    destruct m as [r' t] eqn:Hrest end.
  injection Hrun as -> <-.
  apply bind_inv in Hrest
    as [(e & Hdes & ->)|(results & t_des & t3 & Hdes & _)].
  - split; [by eexists|].
    apply deserialization_emits in Hdes.
    unfold merged_remotes, puts. cbn [omap list_omap merged_remote put_of].
    split; apply (omap_None_Forall _ is_migration); try done; by intros [].
  - exfalso. revert Hdes. apply mapM_stuck with (x := text); [done|].
    intros i h' y t' Hone.
    apply bind_Returned in Hone as (version & ? & ? & _ & Hone & _).
    by rewrite deserializeItem_non_object_run in Hone.
Qed.

End ChunkFacts.

Lemma deserializeItem_rejects_non_objects_witness :
  @deserializeItem lenient_platform quiet_env "null" 6 []
  = (Raised TypeError, []).
Proof.
  exact (proj1 (@deserializeItem_rejects_non_objects lenient_platform
                  quiet_env "null" 6 []
                  ltac:(intros o Ho; vm_compute in Ho; discriminate))).
Defined.

Lemma deserializeItem_returns_witness :
  ∃ item t o,
    @deserializeItem sample_platform migrating_env (json_object plain_note)
      6 [] = (Returned (Some item), t)
    ∧ @JSON_parse sample_platform (json_object plain_note)
      = Returned (JObj o)
    ∧ get item "synced" = JBool false.
Proof.
  set (run := @deserializeItem sample_platform migrating_env
                (json_object plain_note) 6 []).
  destruct run as [[[item|]|e] t] eqn:Hrun;
    try (exfalso; vm_compute in Hrun; discriminate).
  destruct (@deserializeItem_returns sample_platform migrating_env
              (json_object plain_note) 6 [] item t Hrun)
    as (o & Hparse & _).
  exists item, t, o. split; [reflexivity|]. split; [exact Hparse|].
  vm_compute in Hrun. injection Hrun as <- _. vm_compute. reflexivity.
Defined.

Lemma deserializeItem_untitled_tag_witness :
  ∃ t,
    @deserializeItem lenient_platform quiet_env (json_object untitled_tag)
      6 [] = (Raised TypeError, t).
Proof.
  eexists.
  exact (@deserializeItem_untitled_tag lenient_platform quiet_env
           (json_object untitled_tag) 6 [] (object_of untitled_tag) false
           (stamped (object_of untitled_tag))
           [first_pass (object_of untitled_tag) 6]
           ltac:(vm_compute; reflexivity) ltac:(vm_compute; reflexivity)
           ltac:(vm_compute; reflexivity) ltac:(vm_compute; reflexivity)
           ltac:(intros title Ht; vm_compute in Ht; discriminate)).
Defined.

Lemma processChunk_announces_witness :
  ∃ tr collection merged before,
    @processChunk sample_platform quiet_env (batch_of "note" [plain_note])
      sample_key [] = (Returned tt, tr)
    ∧ tr = before
           ++ ((λ item, EvPublish syncItemMerged [item]) <$> merged)
           ++ [EvPut collection merged]
    ∧ publications tr = (λ item, (syncItemMerged, [item])) <$> merged.
Proof.
  set (run := @processChunk sample_platform quiet_env
                (batch_of "note" [plain_note]) sample_key []).
  assert (run = (Returned tt, run.2)) as Hrun by (vm_compute; reflexivity).
  destruct (proj2 (@processChunk_announces sample_platform quiet_env
                     (batch_of "note" [plain_note]) sample_key []
                     (Returned tt) run.2 Hrun) eq_refl eq_refl)
    as (collection & merged & before & Ht & _ & Hpub).
  exists run.2, collection, merged, before.
  split; [exact Hrun|]. split; [exact Ht|exact Hpub].
Defined.

Lemma processChunk_unknown_type_witness :
  ∃ r tr e,
    @processChunk sample_platform quiet_env (batch_of "topic" [plain_topic])
      sample_key [] = (r, tr)
    ∧ r = Raised e.
Proof.
  set (run := @processChunk sample_platform quiet_env
                (batch_of "topic" [plain_topic]) sample_key []).
  destruct (@processChunk_unknown_type sample_platform quiet_env
              (batch_of "topic" [plain_topic]) sample_key [] run.1 run.2
              (surjective_pairing run) ltac:(done)
              ltac:(vm_compute; reflexivity)) as ((e & He) & _).
  exists run.1, run.2, e. split; [exact (surjective_pairing run)|exact He].
Defined.

Lemma processChunk_all_or_nothing_witness :
  ∃ r tr e,
    @processChunk sample_platform quiet_env garbled_batch sample_key []
    = (r, tr)
    ∧ r = Raised e ∧ merged_remotes tr = [] ∧ puts tr = [].
Proof.
  set (run := @processChunk sample_platform quiet_env garbled_batch
                sample_key []).
  destruct (@processChunk_all_or_nothing sample_platform quiet_env
              garbled_batch sample_key [] run.1 run.2
              [json_object plain_note; garbled_payload] garbled_payload
              (surjective_pairing run) ltac:(done)
              ltac:(vm_compute; reflexivity)
              ltac:(right; left)
              ltac:(intros o Ho; vm_compute in Ho; discriminate))
    as ((e & He) & Hmerged & Hputs).
  exists run.1, run.2, e. split; [exact (surjective_pairing run)|].
  split; [exact He|]. split; [exact Hmerged|exact Hputs].
Defined.

(** ** Fetching and progress *)

Section FetchFacts.

Context `{!Platform, !Env}.

Lemma processChunk_calls chunk key : emits merge_calls (processChunk chunk key).
Proof.
  unfold processChunk. apply emits_if; [apply emits_ret|].
  apply emits_bind; [by apply emits_call|]. intros decrypted.
  apply emits_bind.
  { eapply emits_weaken; [|apply deserialization_emits]. by intros []. }
  intros results. apply emits_bind; [apply emits_lift|]. intros collection.
  apply emits_bind; [by apply emits_call|]. intros localItems.
  apply emits_bind.
  { repeat apply emits_if; apply emits_mapM; intros i x; by apply emits_call. }
  intros merged. apply emits_bind; [|intros; by apply emits_call].
  apply emits_if; [|apply emits_ret].
  apply emits_forEach. intros x. by apply emits_emit.
Qed.

Lemma onSendItems_calls key count chunk :
  emits chunk_calls (onSendItems key count chunk).
Proof.
  unfold onSendItems. apply emits_bind; [apply emits_read|]. intros state.
  apply emits_if; [apply emits_ret|].
  apply emits_bind.
  { eapply emits_weaken; [|apply processChunk_calls]. intros; by left. }
  intros _. apply emits_bind; [|intros; apply emits_ret].
  apply emits_emit. right. by eexists.
Qed.

Lemma receive_calls stream key count :
  emits chunk_calls (receive stream key count).
Proof.
  revert count. induction stream as [serverResponse|chunk next IH];
    intros count; simpl.
  - apply emits_lift.
  - apply emits_bind.
    + apply emits_attempt, onSendItems_calls.
    + intros [[ack count']|e]; apply IH.
Qed.

Lemma increasing_from_weaken n m counts :
  n ≤ m → increasing_from m counts → increasing_from n counts.
Proof. destruct counts; [done|]. simpl. intros ? [? ?]. split; [lia|done]. Qed.

Lemma merge_calls_downloads t : Forall merge_calls t → downloads t = [].
Proof. apply omap_None_Forall. by intros []. Qed.

(** What one run of the handler reports, and the count it leaves *)
Lemma onSendItems_reports key count chunk h r t :
  onSendItems key count chunk h = (r, t) →
  match r with
  | Returned (_, count') =>
      count ≤ count' ∧ (downloads t = [] ∧ count' = count
                        ∨ downloads t = [count'])
  | Raised _ => downloads t = []
  end.
Proof.
  unfold onSendItems. rewrite bind_read.
  destruct (bool_decide (connection_state h ≠ Connected)).
  { intros [= <- <-]. split; [done|]. by left. }
  intros [(e & Hchunk & ->)|([] & t1 & t2 & Hchunk & Hrest & ->)]%bind_inv.
  - by apply processChunk_calls, merge_calls_downloads in Hchunk.
  - apply processChunk_calls, merge_calls_downloads in Hchunk.
    injection Hrest as <- <-. split; [lia|]. right.
    unfold downloads in *. by rewrite omap_app, Hchunk.
Qed.

Lemma receive_reports stream key count h r tr :
  receive stream key count h = (r, tr) →
  increasing_from count (downloads tr).
Proof.
  revert count h r tr.
  induction stream as [serverResponse|chunk next IH]; intros count h r tr.
  { by intros [= <- <-]. }
  simpl. unfold bind at 1, attempt at 1.
  destruct (onSendItems key count chunk h) as [r1 t1] eqn:Hone.
  apply onSendItems_reports in Hone.
  destruct r1 as [[ack count']|e].
  - destruct (receive (next (Returned ack)) key count' (h ++ t1))
      as [r2 t2] eqn:Hrest.
    intros [= <- <-]. apply IH in Hrest.
    unfold downloads in *. rewrite omap_app.
    destruct Hone as [Hle [[-> ->] | ->]]; [done|]. by split.
  - destruct (receive (next (Raised e)) key count (h ++ t1))
      as [r2 t2] eqn:Hrest.
    intros [= <- <-]. apply IH in Hrest.
    unfold downloads in *. by rewrite omap_app, Hone.
Qed.

(** X19: the download counts reported during a run of [fetch] never
    decrease, however the run ends. *)
Theorem fetch_progress_monotone deviceId h r tr :
  fetch deviceId h = (r, tr) → increasing_from 0 (downloads tr).
Proof.
  unfold fetch.
  assert (∀ t, Forall (λ ev, download_of ev = None) t → downloads t = [])
    as Hnone by (intros t; by apply omap_None_Forall).
  intros [(e & Hcc & ->)|([] & t_cc & t1 & Hcc & Hrun & ->)]%bind_inv.
  { rewrite Hnone; [done|]. revert Hcc. by apply checkConnection_emits. }
  assert (downloads t_cc = []) as Hcc'.
  { apply Hnone. revert Hcc. by apply checkConnection_emits. }
  unfold downloads in *. rewrite omap_app, Hcc'. cbn [app].
  rewrite bind_call in Hrun.
  destruct (user_getEncryptionKey (h ++ t_cc)) as [key|e];
    [|by injection Hrun as _ <-].
  match type of Hrun with (let '(_, _) := ?m in _) = _ =>
    destruct m as [r' t2] eqn:Hrest end.
  injection Hrun as _ <-. cbn [omap list_omap download_of].
  destruct key as [key|]; [|by injection Hrest as _ <-].
  destruct (negb (string_truthy (serialized_key key))
            || negb (string_truthy (serialized_salt key)));
    [by injection Hrest as _ <-|].
  rewrite !bind_emit, bind_call in Hrest. cbv beta iota in Hrest.
  match type of Hrest with context [bind (receive ?s ?k ?c) ?f ?h0] =>
    destruct (bind (receive s k c) f h0) as [r0 t3] eqn:Hrecv end.
  injection Hrest as _ <-. cbn [omap list_omap download_of].
  apply bind_inv in Hrecv
    as [(e & Hrecv & ->)|(serverResponse & t_recv & t4 & Hrecv & Hend & ->)].
  { by apply receive_reports in Hrecv. }
  apply receive_reports in Hrecv. rewrite omap_app.
  assert (omap download_of t4 = []) as ->; [|by rewrite app_nil_r].
  apply Hnone. revert Hend. apply emits_bind; [|intros; by apply emits_emit].
  destruct (vaultKey serverResponse); [|apply emits_ret].
  apply emits_if; [by apply emits_call|apply emits_ret].
Qed.

Lemma chunk_calls_not_setKey ev : chunk_calls ev → is_setKey ev = false.
Proof. intros [?|[? ->]]; [by destruct ev|done]. Qed.

Lemma chunk_calls_not_expired ev : chunk_calls ev → is_expired ev = false.
Proof.
  intros [?|[? ->]]; [|done]. destruct ev; try done. simpl in *. by subst.
Qed.

(** X20: a run of [fetch] hands the vault a key only after its
    [RequestFetch] invocation has completed, and only a complete one
    (cipher, iv and salt not null, a positive length); that call is the
    last of the run but for the removal of the handler. *)
Theorem fetch_vault_key deviceId h r tr vk :
  fetch deviceId h = (r, tr) →
  EvVaultSetKey vk ∈ tr →
  complete vk
  ∧ ∃ before after,
      tr = before ++ EvVaultSetKey vk :: after
      ∧ count_if is_setKey before = 0
      ∧ count_if (invoked "RequestFetch") before = 1
      ∧ (after = [] ∨ after = [EvConnectionOff "SendItems"]).
Proof.
  unfold fetch. intros Hrun Hin.
  assert (∀ t, Forall (λ ev, is_setKey ev = false) t → EvVaultSetKey vk ∉ t)
    as Hnone.
  { intros t Ht Hvk. rewrite Forall_forall in Ht. by apply Ht in Hvk. }
  apply bind_inv in Hrun
    as [(e & Hcc & ->)|([] & t_cc & t1 & Hcc & Hrun & ->)].
  { exfalso. revert Hin. apply Hnone. revert Hcc.
    by apply checkConnection_emits. }
  assert (Forall (λ ev, is_setKey ev = false) t_cc) as Hcc1.
  { revert Hcc. by apply checkConnection_emits. }
  assert (Forall fetch_quiet t_cc) as Hcc2
    by by eapply checkConnection_fetch_quiet.
  rewrite bind_call in Hrun.
  destruct (user_getEncryptionKey (h ++ t_cc)) as [key|e].
  2: { injection Hrun as _ <-. exfalso. revert Hin. apply Hnone.
       apply Forall_app. by repeat constructor. }
  match type of Hrun with (let '(_, _) := ?m in _) = _ =>
    destruct m as [r' t2] eqn:Hrest end.
  injection Hrun as -> <-.
  assert (∀ h' r0 t0,
            (emit (EvLog Error
                     "User encryption key not generated. Please relogin.");;
             emit (EvPublish userSessionExpired [])) h' = (r0, t0) →
            EvVaultSetKey vk ∉ t_cc ++ EvGetEncryptionKey :: t0)
    as Hexpired.
  { intros h' r0 t0 [= <- <-]. apply Hnone, Forall_app.
    by repeat constructor. }
  destruct key as [key|]; [|exfalso; by eapply Hexpired].
  destruct (negb (string_truthy (serialized_key key))
            || negb (string_truthy (serialized_salt key)));
    [exfalso; by eapply Hexpired|].
  rewrite !bind_emit, bind_call in Hrest. cbv beta iota in Hrest.
  match type of Hrest with context [bind (receive ?s ?k ?c) ?f ?h0] =>
    destruct (bind (receive s k c) f h0) as [r0 t3] eqn:Hrecv end.
  injection Hrest as -> <-.
  assert (∀ t_recv, Forall chunk_calls t_recv →
            Forall (λ ev, is_setKey ev = false)
              (t_cc ++ EvGetEncryptionKey :: opening deviceId ++ t_recv)
            ∧ count_if (invoked "RequestFetch")
                (t_cc ++ EvGetEncryptionKey :: opening deviceId ++ t_recv)
              = 1) as Hbefore.
  { intros t_recv Hrecv'. split.
    - apply Forall_app. split; [done|]. repeat (constructor; [done|]).
      eapply Forall_impl; [exact Hrecv'|apply chunk_calls_not_setKey].
    - rewrite count_if_app.
      rewrite (count_if_none _ _ _ (λ ev H, proj2 H) Hcc2).
      change (count_if (invoked "RequestFetch")
                ([EvGetEncryptionKey; EvConnectionOff "SendItems";
                  EvConnectionOn "SendItems";
                  EvConnectionInvoke "RequestFetch" [ArgString deviceId]]
                 ++ t_recv) = 1).
      rewrite count_if_app.
      rewrite (count_if_none _ chunk_calls t_recv); [done| |done].
      intros ev [?|[? ->]]; [by destruct ev|done]. }
  apply bind_inv in Hrecv
    as [(e & Hrecv & ->)|(serverResponse & t_recv & t4 & Hrecv & Hend & ->)].
  { exfalso. revert Hin. apply receive_calls, Hbefore in Hrecv as [Hrecv _].
    by apply Hnone. }
  apply receive_calls, Hbefore in Hrecv as [Hquiet Hcount].
  assert (∃ after,
            t4 = EvVaultSetKey vk :: after ∧ complete vk
            ∧ (after = [] ∨ after = [EvConnectionOff "SendItems"]))
    as (after & -> & Hcomplete & Hafter).
  { assert (EvVaultSetKey vk ∈ t4) as Hin4.
    { assert (EvVaultSetKey vk
              ∈ (t_cc ++ EvGetEncryptionKey :: opening deviceId ++ t_recv)
                ++ t4) as Hin'.
      { rewrite <- app_assoc. exact Hin. }
      apply elem_of_app in Hin' as [Hin'|Hin']; [|done].
      by apply Hnone in Hin'. }
    clear Hin.
    destruct (vaultKey serverResponse) as [vk'|].
    2: { rewrite bind_ret in Hend. injection Hend as _ <-.
         by apply list_elem_of_singleton in Hin4. }
    destruct (bool_decide (is_Some (cipher vk'))
              && bool_decide (is_Some (iv vk'))
              && bool_decide (is_Some (salt vk'))
              && PrimFloat.ltb 0 (cipher_length vk')) eqn:Hcond.
    2: { rewrite bind_ret in Hend. injection Hend as _ <-.
         by apply list_elem_of_singleton in Hin4. }
    apply andb_true_iff in Hcond as [Hcond H4].
    apply andb_true_iff in Hcond as [Hcond H3%bool_decide_eq_true].
    apply andb_true_iff in Hcond
      as [H1%bool_decide_eq_true H2%bool_decide_eq_true].
    rewrite bind_call in Hend.
    assert (vk' = vk ∧ ∃ after, t4 = EvVaultSetKey vk' :: after
                                ∧ (after = []
                                   ∨ after = [EvConnectionOff "SendItems"]))
      as (-> & after & -> & Hafter).
    { destruct (vault_setKey _ vk') as [[]|e].
      - injection Hend as _ <-.
        apply elem_of_cons in Hin4 as [[= ->]|Hin4];
          [|by apply list_elem_of_singleton in Hin4].
        split; [done|]. eexists. split; [done|]. by right.
      - injection Hend as _ <-.
        apply list_elem_of_singleton in Hin4 as [= ->].
        split; [done|]. eexists. split; [done|]. by left. }
    by exists after. }
  split; [done|].
  exists (t_cc ++ EvGetEncryptionKey :: opening deviceId ++ t_recv), after.
  split_and!; try done.
  - simpl. by rewrite <- !app_assoc.
  - eapply count_if_none; [|exact Hquiet]. done.
Qed.

(** X21: when the connection is up and there is no usable encryption
    key (none, or one whose key or salt is missing or empty), [fetch]
    logs the error, publishes [userSessionExpired] and returns, with no
    call on the hub; and a run of [fetch] publishes [userSessionExpired]
    in no other case. *)
Theorem fetch_session_expired deviceId h r tr :
  fetch deviceId h = (r, tr) →
  (∀ t_cc key,
     checkConnection h = (Returned tt, t_cc) →
     user_getEncryptionKey (h ++ t_cc) = Returned key →
     usable key = false →
     r = Returned tt ∧ tr = t_cc ++ expiring)
  ∧ (0 < count_if is_expired tr →
     ∃ t_cc key,
       checkConnection h = (Returned tt, t_cc)
       ∧ user_getEncryptionKey (h ++ t_cc) = Returned key
       ∧ usable key = false).
Proof.
  intros Hrun. split.
  - intros t_cc key Hcc Hkey Husable. unfold fetch in Hrun.
    rewrite (bind_run _ _ _ _ _ Hcc), bind_call, Hkey in Hrun.
    destruct key as [key|].
    + simpl in Husable. rewrite <- negb_true_iff, negb_andb in Husable.
      rewrite Husable in Hrun. by injection Hrun as <- <-.
    + by injection Hrun as <- <-.
  - intros Hcount. unfold fetch in Hrun.
    assert (∀ t, Forall (λ ev, is_expired ev = false) t →
                 count_if is_expired t = 0) as Hnone
      by (intros t; by apply count_if_none).
    apply bind_inv in Hrun
      as [(e & Hcc & ->)|([] & t_cc & t1 & Hcc & Hrun & ->)].
    { rewrite Hnone in Hcount; [lia|]. revert Hcc.
      by apply checkConnection_emits. }
    exists t_cc. rewrite bind_call in Hrun.
    assert (count_if is_expired t_cc = 0) as Hcc'.
    { apply Hnone. revert Hcc. by apply checkConnection_emits. }
    rewrite count_if_app, Hcc' in Hcount.
    destruct (user_getEncryptionKey (h ++ t_cc)) as [key|e];
      [|injection Hrun as _ <-; by vm_compute in Hcount; lia].
    exists key. split; [done|]. split; [done|].
    match type of Hrun with (let '(_, _) := ?m in _) = _ =>
      destruct m as [r' t2] eqn:Hrest end.
    injection Hrun as _ <-.
    destruct key as [key|]; [|done]. simpl.
    destruct (string_truthy (serialized_key key)
              && string_truthy (serialized_salt key)) eqn:Husable; [|done].
    exfalso. apply andb_true_iff in Husable as [Hk Hs].
    rewrite Hk, Hs in Hrest. cbn [negb orb] in Hrest.
    assert (Forall (λ ev, is_expired ev = false) t2) as Hquiet.
    { revert Hrest. generalize r'. generalize t2.
      intros t0 r0 Hrest. revert Hrest.
      match goal with |- ?m ?h0 = _ → _ =>
        assert (emits (λ ev, is_expired ev = false) m) as Hm;
        [|apply Hm] end.
      apply emits_bind; [by apply emits_emit|]. intros _.
      apply emits_bind; [by apply emits_emit|]. intros _.
      apply emits_bind; [by apply emits_call|]. intros stream.
      apply emits_bind.
      { eapply emits_weaken; [|apply receive_calls].
        apply chunk_calls_not_expired. }
      intros serverResponse.
      apply emits_bind; [|intros; by apply emits_emit].
      destruct (vaultKey serverResponse); [|apply emits_ret].
      apply emits_if; [by apply emits_call|apply emits_ret]. }
    change (0 < count_if is_expired ([EvGetEncryptionKey] ++ t2)) in Hcount.
    rewrite count_if_app, (Hnone _ Hquiet) in Hcount.
    vm_compute in Hcount. lia.
Qed.

Lemma send_loop_reports batches deviceId init done h r tr :
  send_loop batches deviceId init done h = (r, tr) →
  increasing_from done (uploads tr).
Proof.
  assert (∀ t, Forall (λ ev, upload_of ev = None) t → uploads t = [])
    as Hnone by (intros t; by apply omap_None_Forall).
  revert init done h r tr.
  induction batches as [| |item next IH]; intros init done h r tr; simpl.
  - by intros [= <- <-].
  - by intros [= <- <-].
  - intros [(e & Hinit & ->)|([] & t1 & t2 & Hinit & Hrun & ->)]%bind_inv.
    { rewrite Hnone; [done|]. revert Hinit.
      apply emits_if; [|apply emits_ret].
      apply emits_bind; [by apply emits_call|]. intros; by apply emits_call. }
    assert (uploads t1 = []) as Ht1.
    { apply Hnone. revert Hinit. apply emits_if; [|apply emits_ret].
      apply emits_bind; [by apply emits_call|]. intros; by apply emits_call. }
    unfold uploads in *. rewrite omap_app, Ht1. cbn [app].
    apply bind_inv in Hrun
      as [(e & Hpush & ->)|(result & t3 & t4 & Hpush & Hrun & ->)].
    { rewrite Hnone; [done|]. revert Hpush. unfold pushItem.
      apply emits_bind; [by apply checkConnection_emits|]. intros _.
      apply emits_bind; [by apply emits_call|]. intros; apply emits_ret. }
    assert (omap upload_of t3 = []) as Ht3.
    { apply Hnone. revert Hpush. unfold pushItem.
      apply emits_bind; [by apply checkConnection_emits|]. intros _.
      apply emits_bind; [by apply emits_call|]. intros; apply emits_ret. }
    rewrite omap_app, Ht3. cbn [app].
    apply bind_inv in Hrun
      as [(e & Hreport & ->)|(done' & t5 & t6 & Hreport & Hrun & ->)].
    { destruct result; discriminate. }
    rewrite bind_read in Hrun. apply IH in Hrun.
    rewrite omap_app. destruct result.
    + injection Hreport as <- <-. simpl. split; [lia|done].
    + injection Hreport as <- <-. done.
Qed.

(** X22: the upload counts reported during a run of [send] never
    decrease, however the run ends and whichever batches the server
    refuses. *)
Theorem send_progress_monotone deviceId isForceSync h r tr :
  send deviceId isForceSync h = (r, tr) → increasing_from 0 (uploads tr).
Proof.
  assert (∀ t, Forall (λ ev, upload_of ev = None) t → uploads t = [])
    as Hnone by (intros t; by apply omap_None_Forall).
  unfold send.
  intros [(e & Hup & ->)|([] & t_up & t1 & Hup & Hrun & ->)]%bind_inv.
  { rewrite Hnone; [done|]. revert Hup. unfold uploadAttachments.
    repeat emits_step; done. }
  assert (uploads t_up = []) as Hup'.
  { apply Hnone. revert Hup. unfold uploadAttachments.
    repeat emits_step; done. }
  unfold uploads in *. rewrite omap_app, Hup'. cbn [app].
  rewrite bind_call in Hrun.
  match type of Hrun with (let '(_, _) := ?m in _) = _ =>
    destruct m as [r' t2] eqn:Hrest end.
  injection Hrun as _ <-. cbn [omap list_omap upload_of].
  apply bind_inv in Hrest
    as [(e & Hloop & ->)|(b & t_loop & t3 & Hloop & Hend & ->)].
  { by apply send_loop_reports in Hloop. }
  apply send_loop_reports in Hloop. rewrite omap_app.
  assert (omap upload_of t3 = []) as ->; [|by rewrite app_nil_r].
  apply Hnone. revert Hend. apply emits_if; [apply emits_ret|].
  apply emits_bind; [by apply emits_call|]. intros; apply emits_ret.
Qed.

End FetchFacts.

Lemma fetch_progress_monotone_witness :
  ∃ r tr,
    @fetch sample_platform streaming_env "device-1" [] = (r, tr)
    ∧ increasing_from 0 (downloads tr).
Proof.
  set (run := @fetch sample_platform streaming_env "device-1" []).
  exists run.1, run.2. split; [exact (surjective_pairing run)|].
  exact (@fetch_progress_monotone sample_platform streaming_env "device-1" []
           run.1 run.2 (surjective_pairing run)).
Defined.

Lemma fetch_vault_key_witness :
  ∃ r tr before after,
    @fetch sample_platform vault_env "device-1" [] = (r, tr)
    ∧ complete server_key
    ∧ tr = before ++ EvVaultSetKey server_key :: after
    ∧ count_if (invoked "RequestFetch") before = 1.
Proof.
  set (run := @fetch sample_platform vault_env "device-1" []).
  assert (EvVaultSetKey server_key ∈ run.2) as Hin.
  { apply (list_elem_of_lookup_2 _ 11). vm_compute. reflexivity. }
  destruct (@fetch_vault_key sample_platform vault_env "device-1" []
              run.1 run.2 server_key (surjective_pairing run) Hin)
    as (Hcomplete & before & after & Ht & _ & Hcount & _).
  exists run.1, run.2, before, after. split; [exact (surjective_pairing run)|].
  split; [exact Hcomplete|]. split; [exact Ht|exact Hcount].
Defined.

Lemma fetch_session_expired_witness :
  @fetch sample_platform keyless_env "device-1" [] = (Returned tt, expiring).
Proof.
  set (run := @fetch sample_platform keyless_env "device-1" []).
  destruct (proj1 (@fetch_session_expired sample_platform keyless_env
                     "device-1" [] run.1 run.2 (surjective_pairing run))
              [] _ eq_refl eq_refl eq_refl) as [Hr Ht].
  change (run = (Returned tt, expiring)).
  rewrite (surjective_pairing run). by rewrite Hr, Ht.
Defined.

Lemma send_progress_monotone_witness :
  ∃ r tr,
    @send two_pushes_env "device-1" None [] = (r, tr)
    ∧ increasing_from 0 (uploads tr).
Proof.
  set (run := @send two_pushes_env "device-1" None []).
  exists run.1, run.2. split; [exact (surjective_pairing run)|].
  exact (@send_progress_monotone two_pushes_env "device-1" None []
           run.1 run.2 (surjective_pairing run)).
Defined.

(** ** The list of the mobile app *)

Section ListFacts.

Context `{!ListEnv}.

Lemma omap_length_le {A B} (f : A → option B) l :
  length (omap f l) ≤ length l.
Proof.
  induction l as [|x l IH]; [done|]. cbn [omap list_omap].
  destruct (f x); cbn [length]; lia.
Qed.

(** X23: for an item that is there, [RenderItem] throws a [TypeError]
    when the database has no settings (the optional call gives
    [undefined], whose [sortBy] is then read); when it renders, the
    [dateBy] prop is never ["title"]: it is the [sortBy] of the group
    options of the list type, or ["dateEdited"] in its place. *)
Theorem RenderItem_dateBy item index listType :
  (db_settings = None →
   RenderItem (Some item) index listType = Raised TypeError)
  ∧ (∀ key tags dateBy index' listType',
       RenderItem (Some item) index listType
       = Returned (Element key tags dateBy index' listType') →
       dateBy ≠ JStr "title"
       ∧ ∃ getGroupOptions sortBy,
           db_settings = Some getGroupOptions
           ∧ prop (getGroupOptions listType) "sortBy" = Returned sortBy
           ∧ dateBy = (if is_string sortBy "title" then JStr "dateEdited"
                       else sortBy)).
Proof.
  unfold RenderItem. split.
  - by intros ->.
  - intros key tags dateBy index' listType'.
    destruct db_settings as [getGroupOptions|]; [|done].
    destruct (prop (getGroupOptions listType) "sortBy") as [sortBy|e] eqn:Hsort;
      [|done].
    intros [= _ _ <- _ _]. split.
    + destruct (is_string sortBy "title") eqn:His; [done|].
      simpl. intros ->. by vm_compute in His.
    + exists getGroupOptions, sortBy. split_and!; [done..|].
      by destruct (is_string sortBy "title").
Qed.

(** X24: the [tags] prop holds at most three tags, each built from a
    tag the database knows for one of the first three tag ids of the
    item; ids after the third are never looked at. *)
Theorem RenderItem_tags item index listType key tags dateBy index' listType' :
  RenderItem (Some item) index listType
  = Returned (Element key tags dateBy index' listType') →
  length tags ≤ 3
  ∧ (∀ tag, tag ∈ tags →
       ∃ ids id, item_tags item = Some ids ∧ id ∈ take 3 ids
                 ∧ truthy (tags_tag id) = true ∧ tag_props id = Some tag)
  ∧ (∀ ids extra,
       item_tags item = Some ids → 3 ≤ length ids →
       RenderItem (Some {| item_fields := item_fields item;
                           item_tags := Some (ids ++ extra) |})
         index listType
       = RenderItem (Some item) index listType).
Proof.
  unfold RenderItem.
  destruct (prop _ "sortBy") as [sortBy|e]; [|done].
  intros [= _ <- _ _ _]. split_and!.
  - destruct (item_tags item) as [ids|]; [|simpl; lia].
    etrans; [apply omap_length_le|].
    rewrite length_fmap, length_take. lia.
  - intros tag Htag. destruct (item_tags item) as [ids|];
      [|by apply elem_of_nil in Htag].
    apply list_elem_of_omap in Htag as (x & Hx & Hsome). simpl in Hsome.
    subst x. apply list_elem_of_fmap in Hx as (id & Hid & Hin).
    exists ids, id. split_and!; try done.
    unfold tag_props in Hid. by destruct (truthy (tags_tag id)).
  - intros ids extra -> Hlen. simpl. by rewrite take_app_le by lia.
Qed.

End ListFacts.

(** ** The conflict toggle of the web app *)

Section ToggleFacts.

Context `{!ToggleEnv}.

Lemma ui_bind_inv {A B} (m : UI A) (f : A → UI B) h r t :
  ui_bind m f h = (r, t) →
  (∃ e, m h = (Raised e, t) ∧ r = Raised e)
  ∨ (∃ a t1 t2, m h = (Returned a, t1) ∧ f a (h ++ t1) = (r, t2)
                ∧ t = t1 ++ t2).
Proof.
  unfold ui_bind. destruct (m h) as [[a|e] t1]; intros Hm.
  - right. destruct (f a (h ++ t1)) as [r2 t2] eqn:Hf.
    inversion Hm; subst. eauto 6.
  - left. inversion Hm; subst. eauto.
Qed.

(** What the copy is made of *)
Lemma duplicate_fields note otherContent :
  get (duplicate note otherContent) "id" = JUndefined
  ∧ get (duplicate note otherContent) "dateCreated" = JUndefined
  ∧ get (duplicate note otherContent) "dateEdited" = JUndefined
  ∧ get (duplicate note otherContent) "conflicted" = JBool false
  ∧ get (duplicate note otherContent) "title"
    = JStr (to_string (get note "title") +:+ " (DUPLICATE)")
  ∧ ∀ k, k ∉ overwritten → duplicate note otherContent !! k = note !! k.
Proof.
  unfold duplicate. split_and!.
  1-5: by repeat first [rewrite get_insert_eq | rewrite get_insert_ne by done].
  intros k Hk. unfold overwritten in Hk.
  rewrite !not_elem_of_cons in Hk. destruct Hk as (?&?&?&?&?&?&_).
  by rewrite !lookup_insert_ne by done.
Qed.

Lemma resolveConflict_returns note selectedContent otherContent h t :
  resolveConflict note selectedContent otherContent h = (Returned tt, t) →
  t = UiNotesAdd (resolution note selectedContent)
      :: (if truthy otherContent
          then [UiNotesAdd (duplicate note otherContent)] else [])
      ++ [UiRefresh; UiSetHashParam (<["note" := get note "id"]> ∅)].
Proof.
  unfold resolveConflict, ui_bind, ui_call, ui_ret. intros Hrun.
  destruct (notes_add h _); [|done].
  destruct (truthy otherContent).
  - destruct (notes_add _ _); [|done]. simpl in Hrun.
    destruct (notestore_refresh _); [|done]. by injection Hrun as _ <-.
  - simpl in Hrun.
    destruct (notestore_refresh _); [|done]. by injection Hrun as _ <-.
Qed.

(** X25: [resolveConflict] first saves the selected content under the
    id of the note, as resolved and with the conflict cleared; it saves a
    copy only when there is other content, and then right after; a run
    that returns has then refreshed the note store and set the hash
    parameter, in this order, and made no other call. The copy is the
    note with a new content, no id and no dates, the conflict cleared
    and " (DUPLICATE)" appended to the title, every other field as in
    the note. *)
Theorem resolveConflict_calls note selectedContent otherContent h r t :
  resolveConflict note selectedContent otherContent h = (r, t) →
  (∃ rest, t = UiNotesAdd (resolution note selectedContent) :: rest)
  ∧ (truthy otherContent = false → ui_count is_add t = 1)
  ∧ (r = Returned tt →
     t = UiNotesAdd (resolution note selectedContent)
         :: (if truthy otherContent
             then [UiNotesAdd (duplicate note otherContent)] else [])
         ++ [UiRefresh; UiSetHashParam (<["note" := get note "id"]> ∅)])
  ∧ get (duplicate note otherContent) "id" = JUndefined
  ∧ get (duplicate note otherContent) "dateCreated" = JUndefined
  ∧ get (duplicate note otherContent) "dateEdited" = JUndefined
  ∧ get (duplicate note otherContent) "conflicted" = JBool false
  ∧ get (duplicate note otherContent) "title"
    = JStr (to_string (get note "title") +:+ " (DUPLICATE)")
  ∧ ∀ k, k ∉ overwritten → duplicate note otherContent !! k = note !! k.
Proof.
  intros Hrun.
  destruct (duplicate_fields note otherContent) as (?&?&?&?&?&?).
  split_and!; [| | |done..].
  - unfold resolveConflict in Hrun. apply ui_bind_inv in Hrun
      as [(e & [= _ <-] & _)|(a & t1 & t2 & [= _ <-] & _ & ->)];
      by eexists.
  - intros Hother. unfold resolveConflict in Hrun. rewrite Hother in Hrun.
    unfold ui_bind, ui_call, ui_ret in Hrun.
    destruct (notes_add h _); [|by injection Hrun as _ <-].
    simpl in Hrun. destruct (notestore_refresh _);
      [|by injection Hrun as _ <-].
    by injection Hrun as _ <-.
  - intros ->. by eapply resolveConflict_returns.
Qed.

(** The resolution is never the copy: it has no title. *)
Lemma resolution_is_no_copy note selectedContent otherContent :
  resolution note selectedContent ≠ duplicate note otherContent.
Proof.
  intros Heq. apply (f_equal (λ item : Item, item !! "title")) in Heq.
  unfold resolution, duplicate in Heq.
  rewrite lookup_insert_eq in Heq.
  by rewrite !lookup_insert_ne in Heq by done.
Qed.

(** X26: when the other version is selected, the main button resolves
    the conflict with the content of the selected editor and nothing
    else: it reads the selected editor, never the other one; if that
    read throws, nothing is saved; otherwise the one note it saves is
    the resolution made of what it read (never the copy), saved right
    after the read, and a run that returns has then refreshed the note
    store and set the hash parameter and made no other call; it does
    not toggle. When the other version is not selected the button only
    toggles. The "Save copy" button is rendered exactly when the other
    version is selected; and when both versions are selected the main
    button, which then resolves the conflict, reads "Undo". *)
Theorem main_button_action props h r t :
  onClick_main props h = (r, t) →
  (isOtherSelected props = false → t = [UiToggle])
  ∧ (isOtherSelected props = true →
     ui_count is_toggle t = 0 ∧ ui_count is_add t ≤ 1
     ∧ ∃ rest, t = UiContents SelectedEditor :: rest
               ∧ Forall (λ ev, ev ≠ UiContents OtherEditor) rest)
  ∧ ("Save copy" ∈ buttons props ↔ isOtherSelected props = true)
  ∧ (isSelected props = true → isOtherSelected props = true →
     buttons props = ["Save copy"; "Undo"])
  ∧ (isOtherSelected props = true →
     ∀ e, cleaned_contents h SelectedEditor = Raised e →
          r = Raised e ∧ t = [UiContents SelectedEditor])
  ∧ (isOtherSelected props = true →
     ∀ selectedContent,
       cleaned_contents h SelectedEditor = Returned selectedContent →
       (∃ rest,
          t = UiContents SelectedEditor
              :: UiNotesAdd
                   (resolution (conflicted_note props) selectedContent)
              :: rest
          ∧ ui_count is_add rest = 0
          ∧ (r = Returned tt →
             rest = [UiRefresh;
                     UiSetHashParam
                       (<["note" := get (conflicted_note props) "id"]> ∅)]))
       ∧ (∀ saved, UiNotesAdd saved ∈ t →
            saved = resolution (conflicted_note props) selectedContent
            ∧ ∀ otherContent,
                saved ≠ duplicate (conflicted_note props) otherContent)).
Proof.
  unfold onClick_main. intros Hrun. split_and!.
  - intros Hother. rewrite Hother in Hrun. by injection Hrun as _ <-.
  - intros Hother. rewrite Hother in Hrun.
    apply ui_bind_inv in Hrun
      as [(e & [= _ <-] & _)|(selected & t1 & t2 & [= _ <-] & Hrun & ->)].
    { split_and!; [done|vm_compute; lia|]. by exists []. }
    unfold resolveConflict in Hrun. simpl in Hrun.
    unfold ui_bind, ui_call, ui_ret in Hrun.
    destruct (notes_add _ _).
    2: { injection Hrun as _ <-. split_and!; [done|vm_compute; lia|].
         eexists. split; [done|]. by repeat constructor. }
    simpl in Hrun. destruct (notestore_refresh _).
    2: { injection Hrun as _ <-. split_and!; [done|vm_compute; lia|].
         eexists. split; [done|]. by repeat constructor. }
    injection Hrun as _ <-. split_and!; [done|vm_compute; lia|].
    eexists. split; [done|]. by repeat constructor.
  - unfold buttons, main_label.
    destruct (isOtherSelected props); simpl.
    + split; [done|]. intros _. left.
    + split; [|done]. intros Hin%list_elem_of_singleton.
      by destruct (isSelected props).
  - unfold buttons, main_label. by intros -> ->.
  - intros Hother e Hread. rewrite Hother in Hrun.
    unfold ui_bind, ui_call in Hrun. rewrite Hread in Hrun.
    by injection Hrun as <- <-.
  - intros Hother selectedContent Hread. rewrite Hother in Hrun.
    unfold ui_bind at 1, ui_call at 1 in Hrun. rewrite Hread in Hrun.
    destruct (resolveConflict _ _ _ _) as [r' t'] eqn:Hresolve.
    injection Hrun as <- <-.
    assert (∃ rest,
              t' = UiNotesAdd
                     (resolution (conflicted_note props) selectedContent)
                   :: rest
              ∧ ui_count is_add rest = 0
              ∧ Forall (λ ev, is_add ev = false) rest
              ∧ (r' = Returned tt →
                 rest = [UiRefresh;
                         UiSetHashParam
                           (<["note" := get (conflicted_note props) "id"]>
                              ∅)]))
      as (rest & -> & Hcount & Hquiet & Hreturned).
    { unfold resolveConflict in Hresolve. simpl in Hresolve.
      unfold ui_bind, ui_call, ui_ret in Hresolve.
      destruct (notes_add _ _).
      2: { injection Hresolve as <- <-. by exists []. }
      simpl in Hresolve. destruct (notestore_refresh _).
      2: { injection Hresolve as <- <-. eexists. split; [done|].
           split_and!; [done|by repeat constructor|done]. }
      destruct (setHashParam _ _) as [[]|e]; injection Hresolve as <- <-.
      all: eexists; split; [done|].
      all: split_and!; [done|by repeat constructor|done]. }
    split.
    + exists rest. by split_and!.
    + intros saved Hin.
      assert (saved = resolution (conflicted_note props) selectedContent)
        as ->.
      { apply elem_of_cons in Hin as [[=]|Hin].
        apply elem_of_cons in Hin as [[= ->]|Hin]; [done|].
        rewrite Forall_forall in Hquiet. by apply Hquiet in Hin. }
      split; [done|]. intros otherContent. apply resolution_is_no_copy.
Qed.

(** X27: a run of the "Save copy" handler reads the selected editor and
    then the other one; when it returns and the other content is truthy
    (a delta object always is) it has saved exactly two notes, the
    resolution first and then the copy made of the other content. *)
Theorem save_copy_action props h t :
  onClick_save_copy props h = (Returned tt, t) →
  ∃ selectedContent otherContent,
    cleaned_contents h SelectedEditor = Returned selectedContent
    ∧ cleaned_contents (h ++ [UiContents SelectedEditor]) OtherEditor
      = Returned otherContent
    ∧ (truthy otherContent = true →
       t = [UiContents SelectedEditor; UiContents OtherEditor;
            UiNotesAdd (resolution (conflicted_note props) selectedContent);
            UiNotesAdd (duplicate (conflicted_note props) otherContent);
            UiRefresh;
            UiSetHashParam (<["note" := get (conflicted_note props) "id"]> ∅)]).
Proof.
  unfold onClick_save_copy.
  intros [(e & [= _ _] & [=])|(selected & t1 & t2 & [= Hsel <-] & Hrun & ->)]
    %ui_bind_inv.
  apply ui_bind_inv in Hrun
    as [(e & [= _ _] & [=])|(other & t3 & t4 & [= Hother <-] & Hrun & ->)].
  exists selected, other. split_and!; [done..|].
  intros Htruthy.
  by rewrite (resolveConflict_returns _ _ _ _ _ Hrun), Htruthy.
Qed.

End ToggleFacts.

Lemma RenderItem_tags_witness :
  ∃ key tags dateBy,
    @RenderItem sorted_by_title (Some tagged_note) 0 (JStr "home")
    = Returned (Element key tags dateBy 0 (JStr "home"))
    ∧ length tags ≤ 3.
Proof.
  set (run := @RenderItem sorted_by_title (Some tagged_note) 0 (JStr "home")).
  destruct run as [[|key tags dateBy index' listType']|e] eqn:Hrun;
    try (exfalso; vm_compute in Hrun; discriminate).
  assert (index' = 0 ∧ listType' = JStr "home") as [-> ->].
  { vm_compute in Hrun. by injection Hrun as _ _ _ <- <-. }
  exists key, tags, dateBy. split; [reflexivity|].
  exact (proj1 (@RenderItem_tags sorted_by_title tagged_note 0 (JStr "home")
                  key tags dateBy 0 (JStr "home") Hrun)).
Defined.

Lemma resolveConflict_calls_witness :
  ∃ t,
    @resolveConflict agreeable (object_of plain_note) (JStr "mine")
      (JStr "theirs") [] = (Returned tt, t)
    ∧ t = [UiNotesAdd (resolution (object_of plain_note) (JStr "mine"));
           UiNotesAdd
             (duplicate (H := agreeable) (object_of plain_note)
                (JStr "theirs"));
           UiRefresh; UiSetHashParam (<["note" := JStr "n2"]> ∅)].
Proof.
  set (run := @resolveConflict agreeable (object_of plain_note) (JStr "mine")
                (JStr "theirs") []).
  assert (run = (Returned tt, run.2)) as Hrun by (vm_compute; reflexivity).
  exists run.2. split; [exact Hrun|].
  destruct (@resolveConflict_calls agreeable (object_of plain_note)
              (JStr "mine") (JStr "theirs") [] (Returned tt) run.2 Hrun)
    as (_ & _ & Ht & _).
  exact (Ht eq_refl).
Defined.

Lemma main_button_action_witness :
  ∃ r t selectedContent,
    @onClick_main agreeable other_selected [] = (r, t)
    ∧ ui_count is_toggle t = 0
    ∧ t = [UiContents SelectedEditor;
           UiNotesAdd (resolution (object_of plain_note) selectedContent);
           UiRefresh; UiSetHashParam (<["note" := JStr "n2"]> ∅)].
Proof.
  set (run := @onClick_main agreeable other_selected []).
  assert (run = (Returned tt, run.2)) as Hrun by (vm_compute; reflexivity).
  destruct (@main_button_action agreeable other_selected [] (Returned tt)
              run.2 Hrun) as (_ & Hother & _ & _ & _ & Hsaved).
  destruct (Hother eq_refl) as (Htoggle & _).
  destruct (Hsaved eq_refl _ eq_refl) as ((rest & Ht & _ & Hrest) & _).
  eexists (Returned tt), run.2, _. split; [exact Hrun|].
  split; [exact Htoggle|]. rewrite Ht, (Hrest eq_refl). reflexivity.
Defined.

Lemma save_copy_action_witness :
  ∃ t selectedContent otherContent,
    @onClick_save_copy agreeable other_selected [] = (Returned tt, t)
    ∧ t = [UiContents SelectedEditor; UiContents OtherEditor;
           UiNotesAdd (resolution (object_of plain_note) selectedContent);
           UiNotesAdd
             (duplicate (H := agreeable) (object_of plain_note) otherContent);
           UiRefresh; UiSetHashParam (<["note" := JStr "n2"]> ∅)].
Proof.
  set (run := @onClick_save_copy agreeable other_selected []).
  assert (run = (Returned tt, run.2)) as Hrun by (vm_compute; reflexivity).
  destruct (@save_copy_action agreeable other_selected [] run.2 Hrun)
    as (selectedContent & otherContent & _ & Hother & Ht).
  exists run.2, selectedContent, otherContent. split; [exact Hrun|].
  apply Ht. vm_compute in Hother. by injection Hother as <-.
Defined.

(** ** The text of a HubException *)

Lemma dot_star_single_line s : single_line (dot_star s).
Proof.
  unfold single_line. induction s as [|c rest IH]; [constructor|].
  cbn [dot_star]. destruct (at_line_terminator (String c rest)) eqn:Hterm;
    [constructor|].
  cbn [String.list_ascii_of_string]. constructor; [|exact IH].
  unfold at_line_terminator in Hterm.
  apply orb_false_iff in Hterm as [Hterm _].
  apply orb_false_iff in Hterm as [Hterm _].
  apply orb_false_iff in Hterm as [Hlf Hcr].
  split; intros Hc; subst c; destruct rest;
    [vm_compute in Hlf..|vm_compute in Hcr|vm_compute in Hcr]; discriminate.
Qed.

(** X28: the text [start] extracts from a HubException message is what
    follows the first "HubException: " up to the end of that line: it
    never contains a line feed or a carriage return. *)
Theorem HubException_text_single_line message text :
  HubException_exec message = Some text →
  single_line text
  ∧ ∃ i, String.index 0 "HubException: " message = Some i
         ∧ text = dot_star (String.substring (i + 14)
                              (String.length message - (i + 14)) message).
Proof.
  unfold HubException_exec.
  destruct (String.index 0 "HubException: " message) as [i|]; [|done].
  simpl. intros [= <-]. split; [apply dot_star_single_line|]. by exists i.
Qed.

Lemma HubException_text_single_line_witness :
  HubException_exec two_line_message = Some "Invalid token."
  ∧ single_line "Invalid token.".
Proof.
  split; [vm_compute; reflexivity|].
  exact (proj1 (HubException_text_single_line two_line_message
                  "Invalid token." ltac:(vm_compute; reflexivity))).
Defined.
